(** * job_snatcher: the pipeline core, embedded and verified

    A shallow embedding of the orchestration core of the job_snatcher
    repository: the job table of [src/db.py], the ingestion guard
    ([src/ingester/ingester.py]), the three batch stages (cosine matcher,
    reasoning matcher, generator), the score combiner
    ([src/matchers/combine.py]), the Wake-on-LAN gate
    ([src/matchers/reasoning/wol.py]) and the Airflow task functions
    ([src/airflow_dags/job_snatcher_pipeline.py]).

    Conventions.
    - Python [float] is IEEE binary64: Rocq's primitive floats.
    - A call that can raise returns a [result]; a [try/except] is a match
      on it.
    - The database session is an explicit [store] that every operation
      takes and returns; a [commit] is the returned store.
    - Whatever lives outside the repository (the network, the embedding
      model, the language models, the HTML parsers built on BeautifulSoup,
      [urllib.parse.urlparse]) is a [Variable] of the section that uses it.
      A call made inside a stage loop takes the position of the job in the
      batch, so that its outcome may differ from one iteration to the next.
    - An insert can be refused by the constraints [src/db.py] declares;
      the reads and the commits of the stage loops are taken to succeed.
    - The HTTP layer between the DAG and a service delivers: what [_post]
      raises is the error status of the service.
    - Log lines and Prometheus counters are left out, except in the trace
      of [wake_and_wait]. *)

From Stdlib Require Import ZArith List String Ascii Bool Lia.
From Stdlib.Strings Require Import Byte.
From Stdlib Require Import Floats.
Import ListNotations.

Set Warnings "-inexact-float".

(* ================================================================== *)
(** * Python floats *)

Module PyFloat.

Local Open Scope Z_scope.

(** Round the non-negative rational [num / den] to the nearest integer,
    ties to the even one. *)
Definition round_half_even (num den : Z) : Z :=
  let q := num / den in
  let r := num mod den in
  match 2 * r ?= den with
  | Lt => q
  | Gt => q + 1
  | Eq => if Z.even q then q else q + 1
  end.

(** The binary64 value nearest to the positive rational [p / q] (ties to
    even), as a positive mantissa and an exponent: what a correctly
    rounded [strtod] returns for a decimal string. *)
Definition nearest_binary64 (p q : Z) : float :=
  if p <=? 0 then PrimFloat.zero
  else
    let e0 := Z.log2 p - Z.log2 q - 52 in
    let scaled_lt (e : Z) : bool :=
      (* p / (q * 2^e) < 2^52 *)
      if 0 <=? e then p <? q * 2 ^ e * 2 ^ 52
      else p * 2 ^ (- e) <? q * 2 ^ 52 in
    let e := if scaled_lt e0 then e0 - 1 else e0 in
    let m :=
      if 0 <=? e then round_half_even p (q * 2 ^ e)
      else round_half_even (p * 2 ^ (- e)) q in
    SF2Prim (S754_finite false (Z.to_pos m) e).

(** [round(x, 4)] of CPython (Objects/floatobject.c, [double_round]): NaN,
    the infinities and the zeros are returned as they are; a finite [x] is
    rounded, on its exact binary value, to four digits after the decimal
    point with ties to even, the decimal result is read back as the nearest
    binary64, and the sign of [x] is kept (so a negative [x] can give
    [-0.0]). *)
Definition round4 (x : float) : float :=
  match Prim2SF x with
  | S754_finite s m e =>
      let n :=
        if 0 <=? e then Z.pos m * 2 ^ e * 10000
        else round_half_even (Z.pos m * 10000) (2 ^ (- e)) in
      let r := nearest_binary64 n 10000 in
      if s then PrimFloat.opp r else r
  | _ => x
  end.

(** Truth value of a Python float: every float but the two zeros. *)
Definition truthy (x : float) : bool := negb (PrimFloat.eqb x PrimFloat.zero).

End PyFloat.

(* ================================================================== *)
(** * Python values: exceptions, results, strings *)

(** The exception classes the modelled code raises or catches.  A
    constructor stands for its class and the subclasses the code does not
    tell apart; messages are dropped, payloads the callers read are kept. *)
Inductive exn : Type :=
| ValueError
| RuntimeError
| AttributeError
| TypeError
| OSError
| DuplicateJobError (job_id : string) (date_found : string)
| ParseError
| HTTPError (status_code : Z)       (* requests.HTTPError, from raise_for_status *)
| HTTPException (status_code : Z)   (* fastapi.HTTPException *)
| IntegrityError                    (* sqlalchemy.exc.IntegrityError *)
| DataError                         (* sqlalchemy.exc.DataError *)
| OtherException (name : string).

Inductive result (A : Type) : Type :=
| Ok (a : A)
| Raise (e : exn).
Arguments Ok {A} a.
Arguments Raise {A} e.

Definition bind {A B : Type} (r : result A) (k : A -> result B) : result B :=
  match r with
  | Ok a => k a
  | Raise e => Raise e
  end.

Declare Scope py_scope.
Delimit Scope py_scope with py.
Notation "x <- r ;; k" := (bind r (fun x => k))
  (at level 61, r at next level, right associativity) : py_scope.

Definition is_ok {A : Type} (r : result A) : bool :=
  match r with Ok _ => true | Raise _ => false end.

Module Py.

Local Open Scope string_scope.

(** [not s] for [s : str | None]: [None] and the empty string are falsy. *)
Definition falsy (s : option string) : bool :=
  match s with
  | None => true
  | Some s => match s with EmptyString => true | String _ _ => false end
  end.

(** [s or ''] *)
Definition or_empty (s : option string) : string :=
  match s with Some s => s | None => "" end.

Definition lower_ascii (c : ascii) : ascii :=
  let n := nat_of_ascii c in
  if andb (Nat.leb 65 n) (Nat.leb n 90) then ascii_of_nat (n + 32) else c.

(** [str.lower], on ASCII text. *)
Fixpoint lower (s : string) : string :=
  match s with
  | EmptyString => EmptyString
  | String c s' => String (lower_ascii c) (lower s')
  end.

(** [needle in hay] *)
Fixpoint contains (needle hay : string) : bool :=
  orb (String.prefix needle hay)
      match hay with
      | EmptyString => false
      | String _ hay' => contains needle hay'
      end.

(** [s.replace(c, '')] for a one-character [c]. *)
Fixpoint remove_char (c : ascii) (s : string) : string :=
  match s with
  | EmptyString => EmptyString
  | String d s' =>
      if Ascii.eqb c d then remove_char c s' else String d (remove_char c s')
  end.

End Py.

(* ================================================================== *)
(** * The job table ([src/db.py]) *)

Module Db.

Local Open Scope string_scope.

(** A [DateTime] value; only its identity matters here. *)
Definition datetime := Z.

(** One row of [job_applications].  The columns the pipeline core never
    reads or writes ([date_applied], [date_rejection_received],
    [date_offer_received], [cover_letter_final], [notes], [created_at],
    [updated_at]) are left out; a nullable column is an [option]. *)
Record JobApplication : Type := {
  id : string;                            (* primary key, uuid4 by default *)
  job_title : string;                     (* String(255), not null *)
  company_name : string;                  (* String(255), not null *)
  job_url : string;                       (* Text, unique, not null *)
  job_posting_html : option string;
  job_description : option string;
  required_skills : option (list string);
  seniority_level : option string;        (* String(50) *)
  employment_type : option string;        (* String(50) *)
  location : option string;               (* String(255) *)
  salary_range : option string;           (* String(100) *)
  date_found : option datetime;           (* default utcnow *)
  status : string;                        (* String(50), not null *)
  cosine_match_score : option float;
  reasoning_match_score : option float;
  combined_match_score : option float;
  reasoning_explanation : option string;
  cover_letter_draft : option string;
  cv_variant_generated : option string;
  source : option string                  (* String(50) *)
}.

(** One row of [professional_assets]. *)
Record ProfessionalAsset : Type := {
  asset_type : string;
  content : string;
  is_active : bool
}.

(** The database: both tables, rows in insertion order. *)
Record store : Type := {
  job_applications : list JobApplication;
  professional_assets : list ProfessionalAsset
}.

Definition with_jobs (rows : list JobApplication) (db : store) : store :=
  {| job_applications := rows; professional_assets := professional_assets db |}.

(** Attribute assignments on a loaded row. *)
Definition set_cosine_match_score (v : option float) (j : JobApplication)
  : JobApplication :=
  {| id := id j; job_title := job_title j; company_name := company_name j;
     job_url := job_url j; job_posting_html := job_posting_html j;
     job_description := job_description j;
     required_skills := required_skills j;
     seniority_level := seniority_level j;
     employment_type := employment_type j; location := location j;
     salary_range := salary_range j; date_found := date_found j;
     status := status j; cosine_match_score := v;
     reasoning_match_score := reasoning_match_score j;
     combined_match_score := combined_match_score j;
     reasoning_explanation := reasoning_explanation j;
     cover_letter_draft := cover_letter_draft j;
     cv_variant_generated := cv_variant_generated j; source := source j |}.

Definition set_reasoning_match_score (v : option float) (j : JobApplication)
  : JobApplication :=
  {| id := id j; job_title := job_title j; company_name := company_name j;
     job_url := job_url j; job_posting_html := job_posting_html j;
     job_description := job_description j;
     required_skills := required_skills j;
     seniority_level := seniority_level j;
     employment_type := employment_type j; location := location j;
     salary_range := salary_range j; date_found := date_found j;
     status := status j; cosine_match_score := cosine_match_score j;
     reasoning_match_score := v;
     combined_match_score := combined_match_score j;
     reasoning_explanation := reasoning_explanation j;
     cover_letter_draft := cover_letter_draft j;
     cv_variant_generated := cv_variant_generated j; source := source j |}.

Definition set_reasoning_explanation (v : option string) (j : JobApplication)
  : JobApplication :=
  {| id := id j; job_title := job_title j; company_name := company_name j;
     job_url := job_url j; job_posting_html := job_posting_html j;
     job_description := job_description j;
     required_skills := required_skills j;
     seniority_level := seniority_level j;
     employment_type := employment_type j; location := location j;
     salary_range := salary_range j; date_found := date_found j;
     status := status j; cosine_match_score := cosine_match_score j;
     reasoning_match_score := reasoning_match_score j;
     combined_match_score := combined_match_score j;
     reasoning_explanation := v;
     cover_letter_draft := cover_letter_draft j;
     cv_variant_generated := cv_variant_generated j; source := source j |}.

Definition set_combined_match_score (v : option float) (j : JobApplication)
  : JobApplication :=
  {| id := id j; job_title := job_title j; company_name := company_name j;
     job_url := job_url j; job_posting_html := job_posting_html j;
     job_description := job_description j;
     required_skills := required_skills j;
     seniority_level := seniority_level j;
     employment_type := employment_type j; location := location j;
     salary_range := salary_range j; date_found := date_found j;
     status := status j; cosine_match_score := cosine_match_score j;
     reasoning_match_score := reasoning_match_score j;
     combined_match_score := v;
     reasoning_explanation := reasoning_explanation j;
     cover_letter_draft := cover_letter_draft j;
     cv_variant_generated := cv_variant_generated j; source := source j |}.

Definition set_cover_letter_draft (v : option string) (j : JobApplication)
  : JobApplication :=
  {| id := id j; job_title := job_title j; company_name := company_name j;
     job_url := job_url j; job_posting_html := job_posting_html j;
     job_description := job_description j;
     required_skills := required_skills j;
     seniority_level := seniority_level j;
     employment_type := employment_type j; location := location j;
     salary_range := salary_range j; date_found := date_found j;
     status := status j; cosine_match_score := cosine_match_score j;
     reasoning_match_score := reasoning_match_score j;
     combined_match_score := combined_match_score j;
     reasoning_explanation := reasoning_explanation j;
     cover_letter_draft := v;
     cv_variant_generated := cv_variant_generated j; source := source j |}.

Definition set_cv_variant_generated (v : option string) (j : JobApplication)
  : JobApplication :=
  {| id := id j; job_title := job_title j; company_name := company_name j;
     job_url := job_url j; job_posting_html := job_posting_html j;
     job_description := job_description j;
     required_skills := required_skills j;
     seniority_level := seniority_level j;
     employment_type := employment_type j; location := location j;
     salary_range := salary_range j; date_found := date_found j;
     status := status j; cosine_match_score := cosine_match_score j;
     reasoning_match_score := reasoning_match_score j;
     combined_match_score := combined_match_score j;
     reasoning_explanation := reasoning_explanation j;
     cover_letter_draft := cover_letter_draft j; cv_variant_generated := v;
     source := source j |}.

Definition set_status (v : string) (j : JobApplication)
  : JobApplication :=
  {| id := id j; job_title := job_title j; company_name := company_name j;
     job_url := job_url j; job_posting_html := job_posting_html j;
     job_description := job_description j;
     required_skills := required_skills j;
     seniority_level := seniority_level j;
     employment_type := employment_type j; location := location j;
     salary_range := salary_range j; date_found := date_found j;
     status := v; cosine_match_score := cosine_match_score j;
     reasoning_match_score := reasoning_match_score j;
     combined_match_score := combined_match_score j;
     reasoning_explanation := reasoning_explanation j;
     cover_letter_draft := cover_letter_draft j;
     cv_variant_generated := cv_variant_generated j; source := source j |}.

(** [db.query(JobApplication).filter_by(id=job_id).first()] *)
Definition query_by_id (db : store) (job_id : string) : option JobApplication :=
  find (fun j => String.eqb (id j) job_id) (job_applications db).

(** [db.query(JobApplication).filter_by(job_url=url).first()] *)
Definition query_by_url (db : store) (url : string) : option JobApplication :=
  find (fun j => String.eqb (job_url j) url) (job_applications db).

(** [db.query(ProfessionalAsset).filter_by(asset_type=t, is_active=True).first()] *)
Definition query_asset (db : store) (t : string) : option ProfessionalAsset :=
  find (fun a => andb (String.eqb (asset_type a) t) (is_active a))
       (professional_assets db).

Definition fits (n : nat) (s : string) : bool := Nat.leb (String.length s) n.

Definition fits_opt (n : nat) (s : option string) : bool :=
  match s with None => true | Some s => fits n s end.

(** The length bounds of the [String(n)] columns. *)
Definition lengths_ok (j : JobApplication) : bool :=
  fits 255 (job_title j) && fits 255 (company_name j)
  && fits_opt 50 (seniority_level j) && fits_opt 50 (employment_type j)
  && fits_opt 255 (location j) && fits_opt 100 (salary_range j)
  && fits 50 (status j) && fits_opt 50 (source j).

(** The primary key and the [unique=True] constraint on [job_url]. *)
Definition unique_ok (db : store) (j : JobApplication) : bool :=
  match query_by_id db (id j), query_by_url db (job_url j) with
  | None, None => true
  | _, _ => false
  end.

(** [db.add(job); db.commit()] for a new row: the row is appended, unless
    the database rejects it. *)
Definition add_commit (db : store) (j : JobApplication) : result store :=
  if negb (lengths_ok j) then Raise DataError
  else if negb (unique_ok db j) then Raise IntegrityError
  else Ok (with_jobs (job_applications db ++ [j]) db).

(** [db.commit()] after attribute assignments on the loaded row [j]: the
    row with the primary key of [j] is overwritten. *)
Definition commit_row (db : store) (j : JobApplication) : store :=
  with_jobs
    (map (fun r => if String.eqb (id r) (id j) then j else r)
         (job_applications db))
    db.

End Db.

(* ================================================================== *)
(** * Ingestion ([src/ingester]) *)

Module Ingester.

Import Db.
Local Open Scope string_scope.

(** What a posting parser returns: the keys of its dict, each possibly
    [None]. *)
Record Parsed : Type := {
  title : option string;
  company : option string;
  description : option string;
  skills : option (list string);
  seniority : option string;
  employment_type : option string;
  location : option string;
  salary : option string
}.

Section Ingest.

(** [urllib.parse.urlparse]: the scheme and the netloc of a URL. *)
Variable urlparse : string -> result (string * string).
(** [fetcher.fetch_html]: an HTTP GET, which raises on a network error or
    an error status. *)
Variable fetch_html : string -> result string.
(** The three parsers of [src/ingester/parsers], on the fetched HTML. *)
Variable parse_linkedin_posting : string -> result Parsed.
Variable parse_indeed_posting : string -> result Parsed.
Variable parse_generic_posting : string -> result Parsed.
(** The column defaults evaluated at insert: [uuid.uuid4()] for [id] and
    [datetime.utcnow()] for [date_found]. *)
Variable uuid4 : string.
Variable utcnow : datetime.
(** [datetime.isoformat] *)
Variable isoformat : datetime -> string.

(** [validators.url_is_valid] *)
Definition url_is_valid (url : string) : bool :=
  match urlparse url with
  | Ok (scheme, netloc) =>
      (String.eqb scheme "http" || String.eqb scheme "https")
      && negb (String.eqb netloc "")
  | Raise _ => false
  end.

(** [fetcher.detect_job_source] *)
Definition detect_job_source (url : string) : result string :=
  match urlparse url with
  | Raise e => Raise e
  | Ok (_, netloc) =>
      let domain := Py.lower netloc in
      if Py.contains "linkedin.com" domain then Ok "linkedin"
      else if Py.contains "indeed.com" domain then Ok "indeed"
      else if Py.contains "duunitori.fi" domain then Ok "duunitori"
      else Ok "generic"
  end.

(** The row stored when parsing raised. *)
Definition parse_failed_row (job_url html source : string) : JobApplication :=
  {| id := uuid4;
     job_title := "[parse failed]";
     company_name := "[parse failed]";
     job_url := job_url;
     job_posting_html := Some html;
     job_description := None;
     required_skills := None;
     seniority_level := None;
     Db.employment_type := None;
     Db.location := None;
     salary_range := None;
     date_found := Some utcnow;
     status := "discovered";
     cosine_match_score := None;
     reasoning_match_score := None;
     combined_match_score := None;
     reasoning_explanation := None;
     cover_letter_draft := None;
     cv_variant_generated := None;
     Db.source := Some source |}.

(** The row stored for a parsed posting. *)
Definition parsed_row (job_url html source : string) (parsed : Parsed)
  : JobApplication :=
  {| id := uuid4;
     job_title := Py.or_empty (title parsed);
     company_name := Py.or_empty (company parsed);
     job_url := job_url;
     job_posting_html := Some html;
     job_description := description parsed;
     required_skills :=
       Some match skills parsed with Some l => l | None => [] end;
     seniority_level := seniority parsed;
     Db.employment_type := employment_type parsed;
     Db.location := location parsed;
     salary_range := salary parsed;
     date_found := Some utcnow;
     status := "discovered";
     cosine_match_score := None;
     reasoning_match_score := None;
     combined_match_score := None;
     reasoning_explanation := None;
     cover_letter_draft := None;
     cv_variant_generated := None;
     Db.source := Some source |}.

(** The parser [ingest_job] picks for the detected source. *)
Definition parse_posting (detected_source html : string) : result Parsed :=
  if String.eqb detected_source "linkedin" then parse_linkedin_posting html
  else if String.eqb detected_source "indeed" then parse_indeed_posting html
  else parse_generic_posting html.

(** [ingester.ingest_job]: the outcome and the database it leaves.  On
    success the outcome is the inserted row, of which the returned dict is
    a projection. *)
Definition ingest_job (db : store) (job_url source : string)
  : result JobApplication * store :=
  if negb (url_is_valid job_url) then (Raise ValueError, db)
  else
    (* Idempotency check *)
    match query_by_url db job_url with
    | Some existing =>
        match date_found existing with
        | Some d => (Raise (DuplicateJobError (id existing) (isoformat d)), db)
        | None => (Raise AttributeError, db)
        end
    | None =>
        (* Fetch HTML *)
        match fetch_html job_url with
        | Raise e => (Raise e, db)
        | Ok html =>
            (* Parse *)
            match detect_job_source job_url with
            | Raise e => (Raise e, db)
            | Ok detected_source =>
                match parse_posting detected_source html with
                | Raise _ =>
                    (* Store raw HTML anyway *)
                    match add_commit db (parse_failed_row job_url html source) with
                    | Ok db' => (Raise ParseError, db')
                    | Raise e' => (Raise e', db)
                    end
                | Ok parsed =>
                    if Py.falsy (title parsed) || Py.falsy (company parsed)
                    then (Raise ParseError, db)
                    else
                      (* Insert *)
                      let job := parsed_row job_url html source parsed in
                      match add_commit db job with
                      | Ok db' => (Ok job, db')
                      | Raise e => (Raise e, db)
                      end
                end
            end
        end
    end.

(** The [/ingest] route of [src/ingester/main.py]: the response body
    carries the new [job_id]; an exception becomes an HTTP status. *)
Definition ingest (db : store) (job_url source : string)
  : result string * store :=
  match ingest_job db job_url source with
  | (Ok job, db') => (Ok (id job), db')
  | (Raise e, db') =>
      (Raise (HTTPException
                match e with
                | ValueError => 400
                | DuplicateJobError _ _ => 409
                | ParseError => 400
                | _ => 500
                end), db')
  end.

End Ingest.

End Ingester.

(* ================================================================== *)
(** * Wake-on-LAN ([src/matchers/reasoning/wol.py]) *)

Module Wol.

Local Open Scope string_scope.
Local Open Scope list_scope.

(** What a call does to the outside world, in order. *)
Inductive event : Type :=
| Probe (host : option string) (port : Z) (up : bool)
    (* is_reachable: one HTTP GET, and whether it got an answer *)
| SendTo (payload : list byte) (address : string) (port : Z)
    (* a datagram sent from a UDP socket with SO_BROADCAST set *)
| LogWarning (message : string)
| Sleep (seconds : Z)
| Inc (counter : string).

Definition hex_value (c : ascii) : option N :=
  let n := N_of_ascii c in
  if ((48 <=? n) && (n <=? 57))%N then Some (n - 48)%N
  else if ((97 <=? n) && (n <=? 102))%N then Some (n - 87)%N
  else if ((65 <=? n) && (n <=? 70))%N then Some (n - 55)%N
  else None.

(** ASCII whitespace: space, and tab to carriage return. *)
Definition is_space (c : ascii) : bool :=
  let n := N_of_ascii c in
  ((n =? 32) || ((9 <=? n) && (n <=? 13)))%N.

(** [bytes.fromhex]: two hexadecimal digits per byte, whitespace allowed
    between the bytes, anything else is a [ValueError]. *)
Fixpoint fromhex (s : string) : result (list byte) :=
  match s with
  | EmptyString => Ok []
  | String c s1 =>
      if is_space c then fromhex s1
      else
        match hex_value c, s1 with
        | Some top, String d s2 =>
            match hex_value d with
            | Some bot =>
                bind (fromhex s2) (fun rest =>
                  Ok (byte_of_ascii (ascii_of_N (16 * top + bot)%N) :: rest))
            | None => Raise ValueError
            end
        | _, _ => Raise ValueError
        end
  end.

(** The packet [send_magic_packet] builds, before any socket is opened. *)
Definition magic_packet (mac_address : string) : result (list byte) :=
  let mac := Py.remove_char "-" (Py.remove_char ":" mac_address) in
  if negb (Nat.eqb (String.length mac) 12) then Raise ValueError
  else
    bind (fromhex mac) (fun raw =>
      Ok (repeat xff 6 ++ List.concat (repeat raw 16))).

Section Wake.

(** [sendto k payload]: whether opening the socket and sending on it
    raises, at the [k]-th wake attempt of the call. *)
Variable sendto : nat -> list byte -> result unit.
(** [reachable k host port]: whether the [k]-th probe of the call gets an
    answer; probe 0 is the one made before any wake. *)
Variable reachable : nat -> option string -> Z -> bool.

(** [send_magic_packet], at wake attempt [k]. *)
Definition send_magic_packet (k : nat) (mac_address : string)
  : result unit * list event :=
  match magic_packet mac_address with
  | Raise e => (Raise e, [])
  | Ok packet =>
      match sendto k packet with
      | Ok _ => (Ok tt, [SendTo packet "<broadcast>" 9])
      | Raise e => (Raise e, [])
      end
  end.

(** [is_reachable], as probe number [k]. *)
Definition is_reachable (k : nat) (host : option string) (port : Z)
  : bool * list event :=
  let up := reachable k host port in (up, [Probe host port up]).

(** [time.sleep], which refuses a negative duration. *)
Definition sleep (seconds : Z) : result unit * list event :=
  if (seconds <? 0)%Z then (Raise ValueError, [])
  else (Ok tt, [Sleep seconds]).

(** The [for attempt in range(1, retries + 1)] loop, with [n] iterations
    left and [attempt] the current one. *)
Fixpoint wake_loop (n attempt : nat) (mac_address : string)
    (ollama_host : option string) (ollama_port boot_wait : Z)
  : result bool * list event :=
  match n with
  | O => (Ok false, [Inc "wol_failure"])
  | S n' =>
      let sent :=
        match send_magic_packet attempt mac_address with
        | (Ok _, evs) => evs
        | (Raise _, evs) => evs ++ [LogWarning "Failed to send magic packet"]
        end in
      match sleep boot_wait with
      | (Raise e, evs) => (Raise e, sent ++ evs)
      | (Ok _, slept) =>
          let (up, probed) := is_reachable attempt ollama_host ollama_port in
          if up then (Ok true, sent ++ slept ++ probed ++ [Inc "wol_success"])
          else
            let (r, rest) :=
              wake_loop n' (S attempt) mac_address ollama_host ollama_port
                        boot_wait in
            (r, sent ++ slept ++ probed ++ rest)
      end
  end.

(** [wake_and_wait] *)
Definition wake_and_wait (mac_address : string) (ollama_host : option string)
    (ollama_port retries boot_wait : Z) : result bool * list event :=
  let (up, probed) := is_reachable 0 ollama_host ollama_port in
  if up then (Ok true, probed)
  else
    let (r, rest) :=
      wake_loop (Z.to_nat retries) 1 mac_address ollama_host ollama_port
                boot_wait in
    (r, probed ++ rest).

End Wake.

End Wol.

(* ================================================================== *)
(** * Cosine matcher ([src/matchers/cosine]) *)

Module Cosine.

Import Db.
Local Open Scope string_scope.
Local Open Scope list_scope.

Record MatchResult : Type := {
  job_id : string;
  cosine_match_score : float
}.

Record MatchResponse : Type := {
  results : list MatchResult;
  processed : nat;
  failed : nat
}.

(** The loop state: the database, [results] and [failed]. *)
Definition acc : Type := (store * list MatchResult * nat)%type.

Section Match.

(** The sentence-transformer model: the embedding of the narrative, the
    embedding computed in the [k]-th iteration of the loop, and the
    similarity of two embeddings.  Each call can raise. *)
Variable Embedding : Type.
Variable embed_narrative : string -> result Embedding.
Variable embed : nat -> string -> result Embedding.
Variable cosine_similarity : Embedding -> Embedding -> result float.

(** The body of [for job_id in job_ids], in iteration [k]. *)
Definition match_one (narrative_embedding : Embedding) (k : nat)
    (job_id : string) (a : acc) : acc :=
  let '(db, results, failed) := a in
  match query_by_id db job_id with
  | None => (db, results, S failed)
  | Some job =>
      if Py.falsy (job_description job) then (db, results, S failed)
      else
        match
          bind (embed k (Py.or_empty (job_description job)))
               (fun job_embedding =>
                  cosine_similarity narrative_embedding job_embedding)
        with
        | Ok score =>
            (commit_row db (set_cosine_match_score (Some score) job),
             results ++ [{| job_id := job_id;
                            cosine_match_score := PyFloat.round4 score |}],
             failed)
        | Raise _ => (db, results, S failed)   (* except Exception *)
        end
  end.

Fixpoint match_loop (narrative_embedding : Embedding) (k : nat)
    (job_ids : list string) (a : acc) : acc :=
  match job_ids with
  | [] => a
  | job_id :: rest =>
      match_loop narrative_embedding (S k) rest
                 (match_one narrative_embedding k job_id a)
  end.

(** [cosine.matcher.match_jobs] *)
Definition match_jobs (db : store) (job_ids : list string)
  : result (list MatchResult * nat) * store :=
  match query_asset db "narrative" with
  | None => (Raise RuntimeError, db)
  | Some narrative_asset =>
      match embed_narrative (content narrative_asset) with
      | Raise e => (Raise e, db)
      | Ok narrative_embedding =>
          let '(db', results, failed) :=
            match_loop narrative_embedding 0 job_ids (db, [], 0) in
          (Ok (results, failed), db')
      end
  end.

(** The [/match] route of [src/matchers/cosine/main.py]. *)
Definition match_ (db : store) (job_ids : list string)
  : result MatchResponse * store :=
  match job_ids with
  | [] => (Raise (HTTPException 400), db)
  | _ :: _ =>
      match match_jobs db job_ids with
      | (Ok (results, failed), db') =>
          (Ok {| results := results;
                 processed := List.length results;
                 failed := failed |}, db')
      | (Raise _, db') => (Raise (HTTPException 500), db')
      end
  end.

End Match.

End Cosine.

(* ================================================================== *)
(** * Reasoning matcher ([src/matchers/reasoning]) *)

Module Reasoning.

Import Db.
Local Open Scope string_scope.
Local Open Scope list_scope.

Definition MIN_COSINE_SCORE : float := 0.6%float.

(** The settings of [src/config.py] this stage reads. *)
Record config : Type := {
  GAMING_PC_MAC_ADDRESS : option string;
  OLLAMA_BASE_URL : string;
  OLLAMA_MODEL : string
}.

(** What [parse_reasoning_response] returns. *)
Record Reasoned : Type := {
  fit_assessment : string;
  top_3_reasons : list string;
  confidence : float;
  concerns : string
}.

Record Assets : Type := {
  contact_info : string;
  career_goals : string;
  employment_history : string;
  projects_summary : string;
  tech_stack : string
}.

Record ReasonResult : Type := {
  job_id : string;
  reasoning_match_score : float;
  reasoning_explanation : string
}.

Record ReasonResponse : Type := {
  results : list ReasonResult;
  processed : nat;
  failed : nat
}.

Definition acc : Type := (store * list ReasonResult * nat)%type.

Definition _get_asset (db : store) (asset_type : string) : string :=
  match query_asset db asset_type with
  | Some asset => content asset
  | None => ""
  end.

(** Load professional assets once for the batch. *)
Definition load_assets (db : store) : Assets :=
  {| contact_info := _get_asset db "contact_info";
     career_goals := _get_asset db "career_goals";
     employment_history := _get_asset db "employment_history";
     projects_summary := _get_asset db "projects_summary";
     tech_stack := _get_asset db "tech_stack" |}.

Definition newline : string := String (ascii_of_nat 10) "".

(** The text stored in [reasoning_explanation]. *)
Definition explanation_of (parsed : Reasoned) : string :=
  (fit_assessment parsed ++ newline ++ newline ++ "Reasons:" ++ newline
   ++ String.concat newline (map (fun r => "- " ++ r) (top_3_reasons parsed))
   ++ (if String.eqb (concerns parsed) "" then ""
       else newline ++ newline ++ "Concerns: " ++ concerns parsed))%string.

(** [(job.cosine_match_score or 0) < MIN_COSINE_SCORE]: the gate. *)
Definition below_gate (cosine : option float) : bool :=
  let c :=
    match cosine with
    | Some c => if PyFloat.truthy c then c else 0%float
    | None => 0%float
    end in
  PrimFloat.ltb c MIN_COSINE_SCORE.

(** [parsed.port or 11434] *)
Definition port_or_default (port : option Z) : Z :=
  match port with
  | Some p => if (p =? 0)%Z then 11434%Z else p
  | None => 11434%Z
  end.

(** The two assignments that record the verdict of the model. *)
Definition reasoned (score : float) (explanation : string)
    (job : JobApplication) : JobApplication :=
  set_reasoning_explanation (Some explanation)
    (set_reasoning_match_score (Some score) job).

Section Match.

Variable cfg : config.
(** The network of the Wake-on-LAN gate (see [Wol]). *)
Variable sendto : nat -> list byte -> result unit.
Variable reachable : nat -> option string -> Z -> bool.
(** [urlparse(url).hostname] and [urlparse(url).port]. *)
Variable urlparse_host_port : string -> result (option string * option Z).
(** [prompt.build_prompt], the text of the prompt. *)
Variable build_prompt : string -> Assets -> string.
(** [ollama_client.generate] in the [k]-th iteration of the loop: the raw
    answer of the model, or the exception of the HTTP call. *)
Variable generate : nat -> string -> string -> string -> result string.
(** [ollama_client.parse_reasoning_response], which never raises. *)
Variable parse_reasoning_response : string -> Reasoned.

(** The body of [for job_id in job_ids], in iteration [k]. *)
Definition match_one (assets : Assets) (k : nat) (job_id : string) (a : acc)
  : acc :=
  let '(db, results, failed) := a in
  match query_by_id db job_id with
  | None => (db, results, S failed)
  | Some job =>
      (* Filter: only run on jobs that passed cosine *)
      if below_gate (Db.cosine_match_score job) then (db, results, failed)
      else if Py.falsy (job_description job) then (db, results, S failed)
      else
        let prompt :=
          build_prompt (Py.or_empty (job_description job)) assets in
        match generate k (OLLAMA_BASE_URL cfg) (OLLAMA_MODEL cfg) prompt with
        | Ok raw_response =>
            let parsed := parse_reasoning_response raw_response in
            let score := confidence parsed in
            let explanation := explanation_of parsed in
            (commit_row db (reasoned score explanation job),
             results ++ [{| job_id := job_id;
                            reasoning_match_score := PyFloat.round4 score;
                            reasoning_explanation := explanation |}],
             failed)
        | Raise _ => (db, results, S failed)   (* except Exception *)
        end
  end.

Fixpoint match_loop (assets : Assets) (k : nat) (job_ids : list string)
    (a : acc) : acc :=
  match job_ids with
  | [] => a
  | job_id :: rest =>
      match_loop assets (S k) rest (match_one assets k job_id a)
  end.

(** Wake the gaming PC once before processing the batch. *)
Definition ensure_awake : result unit :=
  if negb (Py.falsy (GAMING_PC_MAC_ADDRESS cfg)) then
    match urlparse_host_port (OLLAMA_BASE_URL cfg) with
    | Raise e => Raise e
    | Ok (ollama_host, port) =>
        let ollama_port := port_or_default port in
        match
          fst (Wol.wake_and_wait sendto reachable
                 (Py.or_empty (GAMING_PC_MAC_ADDRESS cfg))
                 ollama_host ollama_port 3 30)
        with
        | Raise e => Raise e
        | Ok online => if negb online then Raise RuntimeError else Ok tt
        end
    end
  else Ok tt.

(** [reasoning.matcher.match_jobs] *)
Definition match_jobs (db : store) (job_ids : list string)
  : result (list ReasonResult * nat) * store :=
  match ensure_awake with
  | Raise e => (Raise e, db)
  | Ok _ =>
      let assets := load_assets db in
      let '(db', results, failed) :=
        match_loop assets 0 job_ids (db, [], 0) in
      (Ok (results, failed), db')
  end.

(** The [/reason] route of [src/matchers/reasoning/main.py]. *)
Definition reason (db : store) (job_ids : list string)
  : result ReasonResponse * store :=
  match job_ids with
  | [] => (Raise (HTTPException 400), db)
  | _ :: _ =>
      match match_jobs db job_ids with
      | (Ok (results, failed), db') =>
          (Ok {| results := results;
                 processed := List.length results;
                 failed := failed |}, db')
      | (Raise RuntimeError, db') => (Raise (HTTPException 503), db')
      | (Raise _, db') => (Raise (HTTPException 500), db')
      end
  end.

End Match.

End Reasoning.

(* ================================================================== *)
(** * Score combiner ([src/matchers/combine.py]) *)

Module Combine.

Import Db.
Local Open Scope list_scope.

Definition COSINE_WEIGHT : float := 0.3%float.
Definition REASONING_WEIGHT : float := 0.7%float.

Record CombineResult : Type := {
  job_id : string;
  combined_score : float
}.

Record Summary : Type := {
  updated : nat;
  skipped : nat;
  results : list CombineResult
}.

(** The value stored for a job with cosine score [cosine]: the weighted
    sum when a reasoning score is present, the cosine score otherwise,
    rounded to four digits. *)
Definition combined (cosine : float) (reasoning : option float) : float :=
  PyFloat.round4
    match reasoning with
    | Some reasoning =>
        (COSINE_WEIGHT * cosine + REASONING_WEIGHT * reasoning)%float
    | None => cosine
    end.

(** The loop state: the database, [updated], [skipped] and [results]. *)
Definition acc : Type := (store * nat * nat * list CombineResult)%type.

(** The body of [for job_id in job_ids]. *)
Definition combine_one (job_id : string) (a : acc) : acc :=
  let '(db, updated, skipped, results) := a in
  match query_by_id db job_id with
  | None => (db, updated, S skipped, results)
  | Some job =>
      match cosine_match_score job with
      | None => (db, updated, S skipped, results)
      | Some cosine =>
          let c := combined cosine (reasoning_match_score job) in
          (commit_row db (set_combined_match_score (Some c) job),
           S updated, skipped,
           results ++ [{| job_id := job_id; combined_score := c |}])
      end
  end.

Fixpoint combine_loop (job_ids : list string) (a : acc) : acc :=
  match job_ids with
  | [] => a
  | job_id :: rest => combine_loop rest (combine_one job_id a)
  end.

(** [combine.combine_scores] *)
Definition combine_scores (db : store) (job_ids : list string)
  : Summary * store :=
  let '(db', updated, skipped, results) :=
    combine_loop job_ids (db, 0, 0, []) in
  ({| updated := updated; skipped := skipped; results := results |}, db').

End Combine.

(* ================================================================== *)
(** * Generator ([src/generator]) *)

Module Generator.

Import Db.
Local Open Scope string_scope.
Local Open Scope list_scope.

Record Assets : Type := {
  narrative : string;
  employment_history : string;
  projects_summary : string;
  tech_stack : string;
  writing_style : string;
  contact_info : string
}.

Record GenerateResult : Type := {
  job_id : string;
  status : string
}.

Record GenerateResponse : Type := {
  results : list GenerateResult;
  processed : nat;
  failed : nat
}.

Definition acc : Type := (store * list GenerateResult * nat)%type.

Definition _get_asset (db : store) (asset_type : string) : string :=
  match query_asset db asset_type with
  | Some asset => content asset
  | None => ""
  end.

Definition load_assets (db : store) : Assets :=
  {| narrative := _get_asset db "narrative";
     employment_history := _get_asset db "employment_history";
     projects_summary := _get_asset db "projects_summary";
     tech_stack := _get_asset db "tech_stack";
     writing_style := _get_asset db "writing_style";
     contact_info := _get_asset db "contact_info" |}.

Section Generate.

(** [_parse_contact_name] (JSON) and the two prompt templates of
    [src/generator/prompts.py]. *)
Variable _parse_contact_name : string -> string.
Variable build_cover_letter_prompt : JobApplication -> Assets -> string -> string.
Variable build_cv_variant_prompt : JobApplication -> Assets -> string -> string.
(** [llm_client.generate prompt max_tokens] in the [k]-th iteration of the
    loop: the text of the configured backend, or its exception. *)
Variable generate : nat -> string -> Z -> result string.

(** The three assignments that draft an application. *)
Definition drafted (cover_letter : string) (cv_variant : option string)
    (job : JobApplication) : JobApplication :=
  set_status "drafted"
    (set_cv_variant_generated cv_variant
       (set_cover_letter_draft (Some cover_letter) job)).

(** The body of [for job_id in job_ids], in iteration [k]. *)
Definition generate_one (assets : Assets) (contact_name : string) (k : nat)
    (job_id : string) (a : acc) : acc :=
  let '(db, results, failed) := a in
  match query_by_id db job_id with
  | None => (db, results, S failed)
  | Some job =>
      if Py.falsy (job_description job) then (db, results, S failed)
      else
        (* Cover letter *)
        let cover_letter_prompt :=
          build_cover_letter_prompt job assets contact_name in
        match generate k cover_letter_prompt 800 with
        | Raise _ => (db, results, S failed)
        | Ok cover_letter =>
            if Nat.ltb (String.length cover_letter) 100
            then (db, results, S failed)
            else
              (* CV variant *)
              let cv_prompt :=
                build_cv_variant_prompt job assets contact_name in
              let cv_variant :=
                match generate k cv_prompt 600 with
                | Ok cv => Some cv
                | Raise _ => None   (* Non-fatal *)
                end in
              (commit_row db (drafted cover_letter cv_variant job),
               results ++ [{| job_id := job_id; status := "drafted" |}],
               failed)
        end
  end.

Fixpoint generate_loop (assets : Assets) (contact_name : string) (k : nat)
    (job_ids : list string) (a : acc) : acc :=
  match job_ids with
  | [] => a
  | job_id :: rest =>
      generate_loop assets contact_name (S k) rest
                    (generate_one assets contact_name k job_id a)
  end.

(** [generator.main_logic.generate_applications] *)
Definition generate_applications (db : store) (job_ids : list string)
  : (list GenerateResult * nat) * store :=
  let assets := load_assets db in
  let contact_name := _parse_contact_name (contact_info assets) in
  let '(db', results, failed) :=
    generate_loop assets contact_name 0 job_ids (db, [], 0) in
  ((results, failed), db').

(** The [/generate] route of [src/generator/main.py]. *)
Definition generate_route (db : store) (job_ids : list string)
  : result GenerateResponse * store :=
  match job_ids with
  | [] => (Raise (HTTPException 400), db)
  | _ :: _ =>
      let '((results, failed), db') := generate_applications db job_ids in
      (Ok {| results := results;
             processed := List.length results;
             failed := failed |}, db')
  end.

End Generate.

End Generator.

(* ================================================================== *)
(** * The DAG ([src/airflow_dags/job_snatcher_pipeline.py]) *)

Module Pipeline.

Import Db.
Local Open Scope string_scope.
Local Open Scope list_scope.

(** [_post]: the request reaches the service, and [raise_for_status] turns
    its error status into a [requests.HTTPError]. *)
Definition _post {A : Type} (response : result A * store) : result A * store :=
  match response with
  | (Raise (HTTPException status_code), db) => (Raise (HTTPError status_code), db)
  | _ => response
  end.

(** The default of the Airflow Variable [GENERATE_THRESHOLD]. *)
Definition default_threshold : float := 0.5%float.

Section Tasks.

(** The stage services, as the routes the DAG posts to. *)
Variable ingester : store -> string -> string -> result string * store.
Variable cosine : store -> list string -> result Cosine.MatchResponse * store.
Variable reasoning : store -> list string -> result Reasoning.ReasonResponse * store.
Variable generator : store -> list string -> result Generator.GenerateResponse * store.
Variable curator : store -> list string -> result unit * store.

(** [ingest_task]: the identifiers of the URLs that were ingested; a
    duplicate (409) or any other failure of one URL is logged and the URL
    contributes nothing. *)
Fixpoint ingest_loop (db : store) (job_urls : list string) (job_ids : list string)
  : list string * store :=
  match job_urls with
  | [] => (job_ids, db)
  | url :: rest =>
      match _post (ingester db url "airflow") with
      | (Ok job_id, db') => ingest_loop db' rest (job_ids ++ [job_id])
      | (Raise _, db') => ingest_loop db' rest job_ids
      end
  end.

Definition ingest_task (db : store) (job_urls : list string)
  : list string * store :=
  ingest_loop db job_urls [].

(** [cosine_match_task]: passes the same identifiers downstream. *)
Definition cosine_match_task (db : store) (job_ids : list string)
  : result (list string) * store :=
  match job_ids with
  | [] => (Ok [], db)
  | _ :: _ =>
      match _post (cosine db job_ids) with
      | (Ok _, db') => (Ok job_ids, db')
      | (Raise e, db') => (Raise e, db')
      end
  end.

(** [reasoning_match_task]: a 503 of the service is logged and absorbed,
    any other error fails the task; on both paths that return, the same
    identifiers go downstream. *)
Definition reasoning_match_task (db : store) (job_ids : list string)
  : result (list string) * store :=
  match job_ids with
  | [] => (Ok [], db)
  | _ :: _ =>
      match _post (reasoning db job_ids) with
      | (Ok _, db') => (Ok job_ids, db')
      | (Raise (HTTPError 503), db') => (Ok job_ids, db')
      | (Raise e, db') => (Raise e, db')
      end
  end.

(** [combine_scores_task]: in process; only the identifiers that got a
    combined score go downstream. *)
Definition combine_scores_task (db : store) (job_ids : list string)
  : list string * store :=
  match job_ids with
  | [] => ([], db)
  | _ :: _ =>
      let (result, db') := Combine.combine_scores db job_ids in
      (map Combine.job_id (Combine.results result), db')
  end.

(** The test of the filter in [generate_task]:
    [job and job.combined_match_score is not None and
     job.combined_match_score >= threshold]. *)
Definition qualifies (threshold : float) (db : store) (job_id : string) : bool :=
  match query_by_id db job_id with
  | Some job =>
      match combined_match_score job with
      | Some score => PrimFloat.leb threshold score
      | None => false
      end
  | None => false
  end.

(** The identifiers [generate_task] sends to the generator. *)
Definition qualifying (threshold : float) (db : store) (job_ids : list string)
  : list string :=
  filter (qualifies threshold db) job_ids.

(** [generate_task] *)
Definition generate_task (threshold : float) (db : store) (job_ids : list string)
  : result (list string) * store :=
  match job_ids with
  | [] => (Ok [], db)
  | _ :: _ =>
      match qualifying threshold db job_ids with
      | [] => (Ok [], db)
      | q :: qs =>
          match _post (generator db (q :: qs)) with
          | (Ok result, db') =>
              (Ok (map Generator.job_id
                     (filter (fun r => String.eqb (Generator.status r) "drafted")
                             (Generator.results result))), db')
          | (Raise e, db') => (Raise e, db')
          end
      end
  end.

(** [curator_notify_task]: best effort. *)
Definition curator_notify_task (db : store) (job_ids : list string) : store :=
  match job_ids with
  | [] => db
  | _ :: _ => snd (_post (curator db job_ids))
  end.

(** One run of the DAG,
    [t_ingest >> t_cosine >> t_reasoning >> t_combine >> t_generate >> t_curator]:
    each task takes the identifiers the previous one pushed; a task that
    raises fails the run and nothing downstream of it executes. *)
Definition dag_run (threshold : float) (db : store) (job_urls : list string)
  : result (list string) * store :=
  let (ingested, db1) := ingest_task db job_urls in
  match cosine_match_task db1 ingested with
  | (Raise e, db2) => (Raise e, db2)
  | (Ok matched, db2) =>
      match reasoning_match_task db2 matched with
      | (Raise e, db3) => (Raise e, db3)
      | (Ok reasoned, db3) =>
          let (scored, db4) := combine_scores_task db3 reasoned in
          match generate_task threshold db4 scored with
          | (Raise e, db5) => (Raise e, db5)
          | (Ok drafted, db5) => (Ok drafted, curator_notify_task db5 drafted)
          end
      end
  end.

End Tasks.

End Pipeline.

(* ================================================================== *)
(** * Vocabulary of the statements *)

(** The text of a hardware address. *)
Module MacText.

Local Open Scope string_scope.

Definition hex_digit (n : N) : ascii :=
  if (n <? 10)%N then ascii_of_N (48 + n) else ascii_of_N (87 + n).

(** The two lowercase hexadecimal digits of a byte. *)
Definition hex_of_byte (b : byte) : string :=
  let n := Byte.to_N b in
  String (hex_digit (n / 16)) (String (hex_digit (n mod 16)) "").

(** A hardware address as text: the bytes in hexadecimal, joined by [sep]
    (a colon in ["aa:bb:cc:dd:ee:ff"]). *)
Definition mac_string (sep : string) (raw : list byte) : string :=
  String.concat sep (map hex_of_byte raw).

(** What [send_magic_packet] strips from the address before decoding. *)
Definition clean (s : string) : string :=
  Py.remove_char "-" (Py.remove_char ":" s).

End MacText.

(** The events of a wake-up. *)
Module WakeTrace.

Import Wol.
Local Open Scope string_scope.
Local Open Scope list_scope.

Section Rounds.

Variable sendto : nat -> list byte -> result unit.
Variable reachable : nat -> option string -> Z -> bool.
Variable mac_address : string.
Variable ollama_host : option string.
Variable ollama_port boot_wait : Z.

(** What one iteration of the retry loop does, as attempt [k]: the wake
    signal (or the warning that it could not be sent), the sleep, the
    probe. *)
Definition wake_round (k : nat) : list event :=
  match send_magic_packet sendto k mac_address with
  | (Ok _, evs) => evs
  | (Raise _, evs) => evs ++ [LogWarning "Failed to send magic packet"]
  end
  ++ [Sleep boot_wait; Probe ollama_host ollama_port
                             (reachable k ollama_host ollama_port)].

Definition wol_counter (up : bool) : string :=
  if up then "wol_success" else "wol_failure".

End Rounds.

End WakeTrace.

(** The rows a stage leaves. *)
Module StageRows.

Import Db.
Local Open Scope list_scope.

(** The row of [job_id] during a run of the combiner over a batch: as it
    was, or with the combined score already written. *)
Definition combine_state (job_id : string) (job : JobApplication) (c : float)
    (done : bool) (a : Combine.acc) : Prop :=
  let '(db, _, _, results) := a in
  if done
  then query_by_id db job_id
       = Some (set_combined_match_score (Some c) job)
       /\ In {| Combine.job_id := job_id; Combine.combined_score := c |} results
  else query_by_id db job_id = Some job.

Section Drafted.

Variable _parse_contact_name : string -> string.
Variable build_cv_variant_prompt :
  JobApplication -> Generator.Assets -> string -> string.
Variable llm_generate : nat -> string -> Z -> result string.

(** The row the generator leaves for [job], drafted in iteration [k] with
    the cover letter [cover_letter]. *)
Definition drafted_in (db : store) (k : nat) (cover_letter : string)
    (job : JobApplication) : JobApplication :=
  let assets := Generator.load_assets db in
  let contact_name := _parse_contact_name (Generator.contact_info assets) in
  Generator.drafted cover_letter
    match llm_generate k (build_cv_variant_prompt job assets contact_name) 600
    with
    | Ok cv => Some cv
    | Raise _ => None
    end
    job.

End Drafted.

End StageRows.

(* ================================================================== *)
(** * Sample data *)

Module Sample.

Import Db.
Local Open Scope string_scope.

(** A row as ingestion leaves it, with the given scores. *)
Definition job (i url : string) (description : option string)
    (cosine reasoning combined : option float) : JobApplication :=
  {| id := i;
     job_title := "Engineer";
     company_name := "Acme";
     job_url := url;
     job_posting_html := Some "<html></html>";
     job_description := description;
     required_skills := Some [];
     seniority_level := None;
     employment_type := None;
     location := None;
     salary_range := None;
     date_found := Some 0%Z;
     status := "discovered";
     cosine_match_score := cosine;
     reasoning_match_score := reasoning;
     combined_match_score := combined;
     reasoning_explanation := None;
     cover_letter_draft := None;
     cv_variant_generated := None;
     source := Some "airflow" |}.

Definition db_of (rows : list JobApplication) : store :=
  {| job_applications := rows;
     professional_assets :=
       [ {| asset_type := "narrative"; content := "I build things.";
            is_active := true |} ] |}.

(** A database with no assets and the given jobs. *)
Definition db_of_rows (rows : list JobApplication) : store :=
  {| job_applications := rows; professional_assets := [] |}.

End Sample.

Module SampleWeb.

Local Open Scope string_scope.

(** A [urlparse] for the sample URLs, all on one host. *)
Definition urlparse (url : string) : result (string * string) :=
  Ok ("https", "jobs.example.com").

Definition isoformat (d : Db.datetime) : string :=
  if (d =? 0)%Z then "1970-01-01T00:00:00" else "2026-02-24T08:00:00".

Definition posting : Ingester.Parsed :=
  {| Ingester.title := Some "Engineer";
     Ingester.company := Some "Acme";
     Ingester.description := Some "Build things.";
     Ingester.skills := None;
     Ingester.seniority := None;
     Ingester.employment_type := None;
     Ingester.location := None;
     Ingester.salary := None |}.

Definition empty_db : Db.store :=
  {| Db.job_applications := []; Db.professional_assets := [] |}.

(** [ingest_job] on a web where every page is fetched and parsed. *)
Definition ingest_ok (uuid4 : string) : Db.store -> string -> string
                                        -> result Db.JobApplication * Db.store :=
  Ingester.ingest_job urlparse (fun _ => Ok "<html></html>")
    (fun _ => Ok posting) (fun _ => Ok posting) (fun _ => Ok posting)
    uuid4 0%Z isoformat.

(** ... where no page can be fetched. *)
Definition ingest_offline : Db.store -> string -> string
                            -> result Db.JobApplication * Db.store :=
  Ingester.ingest_job urlparse (fun _ => Raise (HTTPError 404))
    (fun _ => Ok posting) (fun _ => Ok posting) (fun _ => Ok posting)
    "id-1" 0%Z isoformat.

(** ... where the parsers find no title. *)
Definition ingest_untitled : Db.store -> string -> string
                             -> result Db.JobApplication * Db.store :=
  let untitled :=
    {| Ingester.title := None;
       Ingester.company := Some "Acme";
       Ingester.description := Some "Build things.";
       Ingester.skills := None;
       Ingester.seniority := None;
       Ingester.employment_type := None;
       Ingester.location := None;
       Ingester.salary := None |} in
  Ingester.ingest_job urlparse (fun _ => Ok "<html></html>")
    (fun _ => Ok untitled) (fun _ => Ok untitled) (fun _ => Ok untitled)
    "id-1" 0%Z isoformat.

(** ... where the parsers raise. *)
Definition ingest_unparsed (uuid4 : string) : Db.store -> string -> string
                                        -> result Db.JobApplication * Db.store :=
  Ingester.ingest_job urlparse (fun _ => Ok "<html></html>")
    (fun _ => Raise AttributeError) (fun _ => Raise AttributeError)
    (fun _ => Raise AttributeError) uuid4 0%Z isoformat.

End SampleWeb.

Module SampleStages.

Local Open Scope string_scope.

Definition ja := Sample.job "a" "https://a" (Some "Rust") (Some 0.8%float) None None.
Definition jb := Sample.job "b" "https://b" (Some "Go") (Some 0.8%float) None None.
Definition jc := Sample.job "c" "https://c" (Some "Zig") (Some 0.8%float) None None.
Definition db := Sample.db_of [ja; jb; jc].

(** Every call made while the second job is processed raises. *)
Definition embed (k : nat) (text : string) : result nat :=
  if Nat.eqb k 1 then Raise (OtherException "OutOfMemoryError") else Ok k.

Definition cosine_similarity (x y : nat) : result float := Ok 0.75%float.

Definition cfg : Reasoning.config :=
  {| Reasoning.GAMING_PC_MAC_ADDRESS := None;
     Reasoning.OLLAMA_BASE_URL := "http://localhost:11434";
     Reasoning.OLLAMA_MODEL := "neural-chat" |}.

Definition ollama_generate (k : nat) (base_url model prompt : string)
  : result string :=
  if Nat.eqb k 1 then Raise (HTTPError 500) else Ok "{}".

Definition parse_reasoning_response (raw : string) : Reasoning.Reasoned :=
  {| Reasoning.fit_assessment := "good";
     Reasoning.top_3_reasons := [];
     Reasoning.confidence := 0.9%float;
     Reasoning.concerns := "" |}.

(** What the reasoning matcher reports for a job it scored. *)
Definition report (job_id : string) : Reasoning.ReasonResult :=
  {| Reasoning.job_id := job_id;
     Reasoning.reasoning_match_score := 0.9%float;
     Reasoning.reasoning_explanation :=
       Reasoning.explanation_of (parse_reasoning_response "{}") |}.

Definition letter : string := String.concat "" (repeat "Dear Acme, " 10).

Definition llm_generate (k : nat) (prompt : string) (max_tokens : Z)
  : result string :=
  if Nat.eqb k 1 then Raise (HTTPError 500) else Ok letter.

End SampleStages.

(* ================================================================== *)
(** * States of the pipeline, and two sentences of the specification *)

Module Invariant.

Import Db.
Local Open Scope list_scope.

(** The databases the pipeline core can produce: from an empty job table,
    any sequence of ingestions and stage runs, each in any environment
    and over any batch. *)
Inductive pipeline_state : store -> Prop :=
| state_init (assets : list ProfessionalAsset) :
    pipeline_state {| job_applications := []; professional_assets := assets |}
| state_ingest db urlparse fetch_html parse_linkedin parse_indeed
      parse_generic uuid4 utcnow isoformat url source :
    pipeline_state db ->
    pipeline_state
      (snd (Ingester.ingest_job urlparse fetch_html parse_linkedin
              parse_indeed parse_generic uuid4 utcnow isoformat db url source))
| state_cosine db (Embedding : Type) embed_narrative embed cosine_similarity
      job_ids :
    pipeline_state db ->
    pipeline_state
      (snd (Cosine.match_jobs Embedding embed_narrative embed
              cosine_similarity db job_ids))
| state_reasoning db cfg sendto reachable urlparse_host_port build_prompt
      generate parse_reasoning_response job_ids :
    pipeline_state db ->
    pipeline_state
      (snd (Reasoning.match_jobs cfg sendto reachable urlparse_host_port
              build_prompt generate parse_reasoning_response db job_ids))
| state_combine db job_ids :
    pipeline_state db ->
    pipeline_state (snd (Combine.combine_scores db job_ids))
| state_generate db parse_contact_name build_cover_letter_prompt
      build_cv_variant_prompt generate job_ids :
    pipeline_state db ->
    pipeline_state
      (snd (Generator.generate_applications parse_contact_name
              build_cover_letter_prompt build_cv_variant_prompt generate
              db job_ids)).

(** A row whose combined score is defined has a cosine score. *)
Definition row_consistent (j : JobApplication) : Prop :=
  combined_match_score j <> None -> cosine_match_score j <> None.

Definition scores_consistent (db : store) : Prop :=
  forall j, In j (job_applications db) -> row_consistent j.

(** The invariant as the specification words it: in every state, on every
    row, the combined score is defined if and only if the cosine score
    is. *)
Definition scores_defined_together : Prop :=
  forall db, pipeline_state db ->
  forall j, In j (job_applications db) ->
    (combined_match_score j <> None <-> cosine_match_score j <> None).

(** The state after one posting was ingested and scored by the cosine
    matcher. *)
Definition after_cosine : store :=
  let db0 := Sample.db_of [] in
  let db1 := snd (SampleWeb.ingest_ok "id-1" db0 "https://jobs.example.com/1"
                                      "airflow") in
  snd (Cosine.match_jobs nat (fun _ => Ok 0) (fun _ _ => Ok 0)
         (fun _ _ => Ok 0.75%float) db1 ["id-1"%string]).

End Invariant.

(** The ingestion contract as the specification words it: every valid URL
    that has no record yet is admitted, one record with status
    [discovered] is created and returned. *)
Definition admits_every_valid_url : Prop :=
  forall urlparse fetch_html parse_linkedin parse_indeed parse_generic
         uuid4 utcnow isoformat db url source,
    Ingester.url_is_valid urlparse url = true ->
    Db.query_by_url db url = None ->
    exists job,
      Ingester.ingest_job urlparse fetch_html parse_linkedin parse_indeed
                          parse_generic uuid4 utcnow isoformat db url source
      = (Ok job, Db.with_jobs (Db.job_applications db ++ [job]) db)
      /\ Db.status job = "discovered"%string.

(* ================================================================== *)
(** * Views of the job table used by the further properties *)

Module View.

Import Db.
Local Open Scope list_scope.

(** The two scores the combiner reads, for the job read back as [job_id]. *)
Definition scores_of (db : store) (job_id : string)
  : option (option float * option float) :=
  match query_by_id db job_id with
  | Some job => Some (cosine_match_score job, reasoning_match_score job)
  | None => None
  end.

(** What the combiner reports for [job_id], read off a database. *)
Definition combine_result_of (db : store) (job_id : string)
  : list Combine.CombineResult :=
  match scores_of db job_id with
  | Some (Some cosine, reasoning) =>
      [{| Combine.job_id := job_id;
          Combine.combined_score := Combine.combined cosine reasoning |}]
  | _ => []
  end.

(** The job exists and has a cosine score. *)
Definition has_cosine (db : store) (job_id : string) : bool :=
  match scores_of db job_id with
  | Some (Some _, _) => true
  | _ => false
  end.

(** Job [job_id] has been combined: every row that carries the identifier
    is the row read back, and its combined score is the one its scores
    give. *)
Definition settled (db : store) (job_id : string) : Prop :=
  forall job cosine,
    query_by_id db job_id = Some job ->
    cosine_match_score job = Some cosine ->
    combined_match_score job
    = Some (Combine.combined cosine (reasoning_match_score job))
    /\ forall r, In r (job_applications db) -> id r = job_id -> r = job.

(** The job exists and the gate of the reasoning matcher passes it over. *)
Definition gated (db : store) (job_id : string) : bool :=
  match query_by_id db job_id with
  | Some job => Reasoning.below_gate (cosine_match_score job)
  | None => false
  end.

(** Job [job_id] is read back, as a row that satisfies [Q]. *)
Definition stored (Q : JobApplication -> Prop) (db : store) (job_id : string)
  : Prop :=
  exists job, query_by_id db job_id = Some job /\ Q job.

(** A row that has been drafted. *)
Definition is_drafted (j : JobApplication) : Prop :=
  status j = "drafted"%string
  /\ exists cover_letter,
      cover_letter_draft j = Some cover_letter
      /\ 100 <= String.length cover_letter.

(** A row that the reasoning matcher has scored. *)
Definition is_reasoned (j : JobApplication) : Prop :=
  Reasoning.below_gate (cosine_match_score j) = false
  /\ reasoning_match_score j <> None
  /\ reasoning_explanation j <> None.

(** What a run of a stage over a batch keeps true of its loop state: the
    jobs reported so far belong to the batch and are stored with [Q]. *)
Definition reported {R : Type} (job_id_of : R -> string)
    (Q : JobApplication -> Prop) (batch : list string)
    (db : store) (results : list R) : Prop :=
  forall r, In r results -> In (job_id_of r) batch /\ stored Q db (job_id_of r).

End View.

(** How the table changes. *)
Module Writes.

Import Db.
Local Open Scope string_scope.
Local Open Scope list_scope.

(** The row each stage commits, from the row [job] it has read. *)
Definition cosine_write (job job' : JobApplication) : Prop :=
  exists score, job' = set_cosine_match_score (Some score) job.

Definition reasoning_write (job job' : JobApplication) : Prop :=
  exists score explanation,
    Reasoning.below_gate (cosine_match_score job) = false
    /\ job' = Reasoning.reasoned score explanation job.

Definition combine_write (job job' : JobApplication) : Prop :=
  exists cosine,
    cosine_match_score job = Some cosine
    /\ job' = set_combined_match_score
                (Some (Combine.combined cosine (reasoning_match_score job)))
                job.

Definition generator_write (job job' : JobApplication) : Prop :=
  exists cover_letter cv_variant,
    100 <= String.length cover_letter
    /\ job' = Generator.drafted cover_letter cv_variant job.

Definition any_write (job job' : JobApplication) : Prop :=
  cosine_write job job' \/ reasoning_write job job'
  \/ combine_write job job' \/ generator_write job job'.

(** [writes write db db']: [db'] is [db] after a sequence of commits, each
    of a row read by its identifier and changed by [write]. *)
Inductive writes (write : JobApplication -> JobApplication -> Prop)
  : store -> store -> Prop :=
| writes_none (db : store) : writes write db db
| writes_more (db db' : store) (job job' : JobApplication) :
    writes write db db' ->
    query_by_id db' (id job) = Some job ->
    write job job' ->
    writes write db (commit_row db' job').

(** A row as [ingest_job] inserts it. *)
Definition ingested_row (url : string) (r : JobApplication) : Prop :=
  job_url r = url
  /\ status r = "discovered"
  /\ date_found r <> None
  /\ job_title r <> ""
  /\ company_name r <> ""
  /\ job_posting_html r <> None
  /\ cosine_match_score r = None
  /\ reasoning_match_score r = None
  /\ combined_match_score r = None
  /\ reasoning_explanation r = None
  /\ cover_letter_draft r = None
  /\ cv_variant_generated r = None.

(** The tables the pipeline can produce, step by step: an insert of an
    ingested row that the constraints accept, or one commit of a stage. *)
Inductive table_state : store -> Prop :=
| table_init (assets : list ProfessionalAsset) :
    table_state {| job_applications := []; professional_assets := assets |}
| table_insert (db db' : store) (url : string) (r : JobApplication) :
    table_state db ->
    ingested_row url r ->
    add_commit db r = Ok db' ->
    table_state db'
| table_write (db : store) (job job' : JobApplication) :
    table_state db ->
    query_by_id db (id job) = Some job ->
    any_write job job' ->
    table_state (commit_row db job').

(** The columns a stage does not own, as a row with the stage's own
    columns blanked. *)
Definition but_cosine (j : JobApplication) : JobApplication :=
  set_cosine_match_score None j.

Definition but_reasoning (j : JobApplication) : JobApplication :=
  set_reasoning_explanation None (set_reasoning_match_score None j).

Definition but_combined (j : JobApplication) : JobApplication :=
  set_combined_match_score None j.

Definition but_draft (j : JobApplication) : JobApplication :=
  set_status "" (set_cv_variant_generated None (set_cover_letter_draft None j)).

(** The life of a row: discovered and without drafts, or drafted with a
    cover letter of at least 100 characters. *)
Definition lifecycle (j : JobApplication) : Prop :=
  (status j = "discovered"
   /\ cover_letter_draft j = None /\ cv_variant_generated j = None)
  \/ (status j = "drafted"
      /\ exists cover_letter,
          cover_letter_draft j = Some cover_letter
          /\ 100 <= String.length cover_letter).

End Writes.

(** Measures of a wake-up trace, and of the text of an address. *)
Module TraceCount.

Import Wol.
Local Open Scope list_scope.

(** The seconds slept. *)
Fixpoint total_sleep (t : list event) : Z :=
  match t with
  | [] => 0%Z
  | Sleep seconds :: t' => (seconds + total_sleep t')%Z
  | _ :: t' => total_sleep t'
  end.

(** The datagrams sent. *)
Fixpoint datagrams (t : list event) : nat :=
  match t with
  | [] => 0
  | SendTo _ _ _ :: t' => S (datagrams t')
  | _ :: t' => datagrams t'
  end.

(** The probes made. *)
Fixpoint probes (t : list event) : nat :=
  match t with
  | [] => 0
  | Probe _ _ _ :: t' => S (probes t')
  | _ :: t' => probes t'
  end.

(** The whitespace characters of a text. *)
Fixpoint spaces (s : string) : nat :=
  match s with
  | EmptyString => 0
  | String c s' => (if is_space c then 1 else 0) + spaces s'
  end.

End TraceCount.

(* ================================================================== *)
(** * The answer of the reasoning model
      ([src/matchers/reasoning/ollama_client.py]) *)

Module OllamaClient.

Local Open Scope string_scope.
Local Open Scope list_scope.

Definition newline : ascii := ascii_of_nat 10.

(** [str.isspace] on the characters below 256: tab to carriage return,
    the four separators, the space, the next-line control and the
    no-break space. *)
Definition is_whitespace (c : ascii) : bool :=
  let n := nat_of_ascii c in
  (Nat.leb 9 n && Nat.leb n 13) || (Nat.leb 28 n && Nat.leb n 32)
  || Nat.eqb n 133 || Nat.eqb n 160.

Fixpoint lstrip (s : string) : string :=
  match s with
  | EmptyString => EmptyString
  | String c s' => if is_whitespace c then lstrip s' else s
  end.

Fixpoint rstrip (s : string) : string :=
  match s with
  | EmptyString => EmptyString
  | String c s' =>
      match rstrip s' with
      | EmptyString => if is_whitespace c then EmptyString else String c EmptyString
      | t => String c t
      end
  end.

(** [str.strip()], on a text of characters below 256. *)
Definition strip (s : string) : string := rstrip (lstrip s).

(** [s.split('\n')] *)
Fixpoint split_lines (s : string) : list string :=
  match s with
  | EmptyString => [EmptyString]
  | String c s' =>
      if Ascii.eqb c newline then EmptyString :: split_lines s'
      else
        match split_lines s' with
        | line :: lines => String c line :: lines
        | [] => [String c EmptyString]
        end
  end.

(** ['\n'.join(lines)] *)
Definition join_lines (lines : list string) : string :=
  String.concat (String newline EmptyString) lines.

(** [lines[1:-1]] *)
Definition inner (lines : list string) : list string :=
  removelast (tl lines).

(** The text handed to [json.loads]: the answer stripped, and without its
    first and last line when it opens with a code fence. *)
Definition payload (raw : string) : string :=
  let raw := strip raw in
  if String.prefix "```" raw then join_lines (inner (split_lines raw))
  else raw.

(** The safe defaults. *)
Definition parse_error : Reasoning.Reasoned :=
  {| Reasoning.fit_assessment := "Unable to parse response";
     Reasoning.top_3_reasons := [];
     Reasoning.confidence := 0%float;
     Reasoning.concerns := "Parse error" |}.

Section Parse.

(** The body of the [try]: [json.loads] and the reading of the four keys,
    which raises on anything that is not a JSON object with a numeric
    confidence. *)
Variable decode : string -> result Reasoning.Reasoned.

(** [parse_reasoning_response] *)
Definition parse_reasoning_response (raw : string) : Reasoning.Reasoned :=
  match decode (payload raw) with
  | Ok parsed => parsed
  | Raise _ => parse_error
  end.

End Parse.

End OllamaClient.

(* ================================================================== *)
(** * The text generator ([src/llm_client.py]) *)

Module LlmClient.

Local Open Scope string_scope.

(** The settings of [src/config.py] the client reads. *)
Record config : Type := {
  CLAUDE_API_KEY : option string;
  CLAUDE_MODEL : string;
  OLLAMA_BASE_URL : string;
  OLLAMA_MODEL : string;
  LOCAL_OLLAMA_URL : string;
  LOCAL_OLLAMA_MODEL : string;
  GENERATOR_LLM : string
}.

Section Generate.

Variable cfg : config.
(** [client.messages.create(model, max_tokens, temperature, prompt)] of
    the Anthropic client, and the text of its first content block. *)
Variable claude_create : string -> Z -> float -> string -> result string.
(** [requests.post] to [base_url/api/generate] with the model, the prompt
    and [num_predict], and the [response] key of the answer. *)
Variable ollama_post : string -> string -> string -> Z -> result string.

(** [_generate_ollama] *)
Definition _generate_ollama (base_url model prompt : string) (max_tokens : Z)
  : result string :=
  ollama_post base_url model prompt max_tokens.

(** [_key_is_set] *)
Definition _key_is_set : bool :=
  negb (Py.falsy (CLAUDE_API_KEY cfg))
  && negb (String.eqb (Py.or_empty (CLAUDE_API_KEY cfg)) "your-key-here").

(** [generate] *)
Definition generate (prompt : string) (max_tokens : Z) (temperature : float)
  : result string :=
  let local :=
    _generate_ollama (LOCAL_OLLAMA_URL cfg) (LOCAL_OLLAMA_MODEL cfg)
                     prompt max_tokens in
  let backend := GENERATOR_LLM cfg in
  if String.eqb backend "claude" then
    if negb _key_is_set then
      (* falling back to ollama_local *)
      local
    else claude_create (CLAUDE_MODEL cfg) max_tokens temperature prompt
  else if String.eqb backend "ollama_gaming" then
    _generate_ollama (OLLAMA_BASE_URL cfg) (OLLAMA_MODEL cfg) prompt max_tokens
  else local.

End Generate.

End LlmClient.

(** Texts without a line break. *)
Module Lines.

Fixpoint no_newline (s : string) : bool :=
  match s with
  | EmptyString => true
  | String c s' => negb (Ascii.eqb c OllamaClient.newline) && no_newline s'
  end.

(** An answer in a code fence: the opening fence with its language tag,
    the body, the closing fence. *)
Definition fenced (tag body : string) : string :=
  ("```" ++ tag ++ String OllamaClient.newline body
   ++ String OllamaClient.newline "```")%string.

End Lines.

(* ================================================================== *)
(** * Loading the assets ([scripts/load_assets.py]) *)

Module LoadAssets.

Local Open Scope string_scope.
Local Open Scope list_scope.

(** One row of [professional_assets], with the [version] column that only
    this script reads.  The column is nullable. *)
Record Asset : Type := {
  asset_type : string;
  content : string;
  version : option Z;
  is_active : bool
}.

(** [ASSET_FILES], in the order of the dict. *)
Definition ASSET_FILES : list (string * string) :=
  [ ("professional_narrative.md", "narrative");
    ("employment_history.json", "employment_history");
    ("projects_summary.json", "projects_summary");
    ("tech_stack.yaml", "tech_stack");
    ("contact_info.json", "contact_info");
    ("career_goals.md", "career_goals");
    ("writing_style.md", "writing_style") ].

(** The filter [filter_by(asset_type=t, is_active=True)]. *)
Definition is_active_of (t : string) (a : Asset) : bool :=
  String.eqb (asset_type a) t && is_active a.

(** [db.query(ProfessionalAsset).filter_by(...).first()] *)
Definition query_active (session : list Asset) (t : string) : option Asset :=
  find (is_active_of t) session.

Definition set_is_active (v : bool) (a : Asset) : Asset :=
  {| asset_type := asset_type a; content := content a;
     version := version a; is_active := v |}.

(** [existing.is_active = False], on the row the query returned. *)
Fixpoint deactivate (session : list Asset) (t : string) : list Asset :=
  match session with
  | [] => []
  | a :: rest =>
      if is_active_of t a then set_is_active false a :: rest
      else a :: deactivate rest t
  end.

Section Load.

(** [filepath.exists()] and [filepath.read_text(encoding="utf-8")] for a
    file name of the assets directory. *)
Variable file_exists : string -> bool.
Variable read_text : string -> result string.

(** The body of the loop, for one entry of [ASSET_FILES].  The session
    holds the rows as the script sees them: every type is queried once,
    before the script touches a row of that type. *)
Definition load_one (entry : string * string) (session : list Asset)
  : result (list Asset) :=
  let (filename, t) := entry in
  if negb (file_exists filename) then Ok session
  else
    match read_text filename with
    | Raise e => Raise e
    | Ok text =>
        match query_active session t with
        | Some existing =>
            if String.eqb (content existing) text then Ok session
            else
              match version existing with
              | None => Raise TypeError
              | Some v =>
                  Ok (deactivate session t
                      ++ [ {| asset_type := t; content := text;
                              version := Some (v + 1)%Z;
                              is_active := true |} ])
              end
        | None =>
            Ok (session
                ++ [ {| asset_type := t; content := text;
                        version := Some 1%Z; is_active := true |} ])
        end
    end.

Fixpoint load_loop (files : list (string * string)) (session : list Asset)
  : result (list Asset) :=
  match files with
  | [] => Ok session
  | entry :: rest =>
      match load_one entry session with
      | Ok session' => load_loop rest session'
      | Raise e => Raise e
      end
  end.

(** [load_assets]: one commit after the loop, taken to succeed (the
    versions stay within the range of the column); an exception closes
    the session without a commit. *)
Definition load_assets (table : list Asset) : result unit * list Asset :=
  match load_loop ASSET_FILES table with
  | Ok session => (Ok tt, session)
  | Raise e => (Raise e, table)
  end.

End Load.

End LoadAssets.

(** The assets table as the stages read it. *)
Module AssetView.

Import LoadAssets.
Local Open Scope string_scope.
Local Open Scope list_scope.

(** The columns the stages read. *)
Definition row (a : Asset) : Db.ProfessionalAsset :=
  {| Db.asset_type := asset_type a; Db.content := content a;
     Db.is_active := is_active a |}.

Definition as_store (jobs : list Db.JobApplication) (table : list Asset)
  : Db.store :=
  {| Db.job_applications := jobs; Db.professional_assets := map row table |}.

(** The active rows of a type. *)
Definition active (t : string) (table : list Asset) : list Asset :=
  filter (is_active_of t) table.

(** At most one active row per type. *)
Definition one_active_per_type (table : list Asset) : Prop :=
  forall t, List.length (active t table) <= 1.

(** What a row keeps for good: everything but the active flag. *)
Definition history (table : list Asset) : list (string * string * option Z) :=
  map (fun a => (asset_type a, content a, version a)) table.

(** A directory with a narrative and a tech stack. *)
Definition sample_exists (filename : string) : bool :=
  String.eqb filename "professional_narrative.md"
  || String.eqb filename "tech_stack.yaml".

Definition sample_read (filename : string) : result string :=
  if String.eqb filename "professional_narrative.md" then Ok "I build things."
  else if String.eqb filename "tech_stack.yaml" then Ok "rust: 5"
  else Raise OSError.

Definition sample_table : list Asset :=
  [ {| asset_type := "narrative"; content := "I built things.";
       version := Some 1%Z; is_active := true |};
    {| asset_type := "career_goals"; content := "Lead a team.";
       version := Some 3%Z; is_active := true |} ].

End AssetView.

(* ================================================================== *)
(** * Facts about float comparison *)

Module FloatFacts.

Lemma SFcompare_antisym (x y : spec_float) :
  SFcompare y x = option_map CompOpp (SFcompare x y).
Proof.
  destruct x as [sx|sx| |sx mx ex], y as [sy|sy| |sy my ey]; simpl;
    try (destruct sx); try (destruct sy); try reflexivity.
  - rewrite (Z.compare_antisym ey ex).
    destruct (ey ?= ex)%Z; simpl; try reflexivity.
    rewrite (Pos.compare_cont_antisym mx my Eq). reflexivity.
  - rewrite (Z.compare_antisym ey ex).
    destruct (ey ?= ex)%Z; simpl; try reflexivity.
    rewrite (Pos.compare_cont_antisym mx my Eq). reflexivity.
Qed.

(** [x == y] gives [y >= x]. *)
Lemma eqb_leb (x y : float) :
  PrimFloat.eqb x y = true -> PrimFloat.leb y x = true.
Proof.
  rewrite eqb_spec, leb_spec. unfold SFeqb, SFleb.
  rewrite (SFcompare_antisym (Prim2SF x) (Prim2SF y)).
  destruct (SFcompare (Prim2SF x) (Prim2SF y)) as [[| |]|];
    simpl; congruence.
Qed.

(** [x < y] excludes [x >= y]. *)
Lemma ltb_not_leb (x y : float) :
  PrimFloat.ltb x y = true -> PrimFloat.leb y x = false.
Proof.
  rewrite ltb_spec, leb_spec. unfold SFltb, SFleb.
  rewrite (SFcompare_antisym (Prim2SF x) (Prim2SF y)).
  destruct (SFcompare (Prim2SF x) (Prim2SF y)) as [[| |]|];
    simpl; congruence.
Qed.

End FloatFacts.

(* ================================================================== *)
(** * Facts about the job table *)

Module DbFacts.

Import Db.

Lemma query_by_id_id (db : store) (i : string) (j : JobApplication) :
  query_by_id db i = Some j -> id j = i.
Proof.
  unfold query_by_id. intros H.
  apply find_some in H. destruct H as [_ H].
  now apply String.eqb_eq.
Qed.

Lemma query_by_id_In (db : store) (i : string) (j : JobApplication) :
  query_by_id db i = Some j -> In j (job_applications db).
Proof.
  unfold query_by_id. intros H. now apply find_some in H.
Qed.

(** Reading a row back after a commit on the row [j]. *)
Lemma query_commit_row (db : store) (j : JobApplication) (i : string) :
  query_by_id (commit_row db j) i =
  if String.eqb (id j) i
  then match query_by_id db i with Some _ => Some j | None => None end
  else query_by_id db i.
Proof.
  unfold query_by_id, commit_row, with_jobs. simpl.
  induction (job_applications db) as [|r rows IH]; simpl.
  - now destruct (String.eqb (id j) i).
  - destruct (String.eqb (id r) (id j)) eqn:Erj.
    + apply String.eqb_eq in Erj. rewrite Erj.
      destruct (String.eqb (id j) i) eqn:Eji; [reflexivity|].
      rewrite IH. reflexivity.
    + destruct (String.eqb (id r) i) eqn:Eri.
      * apply String.eqb_eq in Eri. subst i.
        rewrite String.eqb_sym, Erj. reflexivity.
      * exact IH.
Qed.

Lemma query_commit_row_same (db : store) (j j0 : JobApplication) :
  query_by_id db (id j) = Some j0 ->
  query_by_id (commit_row db j) (id j) = Some j.
Proof.
  intros H. rewrite query_commit_row, String.eqb_refl, H. reflexivity.
Qed.

Lemma query_commit_row_other (db : store) (j : JobApplication) (i : string) :
  id j <> i -> query_by_id (commit_row db j) i = query_by_id db i.
Proof.
  intros H. rewrite query_commit_row.
  apply String.eqb_neq in H. now rewrite H.
Qed.

Lemma In_commit_row (db : store) (j r : JobApplication) :
  In r (job_applications (commit_row db j)) ->
  r = j \/ In r (job_applications db).
Proof.
  unfold commit_row, with_jobs. simpl. intros H.
  apply in_map_iff in H. destruct H as [r0 [E Hin]].
  destruct (String.eqb (id r0) (id j)); subst; auto.
Qed.

End DbFacts.

(* ================================================================== *)
(** * The generation threshold *)

Section GenerateThreshold.

Import Db Pipeline.

Lemma In_qualifying (threshold : float) (db : store) (job_ids : list string)
    (job_id : string) :
  In job_id (qualifying threshold db job_ids) <->
  In job_id job_ids /\ qualifies threshold db job_id = true.
Proof. unfold qualifying. apply filter_In. Qed.



End GenerateThreshold.

(* ================================================================== *)
(** * The score combiner *)

Section CombineCorrect.

Import Db Combine StageRows.

Lemma combine_one_self (job_id : string) (job : JobApplication)
    (cosine : float) (done : bool) (a : acc) :
  cosine_match_score job = Some cosine ->
  combine_state job_id job (combined cosine (reasoning_match_score job)) done a ->
  combine_state job_id job (combined cosine (reasoning_match_score job)) true
                (combine_one job_id a).
Proof.
  intros Hc. destruct a as [[[db updated] skipped] results].
  unfold combine_state, combine_one.
  destruct done.
  - intros [Hq Hin]. rewrite Hq. simpl. rewrite Hc. simpl. split.
    + apply DbFacts.query_by_id_id in Hq as Hid. simpl in Hid.
      rewrite <- Hid at 1.
      erewrite (DbFacts.query_commit_row_same db
                  (set_combined_match_score _ (set_combined_match_score _ job)));
        [reflexivity|].
      simpl. rewrite Hid. exact Hq.
    + apply in_or_app. now left.
  - intros Hq. rewrite Hq, Hc. split.
    + apply DbFacts.query_by_id_id in Hq as Hid.
      rewrite <- Hid at 1.
      erewrite (DbFacts.query_commit_row_same db
                  (set_combined_match_score _ job)); [reflexivity|].
      simpl. rewrite Hid. exact Hq.
    + apply in_or_app. right. now left.
Qed.

Lemma combine_one_other (i job_id : string) (job : JobApplication)
    (c : float) (done : bool) (a : acc) :
  i <> job_id ->
  combine_state job_id job c done a ->
  combine_state job_id job c done (combine_one i a).
Proof.
  intros Hne. destruct a as [[[db updated] skipped] results].
  unfold combine_state, combine_one.
  destruct (query_by_id db i) as [ji|] eqn:Hi; [|trivial].
  destruct (cosine_match_score ji) as [ci|]; [|trivial].
  assert (Hid : id (set_combined_match_score
                      (Some (combined ci (reasoning_match_score ji))) ji)
                <> job_id).
  { simpl. apply DbFacts.query_by_id_id in Hi. congruence. }
  destruct done.
  - intros [Hq Hin]. split.
    + now rewrite DbFacts.query_commit_row_other.
    + apply in_or_app. now left.
  - intros Hq. now rewrite DbFacts.query_commit_row_other.
Qed.

Lemma combine_loop_state (job_id : string) (job : JobApplication)
    (cosine : float) (job_ids : list string) :
  cosine_match_score job = Some cosine ->
  forall (done : bool) (a : acc),
    combine_state job_id job (combined cosine (reasoning_match_score job)) done a ->
    combine_state job_id job (combined cosine (reasoning_match_score job))
                  (done || existsb (String.eqb job_id) job_ids)
                  (combine_loop job_ids a).
Proof.
  intros Hc. induction job_ids as [|i rest IH]; intros done a Hst; simpl.
  - now rewrite orb_false_r.
  - destruct (String.eqb job_id i) eqn:E.
    + apply String.eqb_eq in E. subst i.
      rewrite orb_true_r.
      apply (IH true). now apply combine_one_self with (done := done).
    + apply String.eqb_neq in E. simpl.
      apply IH. apply combine_one_other; [congruence|assumption].
Qed.

(** The effect of [combine_scores] on one job of the batch that has a
    cosine score. *)
Lemma combine_scores_row (db : store) (job_ids : list string)
    (job_id : string) (job : JobApplication) (cosine : float) :
  In job_id job_ids ->
  query_by_id db job_id = Some job ->
  cosine_match_score job = Some cosine ->
  let c := combined cosine (reasoning_match_score job) in
  query_by_id (snd (combine_scores db job_ids)) job_id
  = Some (set_combined_match_score (Some c) job)
  /\ In {| job_id := job_id; combined_score := c |}
        (results (fst (combine_scores db job_ids))).
Proof.
  intros Hin Hq Hc c.
  pose proof (combine_loop_state job_id job cosine job_ids Hc false
                (db, 0, 0, []) Hq) as H.
  replace (existsb (String.eqb job_id) job_ids) with true in H.
  2:{ symmetry. apply existsb_exists. exists job_id. split; [assumption|].
      apply String.eqb_refl. }
  unfold combine_scores.
  destruct (combine_loop job_ids (db, 0, 0, [])) as [[[db' u] s] r].
  exact H.
Qed.

(** C1. For every job of the batch that has a cosine score, the combiner
    stores and reports [round(0.3 * cosine + 0.7 * reasoning, 4)] when the
    job has a reasoning score, and [round(cosine, 4)] when it has none.
    This holds for all float scores, in particular for those of [0, 1]. *)
Theorem combine_scores_correct (db : store) (job_ids : list string)
    (job_id : string) (job : JobApplication) (cosine : float) :
  In job_id job_ids ->
  query_by_id db job_id = Some job ->
  cosine_match_score job = Some cosine ->
  let summary := fst (combine_scores db job_ids) in
  let db' := snd (combine_scores db job_ids) in
  (forall reasoning c,
      reasoning_match_score job = Some reasoning ->
      c = PyFloat.round4 (0.3 * cosine + 0.7 * reasoning)%float ->
      query_by_id db' job_id = Some (set_combined_match_score (Some c) job)
      /\ In {| job_id := job_id; combined_score := c |} (results summary))
  /\ (forall c,
      reasoning_match_score job = None ->
      c = PyFloat.round4 cosine ->
      query_by_id db' job_id = Some (set_combined_match_score (Some c) job)
      /\ In {| job_id := job_id; combined_score := c |} (results summary)).
Proof.
  intros Hin Hq Hc summary db'.
  pose proof (combine_scores_row db job_ids job_id job cosine Hin Hq Hc) as H.
  split.
  - intros reasoning c Hr ->. rewrite Hr in H. exact H.
  - intros c Hr ->. rewrite Hr in H. exact H.
Qed.

(** The scenario of the specification: cosine 0.8 and reasoning 0.5 give
    0.59; cosine 0.4 without a reasoning score gives 0.4. *)
Lemma combine_scores_correct_witness :
  let a := Sample.job "a" "https://a" None (Some 0.8%float) (Some 0.5%float) None in
  let b := Sample.job "b" "https://b" None (Some 0.4%float) None None in
  let db' := snd (combine_scores (Sample.db_of [a; b]) ["a"; "b"]%string) in
  query_by_id db' "a"
  = Some (set_combined_match_score (Some 0.59%float) a)
  /\ query_by_id db' "b"
     = Some (set_combined_match_score (Some 0.4%float) b).
Proof.
  intros a b db'. split.
  - refine (proj1 (proj1 (combine_scores_correct (Sample.db_of [a; b])
              ["a"; "b"]%string "a"%string a 0.8%float _ _ _)
              0.5%float 0.59%float _ _)).
    + simpl; auto.
    + reflexivity.
    + reflexivity.
    + reflexivity.
    + vm_compute; reflexivity.
  - refine (proj1 (proj2 (combine_scores_correct (Sample.db_of [a; b])
              ["a"; "b"]%string "b"%string b 0.4%float _ _ _)
              0.4%float _ _)).
    + simpl; auto.
    + reflexivity.
    + reflexivity.
    + reflexivity.
    + vm_compute; reflexivity.
Defined.

End CombineCorrect.

(* ================================================================== *)
(** * The magic packet *)

Section MagicPacket.

Import Wol MacText.
Local Open Scope string_scope.

Lemma remove_char_app (c : ascii) (s t : string) :
  Py.remove_char c (s ++ t) = Py.remove_char c s ++ Py.remove_char c t.
Proof.
  induction s as [|d s IH]; simpl; [reflexivity|].
  destruct (Ascii.eqb c d); simpl; now rewrite IH.
Qed.

Lemma clean_app (s t : string) : clean (s ++ t) = clean s ++ clean t.
Proof. unfold clean. now rewrite !remove_char_app. Qed.

Lemma clean_hex_of_byte (b : byte) : clean (hex_of_byte b) = hex_of_byte b.
Proof. destruct b; reflexivity. Qed.

Lemma length_hex_app (b : byte) (s : string) :
  String.length (hex_of_byte b ++ s) = S (S (String.length s)).
Proof. reflexivity. Qed.

Lemma fromhex_hex_app (b : byte) (s : string) :
  fromhex (hex_of_byte b ++ s)
  = bind (fromhex s) (fun rest => Ok (b :: rest)).
Proof. destruct b; reflexivity. Qed.

(** The text of a six-byte address, cleaned, is its twelve digits. *)
Lemma clean_mac_string (sep : string) (b1 b2 b3 b4 b5 b6 : byte) :
  clean sep = "" ->
  clean (mac_string sep [b1; b2; b3; b4; b5; b6])
  = hex_of_byte b1 ++ hex_of_byte b2 ++ hex_of_byte b3 ++ hex_of_byte b4
    ++ hex_of_byte b5 ++ hex_of_byte b6 ++ "".
Proof.
  intros Hsep. unfold mac_string. cbn [map String.concat].
  rewrite !clean_app, !clean_hex_of_byte, !Hsep.
  cbn [append]. destruct b6; reflexivity.
Qed.

Lemma length_magic (raw : list byte) :
  List.length raw = 6%nat ->
  List.length (repeat xff 6 ++ List.concat (repeat raw 16)) = 102%nat.
Proof.
  intros H. rewrite length_app, repeat_length.
  cbn [repeat List.concat]. rewrite !length_app, H. reflexivity.
Qed.

(** C5. For every six-byte hardware address, written in hexadecimal with
    colons, dashes or nothing between the bytes, the packet that
    [send_magic_packet] builds is 102 bytes long: six bytes [0xFF], then
    the address sixteen times; it leaves in one datagram to the broadcast
    address, port 9. *)
Theorem magic_packet_format (sep : string) (raw : list byte)
    (sendto : nat -> list byte -> result unit) (k : nat) :
  List.length raw = 6%nat ->
  clean sep = "" ->
  let packet := (repeat xff 6 ++ List.concat (repeat raw 16))%list in
  magic_packet (mac_string sep raw) = Ok packet
  /\ List.length packet = 102%nat
  /\ (sendto k packet = Ok tt ->
      send_magic_packet sendto k (mac_string sep raw)
      = (Ok tt, [SendTo packet "<broadcast>" 9])).
Proof.
  intros Hlen Hsep packet.
  destruct raw as [|b1 [|b2 [|b3 [|b4 [|b5 [|b6 [|b7 raw]]]]]]];
    try discriminate Hlen.
  assert (Hp : magic_packet (mac_string sep [b1; b2; b3; b4; b5; b6])
               = Ok packet).
  { unfold magic_packet. fold (clean (mac_string sep [b1; b2; b3; b4; b5; b6])).
    rewrite (clean_mac_string sep b1 b2 b3 b4 b5 b6 Hsep).
    rewrite !length_hex_app. cbn [String.length Nat.eqb negb].
    rewrite !fromhex_hex_app. reflexivity. }
  split; [exact Hp|]. split.
  - now apply length_magic.
  - intros Hs. unfold send_magic_packet. rewrite Hp, Hs. reflexivity.
Qed.

(** The address [01:23:45:67:89:ab], with a socket that sends. *)
Lemma magic_packet_format_witness :
  let raw := [x01; x23; x45; x67; x89; xab] in
  magic_packet "01:23:45:67:89:ab"
  = Ok (repeat xff 6 ++ List.concat (repeat raw 16))%list
  /\ send_magic_packet (fun _ _ => Ok tt) 1 "01:23:45:67:89:ab"
     = (Ok tt, [SendTo (repeat xff 6 ++ List.concat (repeat raw 16))%list
                       "<broadcast>" 9]).
Proof.
  intros raw.
  pose proof (magic_packet_format ":" raw (fun _ _ => Ok tt) 1
                eq_refl eq_refl) as [H1 [_ H3]].
  split; [exact H1 | exact (H3 eq_refl)].
Defined.

End MagicPacket.

(* ================================================================== *)
(** * Waking the remote node *)

Section WakeAndWait.

Import Wol.
Local Open Scope string_scope.
Local Open Scope list_scope.

Variable sendto : nat -> list byte -> result unit.
Variable reachable : nat -> option string -> Z -> bool.
Variable mac_address : string.
Variable ollama_host : option string.
Variable ollama_port boot_wait : Z.

Local Abbreviation wake_round :=
  (WakeTrace.wake_round sendto reachable mac_address ollama_host ollama_port
                        boot_wait).
Local Abbreviation wol_counter := WakeTrace.wol_counter.

Lemma wake_loop_rounds :
  (0 <= boot_wait)%Z ->
  forall n a : nat,
  exists (m : nat) (up : bool),
    wake_loop sendto reachable n a mac_address ollama_host ollama_port boot_wait
    = (Ok up, flat_map wake_round (seq a m) ++ [Inc (wol_counter up)])
    /\ m <= n
    /\ (if up
        then 1 <= m
             /\ reachable (a + m - 1) ollama_host ollama_port = true
             /\ forall j, a <= j < a + m - 1 ->
                          reachable j ollama_host ollama_port = false
        else m = n
             /\ forall j, a <= j < a + n ->
                          reachable j ollama_host ollama_port = false).
Proof.
  intros Hbw. induction n as [|n IH]; intros a.
  - exists 0, false. simpl. repeat split; intros; lia.
  - cbn [wake_loop]. unfold sleep.
    replace (boot_wait <? 0)%Z with false by (symmetry; apply Z.ltb_ge; lia).
    unfold is_reachable.
    destruct (reachable a ollama_host ollama_port) eqn:Ha.
    + exists 1, true. cbn [seq flat_map]. unfold WakeTrace.wake_round. rewrite Ha.
      rewrite app_nil_r.
      split.
      { f_equal. rewrite <- !app_assoc. reflexivity. }
      split; [lia|]. split; [lia|]. split.
      { now replace (a + 1 - 1) with a by lia. }
      intros; lia.
    + destruct (IH (S a)) as [m [up [Heq [Hle Hup]]]].
      rewrite Heq. exists (S m), up. cbn [seq flat_map].
      split.
      { f_equal. unfold WakeTrace.wake_round at 2. rewrite Ha.
        rewrite <- !app_assoc. reflexivity. }
      split; [lia|].
      destruct up.
      * destruct Hup as [H1 [H2 H3]]. split; [lia|]. split.
        { now replace (a + S m - 1) with (S a + m - 1) by lia. }
        intros j Hj. destruct (Nat.eq_dec j a) as [->|Hne]; [exact Ha|].
        apply H3. lia.
      * destruct Hup as [H1 H2]. split; [lia|].
        intros j Hj. destruct (Nat.eq_dec j a) as [->|Hne]; [exact Ha|].
        apply H2. lia.
Qed.

(** C4. [wake_and_wait] returns [True] at once, with no wake signal, when
    the first probe succeeds.  Otherwise it runs [n <= retries] rounds of
    wake signal, [boot_wait] sleep and probe, and nothing else but the
    final counter: it returns [True] at the first round whose probe
    succeeds, and [False] exactly when the probes of all [retries] rounds
    fail.  It returns whatever the wake signals did: a signal that could
    not be sent leaves a warning in its round and the call goes on. *)
Theorem wake_and_wait_correct (retries : Z) :
  (reachable 0 ollama_host ollama_port = true ->
   wake_and_wait sendto reachable mac_address ollama_host ollama_port
                 retries boot_wait
   = (Ok true, [Probe ollama_host ollama_port true]))
  /\ (reachable 0 ollama_host ollama_port = false ->
      (0 <= boot_wait)%Z ->
      exists (n : nat) (up : bool),
        wake_and_wait sendto reachable mac_address ollama_host ollama_port
                      retries boot_wait
        = (Ok up,
           Probe ollama_host ollama_port false
           :: flat_map wake_round (seq 1 n) ++ [Inc (wol_counter up)])
        /\ n <= Z.to_nat retries
        /\ (forall j, 1 <= j < n ->
                      reachable j ollama_host ollama_port = false)
        /\ (up = true ->
            1 <= n /\ reachable n ollama_host ollama_port = true)
        /\ (up = false <->
            forall j, 1 <= j <= Z.to_nat retries ->
                      reachable j ollama_host ollama_port = false)
        /\ (forall j e, 1 <= j <= n ->
              fst (send_magic_packet sendto j mac_address) = Raise e ->
              In (LogWarning "Failed to send magic packet") (wake_round j))).
Proof.
  split.
  - intros H0. unfold wake_and_wait, is_reachable. now rewrite H0.
  - intros H0 Hbw. unfold wake_and_wait, is_reachable. rewrite H0.
    destruct (wake_loop_rounds Hbw (Z.to_nat retries) 1)
      as [m [up [Heq [Hle Hup]]]].
    rewrite Heq. exists m, up.
    split; [reflexivity|]. split; [exact Hle|].
    destruct up.
    + destruct Hup as [H1 [H2 H3]].
      replace (1 + m - 1) with m in * by lia.
      split; [intros j Hj; apply H3; lia|].
      split; [intros _; split; assumption|].
      split.
      * split; [discriminate|]. intros Hall.
        rewrite Hall in H2 by lia. discriminate.
      * intros j e Hj Hs. unfold WakeTrace.wake_round.
        destruct (send_magic_packet sendto j mac_address) as [[u|e'] evs];
          [discriminate|].
        apply in_or_app. left. apply in_or_app. right. now left.
    + destruct Hup as [H1 H2]. subst m.
      split; [intros j Hj; apply H2; lia|].
      split; [discriminate|].
      split.
      * split; [|reflexivity]. intros _ j Hj. apply H2. lia.
      * intros j e Hj Hs. unfold WakeTrace.wake_round.
        destruct (send_magic_packet sendto j mac_address) as [[u|e'] evs];
          [discriminate|].
        apply in_or_app. left. apply in_or_app. right. now left.
Qed.

(** When no probe of the call succeeds, [wake_and_wait] returns [False]. *)
Lemma wake_and_wait_never_up (retries : Z) :
  (0 <= boot_wait)%Z ->
  (forall k, k <= Z.to_nat retries ->
             reachable k ollama_host ollama_port = false) ->
  fst (wake_and_wait sendto reachable mac_address ollama_host ollama_port
                     retries boot_wait) = Ok false.
Proof.
  intros Hbw Hall. unfold wake_and_wait, is_reachable.
  rewrite (Hall 0) by lia.
  destruct (wake_loop_rounds Hbw (Z.to_nat retries) 1)
    as [m [up [Heq [Hle Hup]]]].
  rewrite Heq. simpl. destruct up; [|reflexivity].
  destruct Hup as [H1 [H2 _]]. rewrite Hall in H2 by lia. discriminate.
Qed.

End WakeAndWait.

(** A node that answers the second probe after the wake, behind a socket
    that cannot send: two rounds, each with its warning, and [True]. *)
Lemma wake_and_wait_correct_witness :
  let sendto := fun (_ : nat) (_ : list byte) => Raise OSError : result unit in
  let reachable := fun (k : nat) (_ : option string) (_ : Z) => Nat.eqb k 2 in
  exists (n : nat) (up : bool),
    Wol.wake_and_wait sendto reachable "01:23:45:67:89:ab"%string
                      (Some "gaming-pc"%string) 11434 3 30
    = (Ok up,
       Wol.Probe (Some "gaming-pc"%string) 11434 false
       :: flat_map (WakeTrace.wake_round sendto reachable
                      "01:23:45:67:89:ab"%string (Some "gaming-pc"%string)
                      11434 30)
                   (seq 1 n)
          ++ [Wol.Inc (WakeTrace.wol_counter up)])
    /\ n <= 3.
Proof.
  intros sendto reachable.
  destruct (proj2 (wake_and_wait_correct sendto reachable
                     "01:23:45:67:89:ab"%string (Some "gaming-pc"%string)
                     11434 30 3) eq_refl ltac:(lia))
    as [n [up [H1 [H2 _]]]].
  exists n, up. split; [exact H1 | exact H2].
Defined.

(* ================================================================== *)
(** * The reasoning gate *)

Section ReasoningGate.

Import Db Reasoning.
Local Open Scope string_scope.
Local Open Scope list_scope.

Lemma eqb_not_ltb (x y : float) :
  PrimFloat.eqb x y = true -> PrimFloat.ltb x y = false.
Proof.
  rewrite eqb_spec, ltb_spec. unfold SFeqb, SFltb.
  destruct (SFcompare (Prim2SF x) (Prim2SF y)) as [[| |]|]; congruence.
Qed.

(** The [or 0] of the gate changes nothing: a zero is below 0.6 too. *)
Lemma below_gate_Some (c : float) :
  below_gate (Some c) = PrimFloat.ltb c MIN_COSINE_SCORE.
Proof.
  unfold below_gate, PyFloat.truthy.
  destruct (PrimFloat.eqb c PrimFloat.zero) eqn:E; simpl; [|reflexivity].
  rewrite eqb_spec in E. rewrite (ltb_spec c).
  change (Prim2SF PrimFloat.zero) with (S754_zero false) in E.
  unfold SFeqb in E. unfold SFltb.
  destruct (Prim2SF c) as [s|s| |s m e]; simpl in E; try discriminate.
  - reflexivity.
  - destruct s; discriminate.
  - destruct s; discriminate.
Qed.

Variable cfg : config.
Variable sendto : nat -> list byte -> result unit.
Variable reachable : nat -> option string -> Z -> bool.
Variable urlparse_host_port : string -> result (option string * option Z).
Variable build_prompt : string -> Assets -> string.
Variable generate : nat -> string -> string -> string -> result string.
Variable parse_reasoning_response : string -> Reasoned.

Local Abbreviation match_one :=
  (Reasoning.match_one cfg build_prompt generate parse_reasoning_response).
Local Abbreviation match_jobs :=
  (Reasoning.match_jobs cfg sendto reachable urlparse_host_port build_prompt
                        generate parse_reasoning_response).
Local Abbreviation awake :=
  (ensure_awake cfg sendto reachable urlparse_host_port = Ok tt).


End ReasoningGate.


(* ================================================================== *)
(** * The remote node stays unreachable *)

Section RemoteUnavailable.

Import Db.
Local Open Scope string_scope.
Local Open Scope list_scope.

Variable cfg : Reasoning.config.
Variable sendto : nat -> list byte -> result unit.
Variable reachable : nat -> option string -> Z -> bool.
Variable urlparse_host_port : string -> result (option string * option Z).
Variable build_prompt : string -> Reasoning.Assets -> string.
Variable generate : nat -> string -> string -> string -> result string.
Variable parse_reasoning_response : string -> Reasoning.Reasoned.

Local Abbreviation reason_service :=
  (Reasoning.reason cfg sendto reachable urlparse_host_port build_prompt
                    generate parse_reasoning_response).

Variable mac : string.
Variable host : option string.
Variable port : option Z.

Hypothesis mac_configured : Reasoning.GAMING_PC_MAC_ADDRESS cfg = Some mac.
Hypothesis mac_not_empty : mac <> "".
Hypothesis base_url_parsed :
  urlparse_host_port (Reasoning.OLLAMA_BASE_URL cfg) = Ok (host, port).
(** The first probe and the probes of the three retries all fail. *)
Hypothesis never_reachable :
  forall k, k <= 3 -> reachable k host (Reasoning.port_or_default port) = false.

Lemma ensure_awake_unreachable :
  Reasoning.ensure_awake cfg sendto reachable urlparse_host_port
  = Raise RuntimeError.
Proof.
  unfold Reasoning.ensure_awake.
  rewrite mac_configured, base_url_parsed.
  destruct mac as [|c m] eqn:Em; [congruence|]. simpl.
  rewrite (wake_and_wait_never_up sendto reachable (String c m) host
             (Reasoning.port_or_default port) 30 3); [reflexivity|lia|].
  exact never_reachable.
Qed.

Lemma match_jobs_unreachable (db : store) (job_ids : list string) :
  Reasoning.match_jobs cfg sendto reachable urlparse_host_port build_prompt
                       generate parse_reasoning_response db job_ids
  = (Raise RuntimeError, db).
Proof.
  unfold Reasoning.match_jobs. now rewrite ensure_awake_unreachable.
Qed.

(** C2. When no probe of the availability check succeeds, the reasoning
    service answers 503 without touching the database; the orchestrator
    absorbs it and hands the whole batch, unchanged, to the combine stage;
    there, every job of the batch that has a cosine score and no reasoning
    score still has no reasoning score and gets its cosine score, rounded
    to four digits, as its combined score. *)
Theorem remote_unavailable_fallback (db : store) (job_ids : list string) :
  (job_ids <> [] -> reason_service db job_ids = (Raise (HTTPException 503), db))
  /\ Pipeline.reasoning_match_task reason_service db job_ids = (Ok job_ids, db)
  /\ forall job_id job cosine,
      In job_id job_ids ->
      query_by_id db job_id = Some job ->
      cosine_match_score job = Some cosine ->
      reasoning_match_score job = None ->
      let scored := fst (Pipeline.combine_scores_task db job_ids) in
      let db' := snd (Pipeline.combine_scores_task db job_ids) in
      In job_id scored
      /\ exists job',
          query_by_id db' job_id = Some job'
          /\ reasoning_match_score job' = None
          /\ cosine_match_score job' = Some cosine
          /\ combined_match_score job' = Some (PyFloat.round4 cosine).
Proof.
  assert (Hsvc : job_ids <> [] ->
                 reason_service db job_ids = (Raise (HTTPException 503), db)).
  { intros Hne. unfold Reasoning.reason.
    destruct job_ids as [|i rest]; [congruence|].
    now rewrite match_jobs_unreachable. }
  split; [exact Hsvc|]. split.
  - unfold Pipeline.reasoning_match_task.
    destruct job_ids as [|i rest]; [reflexivity|].
    rewrite Hsvc by discriminate. reflexivity.
  - intros job_id job cosine Hin Hq Hc Hr scored db'.
    subst scored db'. unfold Pipeline.combine_scores_task.
    destruct job_ids as [|i rest]; [contradiction|].
    destruct (combine_scores_row db (i :: rest) job_id job cosine Hin Hq Hc)
      as [Hrow Hres].
    destruct (Combine.combine_scores db (i :: rest)) as [summary db'].
    simpl in *. rewrite Hr in *. split.
    + apply in_map_iff. eexists. split; [|exact Hres]. reflexivity.
    + eexists. split; [exact Hrow|]. simpl. auto.
Qed.

End RemoteUnavailable.

(** A batch of two jobs, scored 0.8 and 0.4 by the cosine stage, with a
    gaming PC that never answers. *)
Lemma remote_unavailable_fallback_witness :
  let cfg := {| Reasoning.GAMING_PC_MAC_ADDRESS := Some "01:23:45:67:89:ab"%string;
                Reasoning.OLLAMA_BASE_URL := "http://gaming-pc:11434"%string;
                Reasoning.OLLAMA_MODEL := "neural-chat"%string |} in
  let service :=
    Reasoning.reason cfg (fun _ _ => Ok tt) (fun _ _ _ => false)
      (fun _ => Ok (Some "gaming-pc"%string, Some 11434%Z))
      (fun d _ => d) SampleStages.ollama_generate
      SampleStages.parse_reasoning_response in
  let a := Sample.job "a" "https://a" (Some "Rust"%string) (Some 0.8%float) None None in
  let b := Sample.job "b" "https://b" (Some "Go"%string) (Some 0.4%float) None None in
  let db := Sample.db_of [a; b] in
  let ids := ["a"; "b"]%string in
  service db ids = (Raise (HTTPException 503), db)
  /\ Pipeline.reasoning_match_task service db ids = (Ok ids, db)
  /\ In "a"%string (fst (Pipeline.combine_scores_task db ids))
  /\ exists job',
      Db.query_by_id (snd (Pipeline.combine_scores_task db ids)) "a" = Some job'
      /\ Db.reasoning_match_score job' = None
      /\ Db.cosine_match_score job' = Some 0.8%float
      /\ Db.combined_match_score job' = Some (PyFloat.round4 0.8%float).
Proof.
  intros cfg service a b db ids.
  pose proof (remote_unavailable_fallback cfg (fun _ _ => Ok tt)
                (fun _ _ _ => false)
                (fun _ => Ok (Some "gaming-pc"%string, Some 11434%Z))
                (fun d _ => d) SampleStages.ollama_generate
                SampleStages.parse_reasoning_response
                "01:23:45:67:89:ab"%string (Some "gaming-pc"%string)
                (Some 11434%Z) eq_refl ltac:(discriminate) eq_refl
                (fun _ _ => eq_refl) db ids) as [H1 [H2 H3]].
  split; [apply H1; discriminate|]. split; [exact H2|].
  exact (H3 "a"%string a 0.8%float (or_introl eq_refl) eq_refl eq_refl eq_refl).
Defined.

(* ================================================================== *)
(** * Ingestion *)

Section Ingestion.

Import Db Ingester.
Local Open Scope string_scope.
Local Open Scope list_scope.

Variable urlparse : string -> result (string * string).
Variable isoformat : datetime -> string.

Lemma query_by_url_app (db : store) (row : JobApplication) (url : string) :
  query_by_url db url = None ->
  job_url row = url ->
  query_by_url (with_jobs (job_applications db ++ [row]) db) url = Some row.
Proof.
  unfold query_by_url, with_jobs. simpl. intros Hnone Hurl.
  induction (job_applications db) as [|r rows IH]; simpl in *.
  - rewrite Hurl, String.eqb_refl. reflexivity.
  - destruct (String.eqb (job_url r) url); [discriminate|]. now apply IH.
Qed.

Lemma add_commit_ok (db : store) (row : JobApplication) :
  lengths_ok row = true ->
  query_by_id db (id row) = None ->
  query_by_url db (job_url row) = None ->
  add_commit db row = Ok (with_jobs (job_applications db ++ [row]) db).
Proof.
  intros Hl Hi Hu. unfold add_commit, unique_ok.
  now rewrite Hl, Hi, Hu.
Qed.

(** An admission of a URL that has a record is refused, whatever the web
    and the parsers would answer. *)
Lemma ingest_job_duplicate
    fetch_html parse_linkedin parse_indeed parse_generic uuid4 utcnow
    (db : store) (url source : string) (existing : JobApplication)
    (d : datetime) :
  url_is_valid urlparse url = true ->
  query_by_url db url = Some existing ->
  date_found existing = Some d ->
  ingest_job urlparse fetch_html parse_linkedin parse_indeed parse_generic
             uuid4 utcnow isoformat db url source
  = (Raise (DuplicateJobError (id existing) (isoformat d)), db).
Proof.
  intros Hv Hq Hd. unfold ingest_job. now rewrite Hv, Hq, Hd.
Qed.


(** C3, amended. When the URL is valid and new, its page is fetched and
    parsed with a title and a company, and the database accepts the row,
    [ingest_job] appends exactly one row, with status [discovered], and
    returns it; a second admission of the URL is refused with a
    [DuplicateJobError] that carries the identifier and the first-seen
    date of that row, and the table is left as it was.  The refusal holds
    for every URL that has a dated record. *)
Theorem idempotent_ingestion
    fetch_html parse_linkedin parse_indeed parse_generic uuid4 utcnow
    (db : store) (url source html detected_source : string) (parsed : Parsed) :
  url_is_valid urlparse url = true ->
  query_by_url db url = None ->
  fetch_html url = Ok html ->
  detect_job_source urlparse url = Ok detected_source ->
  parse_posting parse_linkedin parse_indeed parse_generic detected_source html
  = Ok parsed ->
  Py.falsy (title parsed) = false ->
  Py.falsy (company parsed) = false ->
  let row := parsed_row uuid4 utcnow url html source parsed in
  query_by_id db uuid4 = None ->
  lengths_ok row = true ->
  let db' := with_jobs (job_applications db ++ [row]) db in
  ingest_job urlparse fetch_html parse_linkedin parse_indeed parse_generic
             uuid4 utcnow isoformat db url source
  = (Ok row, db')
  /\ status row = "discovered"
  /\ List.length (job_applications db') = S (List.length (job_applications db))
  /\ (forall fetch_html' parse_linkedin' parse_indeed' parse_generic'
             uuid4' utcnow' source',
       ingest_job urlparse fetch_html' parse_linkedin' parse_indeed'
                  parse_generic' uuid4' utcnow' isoformat db' url source'
       = (Raise (DuplicateJobError (id row) (isoformat utcnow)), db'))
  /\ (forall fetch_html' parse_linkedin' parse_indeed' parse_generic'
             uuid4' utcnow' source' db0 existing d,
       query_by_url db0 url = Some existing ->
       date_found existing = Some d ->
       ingest_job urlparse fetch_html' parse_linkedin' parse_indeed'
                  parse_generic' uuid4' utcnow' isoformat db0 url source'
       = (Raise (DuplicateJobError (id existing) (isoformat d)), db0)).
Proof.
  intros Hv Hq Hf Hd Hp Ht Hc row Hid Hlen db'.
  assert (Hadd : add_commit db row = Ok db')
    by (apply add_commit_ok; assumption).
  split.
  - unfold ingest_job. rewrite Hv, Hq, Hf, Hd, Hp, Ht, Hc. simpl.
    fold row. now rewrite Hadd.
  - split; [reflexivity|]. split.
    + unfold db', with_jobs. simpl. rewrite length_app. simpl. lia.
    + split.
      * intros.
        apply ingest_job_duplicate with (existing := row) (d := utcnow);
          [assumption| |reflexivity].
        now apply query_by_url_app.
      * intros. now apply ingest_job_duplicate.
Qed.

End Ingestion.

(** A posting ingested into an empty table, and ingested again. *)
Lemma idempotent_ingestion_witness :
  let url := "https://jobs.example.com/1"%string in
  exists row,
    SampleWeb.ingest_ok "id-1" SampleWeb.empty_db url "manual"
    = (Ok row, Sample.db_of_rows [row])
    /\ SampleWeb.ingest_ok "id-2" (Sample.db_of_rows [row]) url "manual"
       = (Raise (DuplicateJobError "id-1" "1970-01-01T00:00:00"),
          Sample.db_of_rows [row]).
Proof.
  intros url.
  pose proof (idempotent_ingestion SampleWeb.urlparse SampleWeb.isoformat
    (fun _ => Ok "<html></html>"%string)
    (fun _ => Ok SampleWeb.posting) (fun _ => Ok SampleWeb.posting)
    (fun _ => Ok SampleWeb.posting) "id-1"%string 0%Z SampleWeb.empty_db
    url "manual"%string "<html></html>"%string "generic"%string
    SampleWeb.posting
    eq_refl eq_refl eq_refl eq_refl eq_refl eq_refl eq_refl eq_refl eq_refl)
    as [H1 [_ [_ [H4 _]]]].
  eexists. split; [exact H1|].
  exact (H4 (fun _ => Ok "<html></html>"%string)
            (fun _ => Ok SampleWeb.posting) (fun _ => Ok SampleWeb.posting)
            (fun _ => Ok SampleWeb.posting) "id-2"%string 0%Z "manual"%string).
Defined.

(** C3 as stated fails: a valid, new URL whose page cannot be fetched is
    not admitted and no record is created, so the next admission is not
    a duplicate; the same happens when the parser finds no title, and
    when the parser raises a record is created but not returned. *)
Lemma idempotent_ingestion_counterexample :
  let url := "https://jobs.example.com/1"%string in
  Ingester.url_is_valid SampleWeb.urlparse url = true
  /\ Db.query_by_url SampleWeb.empty_db url = None
  /\ SampleWeb.ingest_offline SampleWeb.empty_db url "manual"
     = (Raise (HTTPError 404), SampleWeb.empty_db)
  /\ SampleWeb.ingest_untitled SampleWeb.empty_db url "manual"
     = (Raise ParseError, SampleWeb.empty_db)
  /\ SampleWeb.ingest_unparsed "id-1" SampleWeb.empty_db url "manual"
     = (Raise ParseError,
        Sample.db_of_rows
          [Ingester.parse_failed_row "id-1" 0%Z url "<html></html>" "manual"])
  /\ ~ admits_every_valid_url.
Proof.
  intros url. repeat split.
  intros H.
  destruct (H SampleWeb.urlparse (fun _ => Raise (HTTPError 404))
              (fun _ => Ok SampleWeb.posting) (fun _ => Ok SampleWeb.posting)
              (fun _ => Ok SampleWeb.posting) "id-1"%string 0%Z
              SampleWeb.isoformat SampleWeb.empty_db url "manual"%string
              eq_refl eq_refl) as [job [Hjob _]].
  discriminate Hjob.
Qed.


(* ================================================================== *)
(** * Stage isolation *)

Section StageIsolation.

Import Db.
Local Open Scope string_scope.
Local Open Scope list_scope.

Lemma falsy_Some (d : string) : d <> "" -> Py.falsy (Some d) = false.
Proof. destruct d; [congruence|reflexivity]. Qed.

Lemma NoDup3 (a b c : string) : NoDup [a; b; c] -> a <> b /\ a <> c /\ b <> c.
Proof.
  intros H. inversion H as [|? ? Ha H1]; subst.
  inversion H1 as [|? ? Hb H2]; subst.
  simpl in Ha, Hb. intuition congruence.
Qed.

(** A commit on the row of another job is not seen when reading [i]. *)
Lemma query_after_commit (db : store) (j : JobApplication) (i i' : string) :
  id j = i' -> i' <> i ->
  query_by_id (commit_row db j) i = query_by_id db i.
Proof.
  intros Hid Hne. apply DbFacts.query_commit_row_other. congruence.
Qed.

(** The cosine matcher *)
Variable Embedding : Type.
Variable embed_narrative : string -> result Embedding.
Variable embed : nat -> string -> result Embedding.
Variable cosine_similarity : Embedding -> Embedding -> result float.
(** The reasoning matcher *)
Variable cfg : Reasoning.config.
Variable sendto : nat -> list byte -> result unit.
Variable reachable : nat -> option string -> Z -> bool.
Variable urlparse_host_port : string -> result (option string * option Z).
Variable build_prompt : string -> Reasoning.Assets -> string.
Variable ollama_generate : nat -> string -> string -> string -> result string.
Variable parse_reasoning_response : string -> Reasoning.Reasoned.
(** The generator *)
Variable _parse_contact_name : string -> string.
Variable build_cover_letter_prompt :
  JobApplication -> Generator.Assets -> string -> string.
Variable build_cv_variant_prompt :
  JobApplication -> Generator.Assets -> string -> string.
Variable llm_generate : nat -> string -> Z -> result string.

Local Abbreviation drafted_in :=
  (StageRows.drafted_in _parse_contact_name build_cv_variant_prompt
                        llm_generate).

Ltac other_row i :=
  rewrite (query_after_commit _ _ _ i) by (simpl; assumption).


End StageIsolation.


(* ================================================================== *)
(** * The score invariant *)

Section ScoreInvariant.

Import Db Invariant.
Local Open Scope list_scope.

Lemma consistent_commit (db : store) (j : JobApplication) :
  scores_consistent db -> row_consistent j ->
  scores_consistent (commit_row db j).
Proof.
  intros Hdb Hj r Hr. apply DbFacts.In_commit_row in Hr.
  destruct Hr as [->|Hr]; [exact Hj | now apply Hdb].
Qed.

Lemma consistent_add (db db' : store) (j : JobApplication) :
  scores_consistent db -> combined_match_score j = None ->
  add_commit db j = Ok db' -> scores_consistent db'.
Proof.
  unfold add_commit. intros Hdb Hj Hadd.
  destruct (negb (lengths_ok j)); [discriminate|].
  destruct (negb (unique_ok db j)); [discriminate|].
  injection Hadd as <-. intros r Hr. simpl in Hr.
  apply in_app_or in Hr. destruct Hr as [Hr|[<-|[]]].
  - now apply Hdb.
  - intros H. congruence.
Qed.

Lemma consistent_ingest urlparse fetch_html parse_linkedin parse_indeed
    parse_generic uuid4 utcnow isoformat (db : store) (url source : string) :
  scores_consistent db ->
  scores_consistent
    (snd (Ingester.ingest_job urlparse fetch_html parse_linkedin parse_indeed
            parse_generic uuid4 utcnow isoformat db url source)).
Proof.
  intros Hdb. unfold Ingester.ingest_job.
  destruct (negb (Ingester.url_is_valid urlparse url)); [exact Hdb|].
  destruct (query_by_url db url) as [existing|].
  { destruct (date_found existing); exact Hdb. }
  destruct (fetch_html url) as [html|]; [|exact Hdb].
  destruct (Ingester.detect_job_source urlparse url) as [ds|]; [|exact Hdb].
  destruct (Ingester.parse_posting _ _ _ ds html) as [parsed|].
  - destruct (Py.falsy _ || Py.falsy _); [exact Hdb|].
    destruct (add_commit db _) as [db'|] eqn:Hadd; [|exact Hdb].
    simpl. eapply consistent_add; [exact Hdb| |exact Hadd]. reflexivity.
  - destruct (add_commit db _) as [db'|] eqn:Hadd; [|exact Hdb].
    simpl. eapply consistent_add; [exact Hdb| |exact Hadd]. reflexivity.
Qed.

Lemma consistent_cosine (Embedding : Type) embed_narrative embed
    cosine_similarity (db : store) (job_ids : list string) :
  scores_consistent db ->
  scores_consistent
    (snd (Cosine.match_jobs Embedding embed_narrative embed cosine_similarity
            db job_ids)).
Proof.
  intros Hdb. unfold Cosine.match_jobs.
  destruct (query_asset db "narrative") as [na|]; [|exact Hdb].
  destruct (embed_narrative _) as [ne|]; [|exact Hdb].
  assert (H : forall ids k a,
             scores_consistent (fst (fst a)) ->
             scores_consistent
               (fst (fst (Cosine.match_loop Embedding embed cosine_similarity
                            ne k ids a)))).
  { induction ids as [|i ids IH]; intros k a Ha; [exact Ha|].
    simpl. apply IH. destruct a as [[d r] f]. unfold Cosine.match_one.
    simpl in Ha.
    destruct (query_by_id d i) as [job|]; [|exact Ha].
    destruct (Py.falsy _); [exact Ha|].
    destruct (bind _ _); [|exact Ha].
    simpl. apply consistent_commit; [exact Ha|].
    intros _. simpl. discriminate. }
  specialize (H job_ids 0 (db, [], 0) Hdb).
  destruct (Cosine.match_loop _ _ _ _ _ _ _) as [[d r] f]. exact H.
Qed.

Lemma consistent_reasoning cfg sendto reachable urlparse_host_port
    build_prompt generate parse_reasoning_response
    (db : store) (job_ids : list string) :
  scores_consistent db ->
  scores_consistent
    (snd (Reasoning.match_jobs cfg sendto reachable urlparse_host_port
            build_prompt generate parse_reasoning_response db job_ids)).
Proof.
  intros Hdb. unfold Reasoning.match_jobs.
  destruct (Reasoning.ensure_awake _ _ _ _) as [u|]; [|exact Hdb].
  assert (H : forall ids k a,
             scores_consistent (fst (fst a)) ->
             scores_consistent
               (fst (fst (Reasoning.match_loop cfg build_prompt generate
                            parse_reasoning_response
                            (Reasoning.load_assets db) k ids a)))).
  { induction ids as [|i ids IH]; intros k a Ha; [exact Ha|].
    simpl. apply IH. destruct a as [[d r] f]. unfold Reasoning.match_one.
    simpl in Ha.
    destruct (query_by_id d i) as [job|] eqn:Hq; [|exact Ha].
    destruct (Reasoning.below_gate _); [exact Ha|].
    destruct (Py.falsy _); [exact Ha|].
    destruct (generate _ _ _ _); [|exact Ha].
    simpl. apply consistent_commit; [exact Ha|].
    apply DbFacts.query_by_id_In in Hq. exact (Ha job Hq). }
  specialize (H job_ids 0 (db, [], 0) Hdb).
  destruct (Reasoning.match_loop _ _ _ _ _ _ _ _) as [[d r] f]. exact H.
Qed.

Lemma consistent_combine (db : store) (job_ids : list string) :
  scores_consistent db ->
  scores_consistent (snd (Combine.combine_scores db job_ids)).
Proof.
  intros Hdb. unfold Combine.combine_scores.
  assert (H : forall ids a,
             scores_consistent (fst (fst (fst a))) ->
             scores_consistent (fst (fst (fst (Combine.combine_loop ids a))))).
  { induction ids as [|i ids IH]; intros a Ha; [exact Ha|].
    simpl. apply IH. destruct a as [[[d u] s] r]. unfold Combine.combine_one.
    simpl in Ha.
    destruct (query_by_id d i) as [job|]; [|exact Ha].
    destruct (cosine_match_score job) as [cosine|] eqn:Hc; [|exact Ha].
    simpl. apply consistent_commit; [exact Ha|].
    intros _. simpl. rewrite Hc. discriminate. }
  specialize (H job_ids (db, 0, 0, []) Hdb).
  destruct (Combine.combine_loop _ _) as [[[d u] s] r]. exact H.
Qed.

Lemma consistent_generate parse_contact_name build_cover_letter_prompt
    build_cv_variant_prompt generate (db : store) (job_ids : list string) :
  scores_consistent db ->
  scores_consistent
    (snd (Generator.generate_applications parse_contact_name
            build_cover_letter_prompt build_cv_variant_prompt generate
            db job_ids)).
Proof.
  intros Hdb. unfold Generator.generate_applications.
  assert (H : forall ids k a,
             scores_consistent (fst (fst a)) ->
             scores_consistent
               (fst (fst (Generator.generate_loop build_cover_letter_prompt
                            build_cv_variant_prompt generate
                            (Generator.load_assets db)
                            (parse_contact_name
                               (Generator.contact_info
                                  (Generator.load_assets db)))
                            k ids a)))).
  { induction ids as [|i ids IH]; intros k a Ha; [exact Ha|].
    simpl. apply IH. destruct a as [[d r] f]. unfold Generator.generate_one.
    simpl in Ha.
    destruct (query_by_id d i) as [job|] eqn:Hq; [|exact Ha].
    destruct (Py.falsy _); [exact Ha|].
    destruct (generate k _ 800%Z) as [letter|]; [|exact Ha].
    destruct (Nat.ltb _ _); [exact Ha|].
    simpl. apply consistent_commit; [exact Ha|].
    apply DbFacts.query_by_id_In in Hq. exact (Ha job Hq). }
  specialize (H job_ids 0 (db, [], 0) Hdb).
  destruct (Generator.generate_loop _ _ _ _ _ _ _ _) as [[d r] f]. exact H.
Qed.

Lemma pipeline_state_consistent (db : store) :
  pipeline_state db -> scores_consistent db.
Proof.
  induction 1.
  - intros j [].
  - now apply consistent_ingest.
  - now apply consistent_cosine.
  - now apply consistent_reasoning.
  - now apply consistent_combine.
  - now apply consistent_generate.
Qed.

End ScoreInvariant.

Section ScoresAfterCombine.

Import Db Invariant.
Local Open Scope list_scope.

(** The combiner never creates a row and never changes a cosine score. *)
Lemma combine_loop_keeps_cosine (job_ids : list string) :
  forall (a : Combine.acc) (i : string) (j' : JobApplication),
    query_by_id (fst (fst (fst (Combine.combine_loop job_ids a)))) i = Some j' ->
    exists j, query_by_id (fst (fst (fst a))) i = Some j
              /\ cosine_match_score j = cosine_match_score j'.
Proof.
  induction job_ids as [|i0 ids IH]; intros a i j' Hq.
  - exists j'. split; [exact Hq|reflexivity].
  - simpl in Hq. apply IH in Hq. destruct Hq as [j1 [Hq1 Hc1]].
    destruct a as [[[d u] s] r]. unfold Combine.combine_one in Hq1.
    simpl. destruct (query_by_id d i0) as [job|] eqn:Hq0.
    2:{ simpl in Hq1. eauto. }
    destruct (cosine_match_score job) as [cosine|] eqn:Hc.
    2:{ simpl in Hq1. eauto. }
    simpl in Hq1. rewrite DbFacts.query_commit_row in Hq1. simpl in Hq1.
    pose proof (DbFacts.query_by_id_id _ _ _ Hq0) as Hid.
    destruct (String.eqb (id job) i) eqn:E.
    + apply String.eqb_eq in E.
      assert (Hi : i0 = i) by congruence. rewrite Hi in Hq0.
      rewrite Hq0 in Hq1. injection Hq1 as <-.
      exists job. split; [exact Hq0|]. rewrite <- Hc1. reflexivity.
    + eauto.
Qed.

(** C9, amended. In every state the pipeline can reach, a row whose
    combined score is defined has a cosine score; and on the rows of a
    batch the combiner has just run over, the combined score is defined
    if and only if the cosine score is. *)
Theorem combined_score_needs_cosine :
  (forall db, pipeline_state db ->
   forall j, In j (job_applications db) ->
     combined_match_score j <> None -> cosine_match_score j <> None)
  /\ (forall db job_ids, pipeline_state db ->
      let db' := snd (Combine.combine_scores db job_ids) in
      forall job_id j,
        In job_id job_ids ->
        query_by_id db' job_id = Some j ->
        (combined_match_score j <> None <-> cosine_match_score j <> None)).
Proof.
  split.
  - intros db Hst j Hin. exact (pipeline_state_consistent db Hst j Hin).
  - intros db job_ids Hst db' job_id j Hin Hq. split.
    + apply (pipeline_state_consistent db' (state_combine db job_ids Hst)).
      now apply DbFacts.query_by_id_In in Hq.
    + intros Hc.
      assert (Hk : exists j0, query_by_id db job_id = Some j0
                              /\ cosine_match_score j0 = cosine_match_score j).
      { pose proof (combine_loop_keeps_cosine job_ids (db, 0, 0, []) job_id j)
          as H.
        unfold db', Combine.combine_scores in Hq.
        destruct (Combine.combine_loop job_ids (db, 0, 0, []))
          as [[[d u] s] r].
        exact (H Hq). }
      destruct Hk as [j0 [Hq0 Hc0]].
      destruct (cosine_match_score j0) as [cosine|] eqn:Hcos;
        [|congruence].
      destruct (combine_scores_row db job_ids job_id j0 cosine Hin Hq0 Hcos)
        as [Hrow _].
      fold db' in Hrow. rewrite Hrow in Hq. injection Hq as <-.
      simpl. discriminate.
Qed.

(** After the combiner ran over the posting of [after_cosine], its row has
    both scores. *)
Lemma combined_score_needs_cosine_witness :
  let db := snd (Combine.combine_scores after_cosine ["id-1"%string]) in
  exists j,
    query_by_id db "id-1" = Some j
    /\ combined_match_score j = Some 0.75%float
    /\ cosine_match_score j <> None.
Proof.
  intros db.
  assert (Hst : pipeline_state after_cosine).
  { unfold after_cosine. apply state_cosine.
    unfold SampleWeb.ingest_ok. apply state_ingest. apply state_init. }
  eexists. split; [reflexivity|]. split; [vm_compute; reflexivity|].
  refine (proj1 (proj2 combined_score_needs_cosine after_cosine
                   ["id-1"%string] Hst "id-1"%string _ (or_introl eq_refl)
                   eq_refl) _).
  discriminate.
Defined.

(** C9 as stated fails: after the cosine stage and before the combiner, a
    row has a cosine score and no combined score. *)
Lemma combined_score_counterexample :
  pipeline_state after_cosine
  /\ (exists j, In j (job_applications after_cosine)
                /\ cosine_match_score j = Some 0.75%float
                /\ combined_match_score j = None)
  /\ ~ scores_defined_together.
Proof.
  assert (Hst : pipeline_state after_cosine).
  { unfold after_cosine. apply state_cosine.
    unfold SampleWeb.ingest_ok. apply state_ingest. apply state_init. }
  assert (Hex : exists j, In j (job_applications after_cosine)
                          /\ cosine_match_score j = Some 0.75%float
                          /\ combined_match_score j = None).
  { eexists. split; [left; reflexivity|]. split; reflexivity. }
  split; [exact Hst|]. split; [exact Hex|].
  intros H. destruct Hex as [j [Hin [Hc Hn]]].
  apply (proj2 (H after_cosine Hst j Hin)); [congruence|exact Hn].
Qed.

End ScoresAfterCombine.

(* ================================================================== *)
(** * Further properties: the score combiner *)

Section CombineAccounting.

Import Db Combine View.
Local Open Scope list_scope.

Lemma scores_of_commit_combined (db : store) (job : JobApplication)
    (c : option float) (i x : string) :
  query_by_id db i = Some job ->
  scores_of (commit_row db (set_combined_match_score c job)) x = scores_of db x.
Proof.
  intros Hq. unfold scores_of. rewrite DbFacts.query_commit_row. simpl.
  destruct (String.eqb (id job) x) eqn:E; [|reflexivity].
  apply String.eqb_eq in E. pose proof (DbFacts.query_by_id_id _ _ _ Hq) as Hid.
  assert (Hx : x = i) by congruence. rewrite Hx, Hq. reflexivity.
Qed.

Lemma scores_of_combine_one (i : string) (a : acc) (x : string) :
  scores_of (fst (fst (fst (combine_one i a)))) x
  = scores_of (fst (fst (fst a))) x.
Proof.
  destruct a as [[[d u] s] r]. unfold combine_one. simpl.
  destruct (query_by_id d i) as [job|] eqn:Hq; [|reflexivity].
  destruct (cosine_match_score job); [|reflexivity].
  simpl. now apply scores_of_commit_combined with (i := i).
Qed.

Lemma combine_one_result (db : store) (i : string) (d : store)
    (u s : nat) (r : list CombineResult) :
  scores_of d i = scores_of db i ->
  exists d',
    combine_one i (d, u, s, r)
    = (d', u + List.length (combine_result_of db i),
       s + (1 - List.length (combine_result_of db i)),
       r ++ combine_result_of db i).
Proof.
  intros Hs. unfold combine_one, combine_result_of. rewrite <- Hs.
  unfold scores_of.
  destruct (query_by_id d i) as [job|].
  - destruct (cosine_match_score job) as [c|]; simpl.
    + eexists. repeat f_equal; lia.
    + eexists. rewrite app_nil_r. repeat f_equal; lia.
  - simpl. eexists. rewrite app_nil_r. repeat f_equal; lia.
Qed.

Lemma combine_loop_results (db : store) (job_ids : list string) :
  forall (d : store) (u s : nat) (r : list CombineResult),
    (forall x, scores_of d x = scores_of db x) ->
    exists d' s',
      combine_loop job_ids (d, u, s, r)
      = (d', u + List.length (flat_map (combine_result_of db) job_ids), s',
         r ++ flat_map (combine_result_of db) job_ids)
      /\ u + List.length (flat_map (combine_result_of db) job_ids) + s'
         = u + s + List.length job_ids
      /\ forall x, scores_of d' x = scores_of db x.
Proof.
  induction job_ids as [|i ids IH]; intros d u s r Hs.
  - simpl. exists d, s. rewrite app_nil_r, Nat.add_0_r. auto.
  - cbn [combine_loop].
    destruct (combine_one_result db i d u s r (Hs i)) as [d1 H1].
    assert (Hs1 : forall x, scores_of d1 x = scores_of db x).
    { intros x. rewrite <- Hs.
      pose proof (scores_of_combine_one i (d, u, s, r) x) as H.
      rewrite H1 in H. exact H. }
    rewrite H1.
    destruct (IH d1 (u + List.length (combine_result_of db i))
                 (s + (1 - List.length (combine_result_of db i)))
                 (r ++ combine_result_of db i) Hs1)
      as [d' [s' [Heq [Hcount Hs']]]].
    exists d', s'. cbn [flat_map]. rewrite length_app.
    split; [|split; [|exact Hs']].
    + rewrite Heq. rewrite <- app_assoc.
      replace (u + List.length (combine_result_of db i)
               + List.length (flat_map (combine_result_of db) ids))
        with (u + (List.length (combine_result_of db i)
                   + List.length (flat_map (combine_result_of db) ids)))
        by lia.
      reflexivity.
    + assert (List.length (combine_result_of db i) <= 1).
      { unfold combine_result_of.
        destruct (scores_of db i) as [[[c|] rs]|]; simpl; lia. }
      simpl. lia.
Qed.

(** X1. The combiner reports, in batch order, exactly the jobs of the
    batch that exist and have a cosine score, each with the value its two
    scores give in the database the run starts from; [updated] counts
    them, and [updated + skipped] is the size of the batch.  The combine
    task passes on exactly those identifiers. *)
Theorem combine_scores_accounting (db : store) (job_ids : list string) :
  let summary := fst (combine_scores db job_ids) in
  results summary = flat_map (combine_result_of db) job_ids
  /\ updated summary = List.length (results summary)
  /\ updated summary + skipped summary = List.length job_ids
  /\ fst (Pipeline.combine_scores_task db job_ids)
     = filter (has_cosine db) job_ids.
Proof.
  destruct (combine_loop_results db job_ids db 0 0 [] (fun _ => eq_refl))
    as [d' [s' [Heq [Hcount _]]]].
  assert (Hmap : forall ids,
             map job_id (flat_map (combine_result_of db) ids)
             = filter (has_cosine db) ids).
  { induction ids as [|i ids IH]; [reflexivity|].
    cbn [flat_map filter]. rewrite map_app, IH.
    unfold combine_result_of, has_cosine.
    destruct (scores_of db i) as [[[c|] rs]|]; reflexivity. }
  unfold Pipeline.combine_scores_task, combine_scores. rewrite Heq.
  cbn [fst snd results updated skipped].
  repeat split; try (simpl; lia).
  destruct job_ids as [|i ids]; [reflexivity|].
  cbn [fst Combine.results]. apply Hmap.
Qed.

Lemma commit_row_fixed (db : store) (j : JobApplication) :
  (forall r, In r (job_applications db) -> id r = id j -> r = j) ->
  commit_row db j = db.
Proof.
  intros H. unfold commit_row, with_jobs. destruct db as [rows assets].
  simpl in *. f_equal.
  induction rows as [|r rows IH]; [reflexivity|]. simpl.
  rewrite IH by (intros; apply H; [now right|assumption]).
  destruct (String.eqb (id r) (id j)) eqn:E; [|reflexivity].
  apply String.eqb_eq in E. f_equal. symmetry. apply H; [now left|assumption].
Qed.

Lemma In_commit_row_inv (db : store) (j r : JobApplication) :
  In r (job_applications (commit_row db j)) ->
  (r = j /\ exists r0, In r0 (job_applications db) /\ id r0 = id j)
  \/ (In r (job_applications db) /\ id r <> id j).
Proof.
  unfold commit_row, with_jobs. simpl. intros H.
  apply in_map_iff in H. destruct H as [r0 [E Hin]].
  destruct (String.eqb (id r0) (id j)) eqn:Eid.
  - apply String.eqb_eq in Eid. left. split; [now symmetry|]. eauto.
  - apply String.eqb_neq in Eid. right. subst r. auto.
Qed.

Lemma settled_combine_one_self (i : string) (a : acc) :
  settled (fst (fst (fst (combine_one i a)))) i.
Proof.
  destruct a as [[[d u] s] r]. unfold combine_one.
  destruct (query_by_id d i) as [job|] eqn:Hq.
  2:{ simpl. intros j c Hj. congruence. }
  destruct (cosine_match_score job) as [c|] eqn:Hc.
  2:{ simpl. intros j c Hj Hcj. congruence. }
  cbn [fst]. pose proof (DbFacts.query_by_id_id _ _ _ Hq) as Hid.
  set (j' := set_combined_match_score
               (Some (combined c (reasoning_match_score job))) job).
  assert (Hq' : query_by_id (commit_row d j') i = Some j').
  { pose proof (DbFacts.query_commit_row_same d j' job) as H.
    change (id j') with (id job) in H. rewrite Hid in H. now apply H. }
  intros j c0 Hj Hc0. rewrite Hq' in Hj. injection Hj as <-.
  simpl in Hc0. rewrite Hc in Hc0. injection Hc0 as <-.
  split; [reflexivity|].
  intros r0 Hin Hr0. apply In_commit_row_inv in Hin.
  destruct Hin as [[-> _]|[_ Hne]]; [reflexivity|].
  simpl in Hne. congruence.
Qed.

Lemma settled_combine_one_other (i x : string) (a : acc) :
  i <> x ->
  settled (fst (fst (fst a))) x ->
  settled (fst (fst (fst (combine_one i a)))) x.
Proof.
  intros Hne. destruct a as [[[d u] s] r]. unfold combine_one. cbn [fst].
  destruct (query_by_id d i) as [job|] eqn:Hq; [|trivial].
  destruct (cosine_match_score job) as [c|] eqn:Hc; [|trivial].
  cbn [fst]. pose proof (DbFacts.query_by_id_id _ _ _ Hq) as Hid.
  intros Hst j c0 Hj Hc0.
  rewrite DbFacts.query_commit_row_other in Hj by (simpl; congruence).
  destruct (Hst j c0 Hj Hc0) as [H1 H2]. split; [exact H1|].
  intros r0 Hin Hr0. apply In_commit_row_inv in Hin.
  destruct Hin as [[-> _]|[Hin _]].
  - simpl in Hr0. congruence.
  - now apply H2.
Qed.

Lemma settled_combine_one (i x : string) (a : acc) :
  settled (fst (fst (fst a))) x ->
  settled (fst (fst (fst (combine_one i a)))) x.
Proof.
  destruct (string_dec i x) as [->|Hne].
  - intros _. apply settled_combine_one_self.
  - now apply settled_combine_one_other.
Qed.

Lemma settled_combine_loop (job_ids : list string) :
  forall (a : acc) (x : string),
    settled (fst (fst (fst a))) x \/ In x job_ids ->
    settled (fst (fst (fst (combine_loop job_ids a)))) x.
Proof.
  induction job_ids as [|i ids IH]; intros a x H.
  - destruct H as [H|[]]. exact H.
  - cbn [combine_loop]. apply IH.
    destruct H as [H|[->|H]].
    + left. now apply settled_combine_one.
    + left. apply settled_combine_one_self.
    + now right.
Qed.

Lemma combine_one_settled (i : string) (d : store) (u s : nat)
    (r : list CombineResult) :
  settled d i -> fst (fst (fst (combine_one i (d, u, s, r)))) = d.
Proof.
  intros Hst. unfold combine_one.
  destruct (query_by_id d i) as [job|] eqn:Hq; [|reflexivity].
  destruct (cosine_match_score job) as [c|] eqn:Hc; [|reflexivity].
  cbn [fst]. destruct (Hst job c Hq Hc) as [H1 H2].
  pose proof (DbFacts.query_by_id_id _ _ _ Hq) as Hid.
  apply commit_row_fixed. intros r0 Hin Hr0. simpl in Hr0.
  rewrite (H2 r0 Hin) by congruence.
  destruct job. simpl in *. now rewrite H1.
Qed.

Lemma combine_loop_settled (job_ids : list string) :
  forall (d : store) (u s : nat) (r : list CombineResult),
    (forall x, In x job_ids -> settled d x) ->
    fst (fst (fst (combine_loop job_ids (d, u, s, r)))) = d.
Proof.
  induction job_ids as [|i ids IH]; intros d u s r H; [reflexivity|].
  cbn [combine_loop].
  pose proof (combine_one_settled i d u s r (H i (or_introl eq_refl))) as H1.
  destruct (combine_one i (d, u, s, r)) as [[[d1 u1] s1] r1]. simpl in H1.
  subst d1. apply IH. intros x Hx. apply H. now right.
Qed.

(** X2. Combining is idempotent: a second run of the combiner over the
    same batch leaves the database exactly as the first run left it and
    returns the same summary. *)
Theorem combine_scores_idempotent (db : store) (job_ids : list string) :
  let once := combine_scores db job_ids in
  combine_scores (snd once) job_ids = once.
Proof.
  intros once.
  assert (Hst : forall x, In x job_ids -> settled (snd once) x).
  { intros x Hx. unfold once, combine_scores.
    pose proof (settled_combine_loop job_ids (db, 0, 0, []) x (or_intror Hx))
      as H.
    destruct (combine_loop job_ids (db, 0, 0, [])) as [[[d u] s] r]. exact H. }
  assert (Hsc : forall x, scores_of (snd once) x = scores_of db x).
  { destruct (combine_loop_results db job_ids db 0 0 [] (fun _ => eq_refl))
      as [d' [s' [Heq [_ Hs]]]].
    unfold once, combine_scores. rewrite Heq. exact Hs. }
  destruct (combine_loop_results db job_ids db 0 0 [] (fun _ => eq_refl))
    as [d1 [s1 [Heq1 [Hc1 _]]]].
  destruct (combine_loop_results db job_ids (snd once) 0 0 [] Hsc)
    as [d2 [s2 [Heq2 [Hc2 _]]]].
  pose proof (combine_loop_settled job_ids (snd once) 0 0 [] Hst) as Hd.
  unfold combine_scores at 1. rewrite Heq2 in *. cbn [fst] in Hd. subst d2.
  unfold once, combine_scores. rewrite Heq1. cbn [snd].
  assert (s2 = s1) by lia. subst s2. reflexivity.
Qed.

End CombineAccounting.

(* ================================================================== *)
(** * Further properties: what the stages write *)

Section StageWrites.

Import Db Writes.
Local Open Scope string_scope.
Local Open Scope list_scope.

Lemma writes_one write (db : store) (job job' : JobApplication) :
  query_by_id db (id job) = Some job -> write job job' ->
  writes write db (commit_row db job').
Proof. intros. eapply writes_more; eauto. apply writes_none. Qed.

Lemma writes_trans write (db1 db2 db3 : store) :
  writes write db1 db2 -> writes write db2 db3 -> writes write db1 db3.
Proof.
  intros H12 H23. induction H23.
  - exact H12.
  - eapply writes_more; eauto.
Qed.

Lemma query_self (db : store) (i : string) (job : JobApplication) :
  query_by_id db i = Some job -> query_by_id db (id job) = Some job.
Proof. intros H. now rewrite (DbFacts.query_by_id_id _ _ _ H). Qed.

Lemma cosine_writes (Embedding : Type) embed_narrative embed
    cosine_similarity (db : store) (job_ids : list string) :
  writes cosine_write db
    (snd (Cosine.match_jobs Embedding embed_narrative embed cosine_similarity
            db job_ids)).
Proof.
  unfold Cosine.match_jobs.
  destruct (query_asset db "narrative") as [na|]; [|apply writes_none].
  destruct (embed_narrative _) as [ne|]; [|apply writes_none].
  assert (H : forall ids k a,
             writes cosine_write (fst (fst a))
               (fst (fst (Cosine.match_loop Embedding embed cosine_similarity
                            ne k ids a)))).
  { induction ids as [|i ids IH]; intros k a; [apply writes_none|].
    simpl. eapply writes_trans; [|apply IH].
    destruct a as [[d r] f]. unfold Cosine.match_one. simpl.
    destruct (query_by_id d i) as [job|] eqn:Hq; [|apply writes_none].
    destruct (Py.falsy _); [apply writes_none|].
    destruct (bind _ _) as [score|]; [|apply writes_none].
    simpl. apply writes_one with (job := job).
    - now apply query_self with (i := i).
    - now exists score. }
  specialize (H job_ids 0 (db, [], 0)).
  destruct (Cosine.match_loop _ _ _ _ _ _ _) as [[d r] f]. exact H.
Qed.

Lemma reasoning_writes cfg sendto reachable urlparse_host_port build_prompt
    generate parse_reasoning_response (db : store) (job_ids : list string) :
  writes reasoning_write db
    (snd (Reasoning.match_jobs cfg sendto reachable urlparse_host_port
            build_prompt generate parse_reasoning_response db job_ids)).
Proof.
  unfold Reasoning.match_jobs.
  destruct (Reasoning.ensure_awake _ _ _ _) as [u|]; [|apply writes_none].
  assert (H : forall ids k a,
             writes reasoning_write (fst (fst a))
               (fst (fst (Reasoning.match_loop cfg build_prompt generate
                            parse_reasoning_response
                            (Reasoning.load_assets db) k ids a)))).
  { induction ids as [|i ids IH]; intros k a; [apply writes_none|].
    simpl. eapply writes_trans; [|apply IH].
    destruct a as [[d r] f]. unfold Reasoning.match_one. simpl.
    destruct (query_by_id d i) as [job|] eqn:Hq; [|apply writes_none].
    destruct (Reasoning.below_gate _) eqn:Hg; [apply writes_none|].
    destruct (Py.falsy _); [apply writes_none|].
    destruct (generate _ _ _ _) as [raw|]; [|apply writes_none].
    simpl. apply writes_one with (job := job).
    - now apply query_self with (i := i).
    - eexists _, _. split; [exact Hg|reflexivity]. }
  specialize (H job_ids 0 (db, [], 0)).
  destruct (Reasoning.match_loop _ _ _ _ _ _ _ _) as [[d r] f]. exact H.
Qed.

Lemma combine_writes (db : store) (job_ids : list string) :
  writes combine_write db (snd (Combine.combine_scores db job_ids)).
Proof.
  unfold Combine.combine_scores.
  assert (H : forall ids a,
             writes combine_write (fst (fst (fst a)))
               (fst (fst (fst (Combine.combine_loop ids a))))).
  { induction ids as [|i ids IH]; intros a; [apply writes_none|].
    simpl. eapply writes_trans; [|apply IH].
    destruct a as [[[d u] s] r]. unfold Combine.combine_one. simpl.
    destruct (query_by_id d i) as [job|] eqn:Hq; [|apply writes_none].
    destruct (cosine_match_score job) as [c|] eqn:Hc; [|apply writes_none].
    simpl. apply writes_one with (job := job).
    - now apply query_self with (i := i).
    - exists c. split; [exact Hc|reflexivity]. }
  specialize (H job_ids (db, 0, 0, [])).
  destruct (Combine.combine_loop _ _) as [[[d u] s] r]. exact H.
Qed.

Lemma generator_writes parse_contact_name build_cover_letter_prompt
    build_cv_variant_prompt generate (db : store) (job_ids : list string) :
  writes generator_write db
    (snd (Generator.generate_applications parse_contact_name
            build_cover_letter_prompt build_cv_variant_prompt generate
            db job_ids)).
Proof.
  unfold Generator.generate_applications.
  assert (H : forall ids k a,
             writes generator_write (fst (fst a))
               (fst (fst (Generator.generate_loop build_cover_letter_prompt
                            build_cv_variant_prompt generate
                            (Generator.load_assets db)
                            (parse_contact_name
                               (Generator.contact_info
                                  (Generator.load_assets db)))
                            k ids a)))).
  { induction ids as [|i ids IH]; intros k a; [apply writes_none|].
    simpl. eapply writes_trans; [|apply IH].
    destruct a as [[d r] f]. unfold Generator.generate_one. simpl.
    destruct (query_by_id d i) as [job|] eqn:Hq; [|apply writes_none].
    destruct (Py.falsy _); [apply writes_none|].
    destruct (generate k _ 800%Z) as [letter|]; [|apply writes_none].
    destruct (Nat.ltb _ _) eqn:Hl; [apply writes_none|].
    simpl. apply writes_one with (job := job).
    - now apply query_self with (i := i).
    - eexists _, _. split; [|reflexivity]. now apply Nat.ltb_ge in Hl. }
  specialize (H job_ids 0 (db, [], 0)).
  destruct (Generator.generate_loop _ _ _ _ _ _ _ _) as [[d r] f]. exact H.
Qed.

(** Two rows of a table with unique identifiers that share an identifier
    are one row. *)
Lemma unique_id_row (rows : list JobApplication) (r r' : JobApplication) :
  NoDup (map id rows) -> In r rows -> In r' rows -> id r = id r' -> r = r'.
Proof.
  induction rows as [|x rows IH]; intros Hnd Hr Hr' Hid; [contradiction|].
  simpl in Hnd. inversion Hnd as [|? ? Hx Hnd']; subst.
  destruct Hr as [->|Hr], Hr' as [->|Hr'].
  - reflexivity.
  - exfalso. apply Hx. rewrite Hid. now apply in_map.
  - exfalso. apply Hx. rewrite <- Hid. now apply in_map.
  - now apply IH.
Qed.

(** With unique identifiers, a commit changes no column that the write
    leaves alone. *)
Lemma commit_row_frame (A : Type) (F : JobApplication -> A)
    (db : store) (job job' : JobApplication) :
  NoDup (map id (job_applications db)) ->
  query_by_id db (id job) = Some job ->
  id job' = id job ->
  F job' = F job ->
  map F (job_applications (commit_row db job')) = map F (job_applications db).
Proof.
  intros Hnd Hq Hid HF. unfold commit_row, with_jobs. simpl.
  rewrite map_map. apply map_ext_in. intros r Hr. rewrite Hid.
  destruct (String.eqb (id r) (id job)) eqn:E; [|reflexivity].
  apply String.eqb_eq in E.
  rewrite (unique_id_row _ r job Hnd Hr (DbFacts.query_by_id_In _ _ _ Hq) E).
  exact HF.
Qed.

Lemma writes_frame (A : Type) (F : JobApplication -> A) write
    (db db' : store) :
  (forall job job', write job job' -> id job' = id job /\ F job' = F job) ->
  writes write db db' ->
  NoDup (map id (job_applications db)) ->
  map id (job_applications db') = map id (job_applications db)
  /\ map F (job_applications db') = map F (job_applications db)
  /\ professional_assets db' = professional_assets db.
Proof.
  intros HW H Hnd. induction H as [|db db' job job' H IH Hq Hw].
  - auto.
  - destruct (IH Hnd) as [Hids [HF Ha]].
    destruct (HW job job' Hw) as [Hid HFj].
    assert (Hnd' : NoDup (map id (job_applications db')))
      by now rewrite Hids.
    split; [|split].
    + rewrite <- Hids. now apply commit_row_frame with (job := job).
    + rewrite <- HF. now apply commit_row_frame with (job := job).
    + exact Ha.
Qed.


End StageWrites.


(* ================================================================== *)
(** * Further properties: the table over time *)

Section TableOverTime.

Import Db Writes.
Local Open Scope string_scope.
Local Open Scope list_scope.

Lemma add_commit_inv (db db' : store) (r : JobApplication) :
  add_commit db r = Ok db' ->
  db' = with_jobs (job_applications db ++ [r]) db
  /\ lengths_ok r = true
  /\ query_by_id db (id r) = None
  /\ query_by_url db (job_url r) = None.
Proof.
  unfold add_commit, unique_ok. intros H.
  destruct (lengths_ok r); [|discriminate].
  destruct (query_by_id db (id r)); [discriminate|].
  destruct (query_by_url db (job_url r)); [discriminate|].
  simpl in H. injection H as <-. auto.
Qed.

Lemma falsy_or_empty (s : option string) :
  Py.falsy s = false -> Py.or_empty s <> "".
Proof. destruct s as [[|c s]|]; simpl; congruence. Qed.

Lemma ingest_job_outcome urlparse fetch_html parse_linkedin parse_indeed
    parse_generic uuid4 utcnow isoformat (db : store) (url source : string) :
  let out := Ingester.ingest_job urlparse fetch_html parse_linkedin
               parse_indeed parse_generic uuid4 utcnow isoformat
               db url source in
  professional_assets (snd out) = professional_assets db
  /\ (job_applications (snd out) = job_applications db
      /\ is_ok (fst out) = false
      \/ exists r,
          job_applications (snd out) = job_applications db ++ [r]
          /\ add_commit db r = Ok (snd out)
          /\ ingested_row url r
          /\ id r = uuid4
          /\ Db.source r = Some source
          /\ (fst out = Ok r \/ fst out = Raise ParseError)).
Proof.
  unfold Ingester.ingest_job.
  destruct (negb (Ingester.url_is_valid urlparse url)); [simpl; auto|].
  destruct (query_by_url db url) as [existing|].
  { destruct (date_found existing); simpl; auto. }
  destruct (fetch_html url) as [html|]; [|simpl; auto].
  destruct (Ingester.detect_job_source urlparse url) as [ds|]; [|simpl; auto].
  destruct (Ingester.parse_posting _ _ _ ds html) as [parsed|].
  - destruct (Py.falsy (Ingester.title parsed)) eqn:Ht; [simpl; auto|].
    destruct (Py.falsy (Ingester.company parsed)) eqn:Hc; [simpl; auto|].
    cbn [orb].
    destruct (add_commit db _) as [db'|] eqn:Hadd; [|simpl; auto].
    destruct (add_commit_inv _ _ _ Hadd) as [-> _]. cbn [fst snd].
    split; [reflexivity|]. right. eexists. split; [reflexivity|].
    split; [exact Hadd|].
    split; [|auto].
    unfold ingested_row. simpl.
    repeat split; try discriminate; now apply falsy_or_empty.
  - destruct (add_commit db _) as [db'|] eqn:Hadd; [|simpl; auto].
    destruct (add_commit_inv _ _ _ Hadd) as [-> _]. cbn [fst snd].
    split; [reflexivity|]. right. eexists. split; [reflexivity|].
    split; [exact Hadd|].
    split; [|auto].
    unfold ingested_row. simpl. repeat split; discriminate.
Qed.

(** X4. [ingest_job] never changes or removes a stored row: whatever the
    web, the parsers and the database answer, the table afterwards is the
    table before followed by at most one new row.  A new row carries the
    submitted URL and source and the generated identifier, has status
    [discovered], a date, a title, a company, the fetched HTML, and no
    score or draft; it is returned, unless [ParseError] is raised.  A call
    that returns has added a row. *)
Theorem ingest_job_appends urlparse fetch_html parse_linkedin parse_indeed
    parse_generic uuid4 utcnow isoformat (db : store) (url source : string) :
  let out := Ingester.ingest_job urlparse fetch_html parse_linkedin
               parse_indeed parse_generic uuid4 utcnow isoformat
               db url source in
  professional_assets (snd out) = professional_assets db
  /\ (job_applications (snd out) = job_applications db
      /\ is_ok (fst out) = false
      \/ exists r,
          job_applications (snd out) = job_applications db ++ [r]
          /\ add_commit db r = Ok (snd out)
          /\ ingested_row url r
          /\ id r = uuid4
          /\ Db.source r = Some source
          /\ (fst out = Ok r \/ fst out = Raise ParseError)).
Proof.
  exact (ingest_job_outcome urlparse fetch_html parse_linkedin parse_indeed
           parse_generic uuid4 utcnow isoformat db url source).
Qed.

Lemma table_state_writes write (db db' : store) :
  (forall job job', write job job' -> any_write job job') ->
  writes write db db' -> table_state db -> table_state db'.
Proof.
  intros HW H Hst. induction H; [exact Hst|].
  eapply table_write; eauto.
Qed.

(** Every state of the pipeline is built from accepted inserts of
    ingested rows and single commits of the stages. *)
Lemma pipeline_state_table (db : store) :
  Invariant.pipeline_state db -> table_state db.
Proof.
  induction 1 as [assets|db up fh pl pi pg uu now iso url src Hst IH| | | |].
  - apply table_init.
  - pose proof (ingest_job_outcome up fh pl pi pg uu now iso db url src)
      as [Ha [[Hr _]|[r [_ [Hadd [Hr _]]]]]].
    + destruct (snd _) as [rows assets]. destruct db as [rows0 assets0].
      simpl in *. now subst.
    + eapply table_insert; eauto.
  - eapply table_state_writes; [|apply cosine_writes|assumption].
    unfold any_write. auto.
  - eapply table_state_writes; [|apply reasoning_writes|assumption].
    unfold any_write. auto.
  - eapply table_state_writes; [|apply combine_writes|assumption].
    unfold any_write. auto.
  - eapply table_state_writes; [|apply generator_writes|assumption].
    unfold any_write. auto.
Qed.

Lemma any_write_keys (job job' : JobApplication) :
  any_write job job' -> id job' = id job /\ job_url job' = job_url job.
Proof.
  intros [[s ->]|[[s [e [_ ->]]]|[[c [_ ->]]|[l [cv [_ ->]]]]]];
    split; reflexivity.
Qed.

Lemma query_by_id_None (db : store) (i : string) :
  query_by_id db i = None -> ~ In i (map id (job_applications db)).
Proof.
  unfold query_by_id. intros H Hin. apply in_map_iff in Hin.
  destruct Hin as [r [Hr Hin]].
  apply (find_none _ _ H) in Hin. rewrite Hr, String.eqb_refl in Hin.
  discriminate.
Qed.

Lemma query_by_url_None (db : store) (u : string) :
  query_by_url db u = None -> ~ In u (map job_url (job_applications db)).
Proof.
  unfold query_by_url. intros H Hin. apply in_map_iff in Hin.
  destruct Hin as [r [Hr Hin]].
  apply (find_none _ _ H) in Hin. rewrite Hr, String.eqb_refl in Hin.
  discriminate.
Qed.

Lemma NoDup_snoc (A : Type) (l : list A) (x : A) :
  NoDup l -> ~ In x l -> NoDup (l ++ [x]).
Proof.
  intros Hl Hx. apply NoDup_app; [exact Hl|repeat constructor; auto|].
  intros y Hy [<-|[]]. auto.
Qed.

Lemma table_state_unique (db : store) :
  table_state db ->
  NoDup (map id (job_applications db))
  /\ NoDup (map job_url (job_applications db)).
Proof.
  induction 1 as [assets|db db' url r Hst [IH1 IH2] Hr Hadd
                 |db job job' Hst [IH1 IH2] Hq Hw].
  - split; constructor.
  - destruct (add_commit_inv _ _ _ Hadd) as [-> [_ [Hi Hu]]]. simpl.
    rewrite !map_app. simpl. split.
    + apply NoDup_snoc; [exact IH1|now apply query_by_id_None].
    + apply NoDup_snoc; [exact IH2|now apply query_by_url_None].
  - destruct (any_write_keys _ _ Hw) as [Hid Hurl]. split.
    + now rewrite (commit_row_frame _ id db job job' IH1 Hq Hid Hid).
    + now rewrite (commit_row_frame _ job_url db job job' IH1 Hq Hid Hurl).
Qed.

(** X5. In every state the pipeline can reach, identifiers are unique and
    URLs are unique: there is at most one record per posting, whatever was
    ingested and whichever stages ran. *)
Theorem one_record_per_url (db : store) :
  Invariant.pipeline_state db ->
  NoDup (map id (job_applications db))
  /\ NoDup (map job_url (job_applications db)).
Proof. intros H. apply table_state_unique. now apply pipeline_state_table. Qed.

Lemma table_state_rows (P : JobApplication -> Prop) :
  (forall url r, ingested_row url r -> lengths_ok r = true -> P r) ->
  (forall job job', P job -> any_write job job' -> P job') ->
  forall db, table_state db -> forall j, In j (job_applications db) -> P j.
Proof.
  intros Hin Hwr db H.
  induction H as [assets|db db' url r Hst IH Hr Hadd|db job job' Hst IH Hq Hw];
    intros j Hj.
  - destruct Hj.
  - destruct (add_commit_inv _ _ _ Hadd) as [-> [Hl _]]. simpl in Hj.
    apply in_app_or in Hj. destruct Hj as [Hj|[<-|[]]]; eauto.
  - apply DbFacts.In_commit_row in Hj. destruct Hj as [->|Hj]; [|auto].
    apply (Hwr job); [|exact Hw].
    apply IH. now apply DbFacts.query_by_id_In in Hq.
Qed.

(** X6. In every state the pipeline can reach, a row is either
    [discovered] with no draft, or [drafted] with a cover letter of at
    least 100 characters: the core advances no record beyond [drafted]
    and stores no shorter cover letter.  A reasoning score and its
    explanation are defined together. *)
Theorem rows_follow_lifecycle (db : store) (j : JobApplication) :
  Invariant.pipeline_state db ->
  In j (job_applications db) ->
  lifecycle j
  /\ (reasoning_match_score j = None <-> reasoning_explanation j = None).
Proof.
  intros Hst. apply pipeline_state_table in Hst. revert j.
  apply (table_state_rows
           (fun j => lifecycle j
                     /\ (reasoning_match_score j = None
                         <-> reasoning_explanation j = None)));
    [| |exact Hst].
  - intros url r [_ [Hs [_ [_ [_ [_ [_ [Hr [_ [He [Hc Hv]]]]]]]]]]] _.
    split; [left; auto|]. rewrite Hr, He. tauto.
  - intros job job' [Hl Hr]
           [[s ->]|[[s [e [_ ->]]]|[[c [_ ->]]|[l [cv [Hlen ->]]]]]].
    + split; [exact Hl|exact Hr].
    + split; [exact Hl|]. simpl. split; discriminate.
    + split; [exact Hl|exact Hr].
    + split; [|exact Hr]. right. split; [reflexivity|].
      exists l. split; [reflexivity|exact Hlen].
Qed.

(** X7. In every state the pipeline can reach, every row has a date: an
    admission of a valid URL that has a record is always refused with a
    [DuplicateJobError] that carries the identifier and the date of that
    record, and the table is left as it was. *)
Theorem recorded_url_is_refused urlparse fetch_html parse_linkedin
    parse_indeed parse_generic uuid4 utcnow isoformat
    (db : store) (url source : string) (existing : JobApplication) :
  Invariant.pipeline_state db ->
  Ingester.url_is_valid urlparse url = true ->
  query_by_url db url = Some existing ->
  exists d,
    date_found existing = Some d
    /\ Ingester.ingest_job urlparse fetch_html parse_linkedin parse_indeed
         parse_generic uuid4 utcnow isoformat db url source
       = (Raise (DuplicateJobError (id existing) (isoformat d)), db).
Proof.
  intros Hst Hv Hq.
  assert (Hd : date_found existing <> None).
  { apply pipeline_state_table in Hst.
    apply (table_state_rows (fun j => date_found j <> None)) with (db := db).
    - intros u r [_ [_ [Hd _]]] _. exact Hd.
    - intros job job' Hd
             [[s ->]|[[s [e [_ ->]]]|[[c [_ ->]]|[l [cv [_ ->]]]]]]; exact Hd.
    - exact Hst.
    - unfold query_by_url in Hq. now apply find_some in Hq. }
  destruct (date_found existing) as [d|] eqn:Ed; [|congruence].
  exists d. split; [reflexivity|].
  now apply ingest_job_duplicate.
Qed.

End TableOverTime.

(** The table after one ingestion and a cosine run: one record for its
    URL, discovered, and refused when submitted again. *)
Lemma one_record_per_url_witness :
  NoDup (map Db.job_url (Db.job_applications Invariant.after_cosine)).
Proof.
  refine (proj2 (one_record_per_url Invariant.after_cosine _)).
  unfold Invariant.after_cosine. apply Invariant.state_cosine.
  unfold SampleWeb.ingest_ok. apply Invariant.state_ingest.
  apply Invariant.state_init.
Defined.

Lemma rows_follow_lifecycle_witness :
  exists j,
    In j (Db.job_applications Invariant.after_cosine)
    /\ Writes.lifecycle j.
Proof.
  eexists. split; [left; reflexivity|].
  refine (proj1 (rows_follow_lifecycle Invariant.after_cosine _ _
                   (or_introl eq_refl))).
  unfold Invariant.after_cosine. apply Invariant.state_cosine.
  unfold SampleWeb.ingest_ok. apply Invariant.state_ingest.
  apply Invariant.state_init.
Defined.

Lemma recorded_url_is_refused_witness :
  exists existing d,
    Db.date_found existing = Some d
    /\ SampleWeb.ingest_offline Invariant.after_cosine
         "https://jobs.example.com/1" "manual"
       = (Raise (DuplicateJobError (Db.id existing) (SampleWeb.isoformat d)),
          Invariant.after_cosine).
Proof.
  eexists.
  refine (recorded_url_is_refused SampleWeb.urlparse
            (fun _ => Raise (HTTPError 404))
            (fun _ => Ok SampleWeb.posting) (fun _ => Ok SampleWeb.posting)
            (fun _ => Ok SampleWeb.posting) "id-1"%string 0%Z
            SampleWeb.isoformat Invariant.after_cosine
            "https://jobs.example.com/1"%string "manual"%string _ _
            eq_refl eq_refl).
  unfold Invariant.after_cosine. apply Invariant.state_cosine.
  unfold SampleWeb.ingest_ok. apply Invariant.state_ingest.
  apply Invariant.state_init.
Defined.

(* ================================================================== *)
(** * Further properties: what the stages report *)

Section StageReports.

Import Db Writes View.
Local Open Scope string_scope.
Local Open Scope list_scope.

(** A commit of a row that satisfies [Q] keeps every job that was stored
    with [Q] stored with [Q], when the writes of the stage keep [Q]. *)
Lemma stored_commit (Q : JobApplication -> Prop) (db : store)
    (job job' : JobApplication) (x : string) :
  query_by_id db (id job) = Some job ->
  id job' = id job ->
  (Q job -> Q job') ->
  stored Q db x -> stored Q (commit_row db job') x.
Proof.
  intros Hq Hid HQ [j [Hj Qj]]. unfold stored.
  rewrite DbFacts.query_commit_row, Hid.
  destruct (String.eqb (id job) x) eqn:E; [|eauto].
  apply String.eqb_eq in E. subst x. rewrite Hj.
  exists job'. split; [reflexivity|]. apply HQ. congruence.
Qed.

Lemma stored_commit_new (Q : JobApplication -> Prop) (db : store)
    (job job' : JobApplication) :
  query_by_id db (id job) = Some job ->
  id job' = id job ->
  Q job' ->
  stored Q (commit_row db job') (id job).
Proof.
  intros Hq Hid HQ. unfold stored.
  rewrite DbFacts.query_commit_row, Hid, String.eqb_refl, Hq. eauto.
Qed.

Lemma reported_commit {R : Type} (job_id_of : R -> string)
    (Q : JobApplication -> Prop) (batch : list string) (db : store)
    (results : list R) (i : string) (job job' : JobApplication) (r : R) :
  query_by_id db i = Some job ->
  id job' = id job ->
  (forall j, id j = id job -> Q j -> Q job') ->
  Q job' ->
  In i batch ->
  job_id_of r = i ->
  reported job_id_of Q batch db results ->
  reported job_id_of Q batch (commit_row db job') (results ++ [r]).
Proof.
  intros Hq Hid Hkeep HQ Hi Hr Hrep x Hx.
  pose proof (DbFacts.query_by_id_id _ _ _ Hq) as Hji.
  apply in_app_or in Hx. destruct Hx as [Hx|[<-|[]]].
  - destruct (Hrep x Hx) as [Hb Hs]. split; [exact Hb|].
    apply stored_commit with (job := job); try assumption.
    + now rewrite Hji.
    + intros Qj. now apply (Hkeep job).
  - rewrite Hr. split; [exact Hi|]. rewrite <- Hji.
    apply stored_commit_new; try assumption. now rewrite Hji.
Qed.

Lemma cosine_loop_report (Embedding : Type) embed cosine_similarity
    (ne : Embedding) (batch : list string) :
  forall (ids : list string) (k : nat) (d : store)
         (r : list Cosine.MatchResult) (f : nat),
    incl ids batch ->
    reported Cosine.job_id (fun j => cosine_match_score j <> None) batch d r ->
    let '(d', r', f') :=
      Cosine.match_loop Embedding embed cosine_similarity ne k ids (d, r, f) in
    List.length r' + f' = List.length r + f + List.length ids
    /\ reported Cosine.job_id (fun j => cosine_match_score j <> None)
                batch d' r'.
Proof.
  induction ids as [|i ids IH]; intros k d r f Hincl Hrep.
  - simpl. split; [lia|exact Hrep].
  - cbn [Cosine.match_loop].
    assert (Hi : In i batch) by (apply Hincl; now left).
    assert (Hincl' : incl ids batch)
      by (intros x Hx; apply Hincl; now right).
    unfold Cosine.match_one.
    destruct (query_by_id d i) as [job|] eqn:Hq.
    2:{ specialize (IH (S k) d r (S f) Hincl' Hrep).
        destruct (Cosine.match_loop _ _ _ _ _ _ _) as [[d' r'] f'].
        destruct IH as [Hc Hr]. split; [simpl; lia|exact Hr]. }
    destruct (Py.falsy (job_description job)).
    { specialize (IH (S k) d r (S f) Hincl' Hrep).
      destruct (Cosine.match_loop _ _ _ _ _ _ _) as [[d' r'] f'].
      destruct IH as [Hc Hr]. split; [simpl; lia|exact Hr]. }
    destruct (bind _ _) as [score|].
    2:{ specialize (IH (S k) d r (S f) Hincl' Hrep).
        destruct (Cosine.match_loop _ _ _ _ _ _ _) as [[d' r'] f'].
        destruct IH as [Hc Hr]. split; [simpl; lia|exact Hr]. }
    match goal with
    | |- context [Cosine.match_loop _ _ _ _ _ _ (?d1, ?r1, _)] =>
        assert (Hrep1 : reported Cosine.job_id
                          (fun j => cosine_match_score j <> None) batch d1 r1)
    end.
    { apply reported_commit with (i := i) (job := job);
        try assumption; try reflexivity; intros; simpl; discriminate. }
    specialize (IH (S k) _ _ f Hincl' Hrep1).
    destruct (Cosine.match_loop _ _ _ _ _ _ _) as [[d' r'] f'].
    destruct IH as [Hc Hr]. split; [|exact Hr].
    rewrite length_app in Hc. simpl in *. lia.
Qed.

(** X8. The cosine matcher accounts for every job of the batch: when it
    returns, the number of results plus the number of failures is the
    size of the batch, and the route reports the same.  Every job it
    reports belongs to the batch and is read back with a cosine score. *)
Theorem cosine_match_accounts (Embedding : Type) embed_narrative embed
    cosine_similarity (db db' : store) (job_ids : list string)
    (results : list Cosine.MatchResult) (failed : nat) :
  Cosine.match_jobs Embedding embed_narrative embed cosine_similarity
                    db job_ids
  = (Ok (results, failed), db') ->
  List.length results + failed = List.length job_ids
  /\ (forall r, In r results ->
        In (Cosine.job_id r) job_ids
        /\ stored (fun j => cosine_match_score j <> None) db' (Cosine.job_id r))
  /\ (job_ids <> [] ->
      exists response,
        Cosine.match_ Embedding embed_narrative embed cosine_similarity
                      db job_ids = (Ok response, db')
        /\ Cosine.processed response + Cosine.failed response
           = List.length job_ids).
Proof.
  intros H.
  assert (Hmain : List.length results + failed = List.length job_ids
                  /\ reported Cosine.job_id
                       (fun j => cosine_match_score j <> None)
                       job_ids db' results).
  { unfold Cosine.match_jobs in H.
    destruct (query_asset db "narrative") as [na|]; [|discriminate].
    destruct (embed_narrative _) as [ne|]; [|discriminate].
    pose proof (cosine_loop_report Embedding embed cosine_similarity ne
                  job_ids job_ids 0 db [] 0 (incl_refl _)) as Hl.
    destruct (Cosine.match_loop _ _ _ _ _ _ _) as [[d r] f].
    injection H as -> -> ->.
    destruct Hl as [Hc Hr]; [intros x []|].
    split; [simpl in Hc; lia|exact Hr]. }
  destruct Hmain as [Hc Hr]. split; [exact Hc|]. split; [exact Hr|].
  intros Hne. unfold Cosine.match_. destruct job_ids as [|i ids];
    [congruence|].
  rewrite H. eexists. split; [reflexivity|]. exact Hc.
Qed.

Lemma gated_commit (db : store) (i : string) (job job' : JobApplication)
    (x : string) :
  query_by_id db i = Some job ->
  id job' = id job ->
  cosine_match_score job' = cosine_match_score job ->
  gated (commit_row db job') x = gated db x.
Proof.
  intros Hq Hid Hc. unfold gated. rewrite DbFacts.query_commit_row, Hid.
  pose proof (DbFacts.query_by_id_id _ _ _ Hq) as Hji.
  destruct (String.eqb (id job) x) eqn:E; [|reflexivity].
  apply String.eqb_eq in E. rewrite <- E, Hji, Hq, Hc. reflexivity.
Qed.

Lemma reasoning_loop_report cfg build_prompt generate
    parse_reasoning_response (assets : Reasoning.Assets) (db0 : store)
    (batch : list string) :
  forall (ids : list string) (k : nat) (d : store)
         (r : list Reasoning.ReasonResult) (f : nat),
    incl ids batch ->
    (forall x, gated d x = gated db0 x) ->
    reported Reasoning.job_id is_reasoned batch d r ->
    let '(d', r', f') :=
      Reasoning.match_loop cfg build_prompt generate parse_reasoning_response
                           assets k ids (d, r, f) in
    List.length r' + f' + List.length (filter (gated db0) ids)
    = List.length r + f + List.length ids
    /\ reported Reasoning.job_id is_reasoned batch d' r'.
Proof.
  induction ids as [|i ids IH]; intros k d r f Hincl Hg Hrep.
  - simpl. split; [lia|exact Hrep].
  - cbn [Reasoning.match_loop filter].
    assert (Hi : In i batch) by (apply Hincl; now left).
    assert (Hincl' : incl ids batch)
      by (intros x Hx; apply Hincl; now right).
    rewrite <- (Hg i). unfold Reasoning.match_one.
    replace (gated d i)
      with (match query_by_id d i with
            | Some job => Reasoning.below_gate (cosine_match_score job)
            | None => false
            end) by reflexivity.
    destruct (query_by_id d i) as [job|] eqn:Hq.
    2:{ specialize (IH (S k) d r (S f) Hincl' Hg Hrep).
        destruct (Reasoning.match_loop _ _ _ _ _ _ _ _) as [[d' r'] f'].
        destruct IH as [Hc Hr]. split; [simpl; lia|exact Hr]. }
    destruct (Reasoning.below_gate (cosine_match_score job)) eqn:Hgate.
    { specialize (IH (S k) d r f Hincl' Hg Hrep).
      destruct (Reasoning.match_loop _ _ _ _ _ _ _ _) as [[d' r'] f'].
      destruct IH as [Hc Hr]. split; [simpl; lia|exact Hr]. }
    destruct (Py.falsy (job_description job)).
    { specialize (IH (S k) d r (S f) Hincl' Hg Hrep).
      destruct (Reasoning.match_loop _ _ _ _ _ _ _ _) as [[d' r'] f'].
      destruct IH as [Hc Hr]. split; [simpl; lia|exact Hr]. }
    destruct (generate _ _ _ _) as [raw|].
    2:{ specialize (IH (S k) d r (S f) Hincl' Hg Hrep).
        destruct (Reasoning.match_loop _ _ _ _ _ _ _ _) as [[d' r'] f'].
        destruct IH as [Hc Hr]. split; [simpl; lia|exact Hr]. }
    match goal with
    | |- context [Reasoning.match_loop _ _ _ _ _ _ _ (?d1, ?r1, _)] =>
        assert (Hrep1 : reported Reasoning.job_id is_reasoned batch d1 r1);
        [|assert (Hg1 : forall x, gated d1 x = gated db0 x)]
    end.
    { apply reported_commit with (i := i) (job := job);
        try assumption; try reflexivity.
      - intros j _ _. repeat split; [exact Hgate|discriminate|discriminate].
      - repeat split; [exact Hgate|discriminate|discriminate]. }
    { intros x. rewrite <- Hg.
      now apply gated_commit with (i := i) (job := job). }
    specialize (IH (S k) _ _ f Hincl' Hg1 Hrep1).
    destruct (Reasoning.match_loop _ _ _ _ _ _ _ _) as [[d' r'] f'].
    destruct IH as [Hc Hr]. split; [|exact Hr].
    rewrite length_app in Hc. simpl in *. lia.
Qed.

(** X9. The reasoning matcher accounts for every job of the batch: when
    it returns, results, failures and the jobs the gate passed over add
    up to the size of the batch.  Every job it reports belongs to the
    batch and is read back with a cosine score that passes the gate, a
    reasoning score and an explanation: it never scores a job below the
    gate. *)
Theorem reasoning_match_accounts cfg sendto reachable urlparse_host_port
    build_prompt generate parse_reasoning_response
    (db db' : store) (job_ids : list string)
    (results : list Reasoning.ReasonResult) (failed : nat) :
  Reasoning.match_jobs cfg sendto reachable urlparse_host_port build_prompt
                       generate parse_reasoning_response db job_ids
  = (Ok (results, failed), db') ->
  List.length results + failed + List.length (filter (gated db) job_ids)
  = List.length job_ids
  /\ (forall r, In r results ->
        In (Reasoning.job_id r) job_ids
        /\ stored is_reasoned db' (Reasoning.job_id r)).
Proof.
  intros H. unfold Reasoning.match_jobs in H.
  destruct (Reasoning.ensure_awake _ _ _ _) as [u|]; [|discriminate].
  pose proof (reasoning_loop_report cfg build_prompt generate
                parse_reasoning_response (Reasoning.load_assets db) db
                job_ids job_ids 0 db [] 0 (incl_refl _) (fun _ => eq_refl))
    as Hl.
  destruct (Reasoning.match_loop _ _ _ _ _ _ _ _) as [[d r] f].
  injection H as -> -> ->.
  destruct Hl as [Hc Hr]; [intros x []|].
  split; [simpl in Hc; lia|exact Hr].
Qed.

Lemma generator_loop_report build_cover_letter_prompt build_cv_variant_prompt
    generate (assets : Generator.Assets) (contact_name : string)
    (batch : list string) :
  forall (ids : list string) (k : nat) (d : store)
         (r : list Generator.GenerateResult) (f : nat),
    incl ids batch ->
    reported Generator.job_id is_drafted batch d r ->
    (forall x, In x r -> Generator.status x = "drafted") ->
    let '(d', r', f') :=
      Generator.generate_loop build_cover_letter_prompt
        build_cv_variant_prompt generate assets contact_name k ids (d, r, f) in
    List.length r' + f' = List.length r + f + List.length ids
    /\ reported Generator.job_id is_drafted batch d' r'
    /\ (forall x, In x r' -> Generator.status x = "drafted").
Proof.
  induction ids as [|i ids IH]; intros k d r f Hincl Hrep Hst.
  - simpl. split; [lia|]. split; assumption.
  - cbn [Generator.generate_loop].
    assert (Hi : In i batch) by (apply Hincl; now left).
    assert (Hincl' : incl ids batch)
      by (intros x Hx; apply Hincl; now right).
    unfold Generator.generate_one.
    destruct (query_by_id d i) as [job|] eqn:Hq.
    2:{ specialize (IH (S k) d r (S f) Hincl' Hrep Hst).
        destruct (Generator.generate_loop _ _ _ _ _ _ _ _) as [[d' r'] f'].
        destruct IH as [Hc Hr]. split; [simpl; lia|exact Hr]. }
    destruct (Py.falsy (job_description job)).
    { specialize (IH (S k) d r (S f) Hincl' Hrep Hst).
      destruct (Generator.generate_loop _ _ _ _ _ _ _ _) as [[d' r'] f'].
      destruct IH as [Hc Hr]. split; [simpl; lia|exact Hr]. }
    destruct (generate k _ 800%Z) as [letter|].
    2:{ specialize (IH (S k) d r (S f) Hincl' Hrep Hst).
        destruct (Generator.generate_loop _ _ _ _ _ _ _ _) as [[d' r'] f'].
        destruct IH as [Hc Hr]. split; [simpl; lia|exact Hr]. }
    destruct (Nat.ltb (String.length letter) 100) eqn:Hlen.
    { specialize (IH (S k) d r (S f) Hincl' Hrep Hst).
      destruct (Generator.generate_loop _ _ _ _ _ _ _ _) as [[d' r'] f'].
      destruct IH as [Hc Hr]. split; [simpl; lia|exact Hr]. }
    apply Nat.ltb_ge in Hlen.
    match goal with
    | |- context [Generator.generate_loop _ _ _ _ _ _ _ (?d1, ?r1, _)] =>
        assert (Hrep1 : reported Generator.job_id is_drafted batch d1 r1);
        [|assert (Hst1 : forall x, In x r1 -> Generator.status x = "drafted")]
    end.
    { apply reported_commit with (i := i) (job := job);
        try assumption; try reflexivity.
      - intros j _ _. split; [reflexivity|]. exists letter. now split.
      - split; [reflexivity|]. exists letter. now split. }
    { intros x Hx. apply in_app_or in Hx.
      destruct Hx as [Hx|[<-|[]]]; [now apply Hst|reflexivity]. }
    specialize (IH (S k) _ _ f Hincl' Hrep1 Hst1).
    destruct (Generator.generate_loop _ _ _ _ _ _ _ _) as [[d' r'] f'].
    destruct IH as [Hc Hr]. split; [|exact Hr].
    rewrite length_app in Hc. simpl in *. lia.
Qed.

Lemma generate_applications_report parse_contact_name
    build_cover_letter_prompt build_cv_variant_prompt generate
    (db : store) (job_ids : list string) :
  let out := Generator.generate_applications parse_contact_name
               build_cover_letter_prompt build_cv_variant_prompt generate
               db job_ids in
  List.length (fst (fst out)) + snd (fst out) = List.length job_ids
  /\ forall r, In r (fst (fst out)) ->
       In (Generator.job_id r) job_ids
       /\ Generator.status r = "drafted"
       /\ stored is_drafted (snd out) (Generator.job_id r).
Proof.
  unfold Generator.generate_applications.
  pose proof (generator_loop_report build_cover_letter_prompt
                build_cv_variant_prompt generate (Generator.load_assets db)
                (parse_contact_name
                   (Generator.contact_info (Generator.load_assets db)))
                job_ids job_ids 0 db [] 0 (incl_refl _)) as Hl.
  destruct (Generator.generate_loop _ _ _ _ _ _ _ _) as [[d r] f].
  destruct Hl as [Hc [Hr Hs]]; [intros x []|intros x []|].
  cbn [fst snd]. split; [simpl in Hc; lia|].
  intros x Hx. destruct (Hr x Hx) as [H1 H2]. auto.
Qed.

(** X10. The generator accounts for every job of the batch: the number of
    results plus the number of failures is the size of the batch.  Every
    job it reports belongs to the batch, is reported as [drafted], and is
    read back with status [drafted] and a cover letter of at least 100
    characters. *)
Theorem generate_applications_accounts parse_contact_name
    build_cover_letter_prompt build_cv_variant_prompt generate
    (db : store) (job_ids : list string) :
  let out := Generator.generate_applications parse_contact_name
               build_cover_letter_prompt build_cv_variant_prompt generate
               db job_ids in
  List.length (fst (fst out)) + snd (fst out) = List.length job_ids
  /\ forall r, In r (fst (fst out)) ->
       In (Generator.job_id r) job_ids
       /\ Generator.status r = "drafted"
       /\ stored is_drafted (snd out) (Generator.job_id r).
Proof.
  exact (generate_applications_report parse_contact_name
           build_cover_letter_prompt build_cv_variant_prompt generate
           db job_ids).
Qed.

End StageReports.

(* ================================================================== *)
(** * Further properties: the tasks of the DAG *)

Section DagTasks.

Import Db Writes View.
Local Open Scope string_scope.
Local Open Scope list_scope.

(** What a stage leaves alone is read back as it was. *)
Lemma writes_query (A : Type) (F : JobApplication -> A) write
    (db db' : store) :
  (forall job job', write job job' -> id job' = id job /\ F job' = F job) ->
  writes write db db' ->
  forall x, option_map F (query_by_id db' x) = option_map F (query_by_id db x).
Proof.
  intros HW H x. induction H as [|db db' job job' H IH Hq Hw]; [reflexivity|].
  rewrite <- IH. destruct (HW job job' Hw) as [Hid HF].
  rewrite DbFacts.query_commit_row, Hid.
  destruct (String.eqb (id job) x) eqn:E; [|reflexivity].
  apply String.eqb_eq in E. rewrite <- E, Hq. simpl. now rewrite HF.
Qed.

Variable _parse_contact_name : string -> string.
Variable build_cover_letter_prompt :
  JobApplication -> Generator.Assets -> string -> string.
Variable build_cv_variant_prompt :
  JobApplication -> Generator.Assets -> string -> string.
Variable llm_generate : nat -> string -> Z -> result string.

Local Abbreviation generator :=
  (Generator.generate_route _parse_contact_name build_cover_letter_prompt
     build_cv_variant_prompt llm_generate).

Lemma generate_task_report (threshold : float) (db : store)
    (job_ids : list string) :
  let out := Pipeline.generate_task generator threshold db job_ids in
  exists drafted,
    fst out = Ok drafted
    /\ forall i, In i drafted ->
         In i job_ids
         /\ exists job score,
             query_by_id (snd out) i = Some job
             /\ status job = "drafted"
             /\ combined_match_score job = Some score
             /\ PrimFloat.leb threshold score = true.
Proof.
  unfold Pipeline.generate_task.
  destruct job_ids as [|i0 ids]; [exists []; split; [reflexivity|intros ? []]|].
  destruct (Pipeline.qualifying threshold db (i0 :: ids)) as [|q qs] eqn:Hq;
    [exists []; split; [reflexivity|intros ? []]|].
  unfold Generator.generate_route.
  pose proof (generate_applications_report _parse_contact_name
                build_cover_letter_prompt build_cv_variant_prompt llm_generate
                db (q :: qs)) as [_ Hrep].
  pose proof (generator_writes _parse_contact_name build_cover_letter_prompt
                build_cv_variant_prompt llm_generate db (q :: qs)) as Hw.
  destruct (Generator.generate_applications _ _ _ _ db (q :: qs))
    as [[results failed] db'].
  cbn [Pipeline._post fst snd Generator.results] in *.
  eexists. split; [reflexivity|].
  intros i Hi. apply in_map_iff in Hi. destruct Hi as [r [<- Hr]].
  apply filter_In in Hr. destruct Hr as [Hr _].
  destruct (Hrep r Hr) as [Hin [_ [job [Hjob [Hst _]]]]].
  rewrite <- Hq in Hin. apply filter_In in Hin. destruct Hin as [Hin Hqual].
  split; [exact Hin|].
  assert (HW : forall j j',
             generator_write j j' ->
             id j' = id j
             /\ combined_match_score j' = combined_match_score j).
  { intros j j' [l [cv [_ ->]]]. split; reflexivity. }
  pose proof (writes_query _ combined_match_score generator_write db db'
                HW Hw (Generator.job_id r)) as Hc.
  rewrite Hjob in Hc. unfold Pipeline.qualifies in Hqual.
  destruct (query_by_id db (Generator.job_id r)) as [job0|]; [|discriminate].
  simpl in Hc. injection Hc as Hc.
  destruct (combined_match_score job0) as [score|] eqn:Hs; [|discriminate].
  exists job, score. auto.
Qed.


(** X12. A run of the DAG in which nothing is ingested calls no stage
    service: whatever the cosine, reasoning, generator and curator
    services would do, the run succeeds with no identifier and leaves the
    database as the ingest task left it. *)
Theorem dag_run_nothing_ingested ingester cosine reasoning generator_service
    curator (threshold : float) (db : store) (job_urls : list string) :
  fst (Pipeline.ingest_task ingester db job_urls) = [] ->
  Pipeline.dag_run ingester cosine reasoning generator_service curator
                   threshold db job_urls
  = (Ok [], snd (Pipeline.ingest_task ingester db job_urls)).
Proof.
  intros H. unfold Pipeline.dag_run.
  destruct (Pipeline.ingest_task ingester db job_urls) as [ids db1].
  simpl in H. subst ids. reflexivity.
Qed.

Variable urlparse : string -> result (string * string).
Variable fetch_html : string -> result string.
Variable parse_linkedin parse_indeed parse_generic
  : string -> result Ingester.Parsed.
Variable uuid4 : string.
Variable utcnow : datetime.
Variable isoformat : datetime -> string.

Local Abbreviation ingester_service :=
  (Ingester.ingest urlparse fetch_html parse_linkedin parse_indeed
                   parse_generic uuid4 utcnow isoformat).

(** X13. Duplicates and malformed URLs are filtered before they enter the
    pipeline: when every submitted URL is malformed or already has a
    dated record, the ingest task, in front of the ingester service,
    passes on no identifier and leaves the database as it was. *)
Theorem ingest_task_filters_known (db : store) (job_urls : list string) :
  (forall url, In url job_urls ->
     Ingester.url_is_valid urlparse url = false
     \/ exists existing d,
         query_by_url db url = Some existing
         /\ date_found existing = Some d) ->
  Pipeline.ingest_task ingester_service db job_urls = ([], db).
Proof.
  unfold Pipeline.ingest_task. induction job_urls as [|url urls IH];
    intros H; [reflexivity|].
  cbn [Pipeline.ingest_loop].
  assert (Hone : exists c, ingester_service db url "airflow"
                           = (Raise (HTTPException c), db)).
  { unfold Ingester.ingest.
    destruct (H url (or_introl eq_refl)) as [Hv|[existing [d [Hq Hd]]]].
    - unfold Ingester.ingest_job. rewrite Hv. simpl. eauto.
    - destruct (Ingester.url_is_valid urlparse url) eqn:Hv.
      + rewrite (ingest_job_duplicate urlparse isoformat fetch_html
                   parse_linkedin parse_indeed parse_generic uuid4 utcnow
                   db url "airflow" existing d Hv Hq Hd). eauto.
      + unfold Ingester.ingest_job. rewrite Hv. simpl. eauto. }
  destruct Hone as [c He]. rewrite He. cbn [Pipeline._post].
  apply IH. intros u Hu. apply H. now right.
Qed.

End DagTasks.

(* ================================================================== *)
(** * Further properties: Wake-on-LAN *)

Section WakeBounds.

Import Wol TraceCount.
Local Open Scope string_scope.
Local Open Scope list_scope.

Variable sendto : nat -> list byte -> result unit.
Variable reachable : nat -> option string -> Z -> bool.
Variable mac_address : string.
Variable ollama_host : option string.
Variable ollama_port boot_wait : Z.

Local Abbreviation wake_round :=
  (WakeTrace.wake_round sendto reachable mac_address ollama_host ollama_port
                        boot_wait).

Lemma total_sleep_app (t u : list event) :
  total_sleep (t ++ u) = (total_sleep t + total_sleep u)%Z.
Proof.
  induction t as [|e t IH]; [reflexivity|].
  destruct e; simpl; rewrite IH; lia.
Qed.

Lemma datagrams_app (t u : list event) :
  datagrams (t ++ u) = datagrams t + datagrams u.
Proof.
  induction t as [|e t IH]; [reflexivity|].
  destruct e; simpl; rewrite IH; lia.
Qed.

Lemma probes_app (t u : list event) :
  probes (t ++ u) = probes t + probes u.
Proof.
  induction t as [|e t IH]; [reflexivity|].
  destruct e; simpl; rewrite IH; lia.
Qed.

(** One round sleeps [boot_wait], probes once, and sends one datagram at
    most - none when the address is refused. *)
Lemma wake_round_measures (k : nat) :
  total_sleep (wake_round k) = boot_wait
  /\ probes (wake_round k) = 1
  /\ datagrams (wake_round k) <= 1
  /\ (is_ok (magic_packet mac_address) = false ->
      datagrams (wake_round k) = 0).
Proof.
  unfold WakeTrace.wake_round, send_magic_packet.
  destruct (magic_packet mac_address) as [packet|e].
  - destruct (sendto k packet) as [u|e]; simpl;
      repeat split; try lia; discriminate.
  - simpl. repeat split; lia.
Qed.

Lemma wake_rounds_measures (a n : nat) :
  total_sleep (flat_map wake_round (seq a n)) = (Z.of_nat n * boot_wait)%Z
  /\ probes (flat_map wake_round (seq a n)) = n
  /\ datagrams (flat_map wake_round (seq a n)) <= n
  /\ (is_ok (magic_packet mac_address) = false ->
      datagrams (flat_map wake_round (seq a n)) = 0).
Proof.
  revert a. induction n as [|n IH]; intros a.
  - simpl. repeat split; lia.
  - cbn [seq flat_map].
    rewrite total_sleep_app, probes_app, datagrams_app.
    destruct (wake_round_measures a) as [H1 [H2 [H3 H4]]].
    destruct (IH (S a)) as [I1 [I2 [I3 I4]]].
    rewrite H1, H2, I1, I2. repeat split; try lia.
    intros Hm. rewrite H4, I4 by exact Hm. reflexivity.
Qed.

(** X14. [wake_and_wait] is bounded by [retries]: it sleeps [boot_wait]
    seconds once per round, so [retries * boot_wait] seconds at most (90
    seconds with the defaults), sends at most [retries] datagrams and
    makes at most [retries + 1] probes; with [retries <= 0] it probes
    once and never wakes. *)
Theorem wake_and_wait_bounded (retries : Z) :
  (0 <= boot_wait)%Z ->
  let trace :=
    snd (wake_and_wait sendto reachable mac_address ollama_host ollama_port
                       retries boot_wait) in
  (0 <= total_sleep trace <= Z.max 0 retries * boot_wait)%Z
  /\ datagrams trace <= Z.to_nat retries
  /\ 1 <= probes trace <= S (Z.to_nat retries)
  /\ (total_sleep trace = Z.of_nat (probes trace - 1) * boot_wait)%Z.
Proof.
  intros Hbw trace. subst trace. unfold wake_and_wait, is_reachable.
  destruct (reachable 0 ollama_host ollama_port).
  - simpl. repeat split; lia || nia.
  - destruct (wake_loop_rounds sendto reachable mac_address ollama_host
                ollama_port boot_wait Hbw (Z.to_nat retries) 1)
      as [m [up [Heq [Hle _]]]].
    rewrite Heq. cbn [snd].
    destruct (wake_rounds_measures 1 m) as [H1 [H2 [H3 _]]].
    cbn [app total_sleep datagrams probes].
    rewrite total_sleep_app, datagrams_app, probes_app, H1, H2.
    cbn [total_sleep datagrams probes].
    replace (S (m + 0) - 1) with m by lia.
    repeat split; lia || nia.
Qed.

(** X15. The wake signal is fire and forget: what [wake_and_wait] returns
    depends on the probes alone, not on the address nor on what the socket
    does.  In particular an address that [send_magic_packet] refuses is
    never reported, and no datagram is sent for it. *)
Theorem wake_outcome_ignores_signal (retries : Z) :
  (0 <= boot_wait)%Z ->
  (forall sendto' mac_address',
      fst (wake_and_wait sendto reachable mac_address ollama_host ollama_port
                         retries boot_wait)
      = fst (wake_and_wait sendto' reachable mac_address' ollama_host
                           ollama_port retries boot_wait))
  /\ (is_ok (magic_packet mac_address) = false ->
      datagrams
        (snd (wake_and_wait sendto reachable mac_address ollama_host
                            ollama_port retries boot_wait)) = 0).
Proof.
  intros Hbw. split.
  - intros sendto' mac'. unfold wake_and_wait, is_reachable.
    destruct (reachable 0 ollama_host ollama_port); [reflexivity|].
    destruct (wake_loop_rounds sendto reachable mac_address ollama_host
                ollama_port boot_wait Hbw (Z.to_nat retries) 1)
      as [m [up [Heq [Hle Hup]]]].
    destruct (wake_loop_rounds sendto' reachable mac' ollama_host
                ollama_port boot_wait Hbw (Z.to_nat retries) 1)
      as [m' [up' [Heq' [Hle' Hup']]]].
    rewrite Heq, Heq'. cbn [fst]. f_equal.
    destruct up, up'; try reflexivity.
    + destruct Hup as [H1 [H2 _]], Hup' as [_ H3].
      rewrite H3 in H2 by lia. discriminate.
    + destruct Hup' as [H1 [H2 _]], Hup as [_ H3].
      rewrite H3 in H2 by lia. discriminate.
  - intros Hm. unfold wake_and_wait, is_reachable.
    destruct (reachable 0 ollama_host ollama_port); [reflexivity|].
    destruct (wake_loop_rounds sendto reachable mac_address ollama_host
                ollama_port boot_wait Hbw (Z.to_nat retries) 1)
      as [m [up [Heq _]]].
    rewrite Heq. cbn [snd app datagrams].
    rewrite datagrams_app.
    destruct (wake_rounds_measures 1 m) as [_ [_ [_ H4]]].
    rewrite (H4 Hm). reflexivity.
Qed.

End WakeBounds.

Section PacketShape.

Import Wol TraceCount.
Local Open Scope string_scope.
Local Open Scope list_scope.

(** Decoding consumes two digits per byte, and the whitespace. *)
Lemma fromhex_length (n : nat) :
  forall (s : string) (raw : list byte),
    String.length s <= n ->
    fromhex s = Ok raw ->
    2 * List.length raw + spaces s = String.length s.
Proof.
  induction n as [|n IH]; intros s raw Hn H.
  - destruct s; [|simpl in Hn; lia]. simpl in H. injection H as <-.
    reflexivity.
  - destruct s as [|c s1]; [simpl in H; injection H as <-; reflexivity|].
    cbn [fromhex] in H. cbn [spaces String.length].
    destruct (is_space c).
    + simpl in Hn. specialize (IH s1 raw ltac:(lia) H). lia.
    + destruct (hex_value c) as [top|]; [|discriminate].
      destruct s1 as [|d s2]; [discriminate|].
      destruct (hex_value d) as [bot|] eqn:Hd; [|discriminate].
      destruct (fromhex s2) as [rest|] eqn:Hrest; [|discriminate].
      simpl in H. injection H as <-.
      simpl in Hn. specialize (IH s2 rest ltac:(lia) Hrest).
      cbn [spaces String.length List.length].
      assert (Hsp : is_space d = false).
      { clear - Hd. unfold hex_value in Hd. unfold is_space.
        destruct (N_of_ascii d =? 32)%N eqn:E1.
        - apply N.eqb_eq in E1. rewrite E1 in Hd. discriminate.
        - destruct ((9 <=? N_of_ascii d) && (N_of_ascii d <=? 13))%N eqn:E2;
            [|reflexivity].
          apply andb_prop in E2. destruct E2 as [A B].
          apply N.leb_le in A, B.
          replace ((48 <=? N_of_ascii d) && (N_of_ascii d <=? 57))%N
            with false in Hd
            by (symmetry; apply andb_false_iff; left; apply N.leb_gt; lia).
          replace ((97 <=? N_of_ascii d) && (N_of_ascii d <=? 102))%N
            with false in Hd
            by (symmetry; apply andb_false_iff; left; apply N.leb_gt; lia).
          replace ((65 <=? N_of_ascii d) && (N_of_ascii d <=? 70))%N
            with false in Hd
            by (symmetry; apply andb_false_iff; left; apply N.leb_gt; lia).
          discriminate. }
      rewrite Hsp. lia.
Qed.

(** X16. Every packet [send_magic_packet] builds is six bytes [0xFF]
    followed by sixteen copies of the bytes decoded from the address.  An
    address text is accepted when it has twelve characters besides colons
    and dashes and decodes; without whitespace in it the packet has
    exactly 102 bytes, and each two whitespace characters make it 16
    bytes shorter. *)
Theorem magic_packet_shape (mac_address : string) (packet : list byte) :
  magic_packet mac_address = Ok packet ->
  exists raw,
    fromhex (MacText.clean mac_address) = Ok raw
    /\ packet = repeat xff 6 ++ List.concat (repeat raw 16)
    /\ 2 * List.length raw + spaces (MacText.clean mac_address) = 12
    /\ List.length packet = 6 + 16 * List.length raw
    /\ (spaces (MacText.clean mac_address) = 0 -> List.length packet = 102).
Proof.
  unfold magic_packet. fold (MacText.clean mac_address).
  destruct (Nat.eqb (String.length (MacText.clean mac_address)) 12) eqn:Hl;
    [|discriminate].
  apply Nat.eqb_eq in Hl. cbn [negb].
  destruct (fromhex (MacText.clean mac_address)) as [raw|] eqn:Hf;
    [|discriminate].
  cbn [bind]. intros H. injection H as H. subst packet. exists raw.
  pose proof (fromhex_length _ _ raw (Nat.le_refl _) Hf) as Hlen.
  rewrite Hl in Hlen.
  split; [reflexivity|]. split; [reflexivity|]. split; [exact Hlen|].
  cbn [List.length]. rewrite !length_app. cbn [List.length].
  split; [lia|]. intros Hs. lia.
Qed.

End PacketShape.

(** The defaults: three retries of thirty seconds against a node that
    never answers. *)
Lemma wake_and_wait_bounded_witness :
  let trace :=
    snd (Wol.wake_and_wait (fun _ _ => Ok tt) (fun _ _ _ => false)
           "01:23:45:67:89:ab" (Some "gaming-pc"%string) 11434 3 30) in
  (TraceCount.total_sleep trace <= 90)%Z /\ TraceCount.datagrams trace <= 3.
Proof.
  intros trace.
  pose proof (wake_and_wait_bounded (fun _ _ => Ok tt) (fun _ _ _ => false)
                "01:23:45:67:89:ab"%string (Some "gaming-pc"%string) 11434 30
                3 ltac:(lia)) as [[_ H1] [H2 _]].
  split; [exact H1|exact H2].
Defined.

(** An address that is not one: nothing is sent, and the answer is that
    of the probes. *)
Lemma wake_outcome_ignores_signal_witness :
  TraceCount.datagrams
    (snd (Wol.wake_and_wait (fun _ _ => Ok tt) (fun k _ _ => Nat.eqb k 1)
            "not-a-mac" (Some "gaming-pc"%string) 11434 3 30)) = 0
  /\ fst (Wol.wake_and_wait (fun _ _ => Ok tt) (fun k _ _ => Nat.eqb k 1)
            "not-a-mac" (Some "gaming-pc"%string) 11434 3 30)
     = fst (Wol.wake_and_wait (fun _ _ => Raise OSError)
              (fun k _ _ => Nat.eqb k 1) "01:23:45:67:89:ab"
              (Some "gaming-pc"%string) 11434 3 30).
Proof.
  pose proof (wake_outcome_ignores_signal (fun _ _ => Ok tt)
                (fun k _ _ => Nat.eqb k 1) "not-a-mac"%string
                (Some "gaming-pc"%string) 11434 30 3 ltac:(lia)) as [H1 H2].
  split; [exact (H2 eq_refl)|].
  exact (H1 (fun _ _ => Raise OSError) "01:23:45:67:89:ab"%string).
Defined.

(** Ten digits and two blanks are accepted, and give 86 bytes. *)
Lemma magic_packet_shape_witness :
  exists packet,
    Wol.magic_packet "0123456789  " = Ok packet
    /\ List.length packet = 86.
Proof.
  eexists. split; [reflexivity|].
  destruct (magic_packet_shape "0123456789  "%string _ eq_refl)
    as [raw [Hf [_ [Hlen [Hp _]]]]].
  rewrite Hp. simpl in Hlen. lia.
Defined.

(* ================================================================== *)
(** * Further properties: the answer of the reasoning model *)

Section AnswerParsing.

Import OllamaClient Lines.
Local Open Scope string_scope.
Local Open Scope list_scope.

Lemma split_lines_nonempty (s : string) : split_lines s <> [].
Proof.
  induction s as [|c s IH]; simpl; [discriminate|].
  destruct (Ascii.eqb c newline); [discriminate|].
  destruct (split_lines s); [contradiction|discriminate].
Qed.

(** Joining the lines of a text gives the text back. *)
Lemma join_split_lines (s : string) : join_lines (split_lines s) = s.
Proof.
  unfold join_lines. induction s as [|c s IH]; [reflexivity|].
  simpl. destruct (Ascii.eqb c newline) eqn:E.
  - apply Ascii.eqb_eq in E. subst c.
    destruct (split_lines s) as [|l ls] eqn:Es;
      [now apply split_lines_nonempty in Es|].
    cbn [String.concat]. cbn [String.concat] in IH.
    simpl. f_equal. exact IH.
  - destruct (split_lines s) as [|l ls] eqn:Es;
      [now apply split_lines_nonempty in Es|].
    destruct ls as [|l2 ls]; simpl in *; now rewrite IH.
Qed.

Lemma split_lines_no_newline (s : string) :
  no_newline s = true -> split_lines s = [s].
Proof.
  induction s as [|c s IH]; [reflexivity|]. simpl. intros H.
  apply andb_prop in H. destruct H as [Hc Hs].
  apply negb_true_iff in Hc. rewrite Hc, (IH Hs). reflexivity.
Qed.

Lemma split_lines_app (x y : string) :
  split_lines (x ++ String newline y) = split_lines x ++ split_lines y.
Proof.
  induction x as [|c x IH]; cbn [append split_lines].
  - now rewrite Ascii.eqb_refl.
  - rewrite IH. destruct (Ascii.eqb c newline); [reflexivity|].
    destruct (split_lines x) as [|l ls] eqn:Ex;
      [now apply split_lines_nonempty in Ex|].
    reflexivity.
Qed.

Lemma string_append_assoc (x y z : string) :
  ((x ++ y) ++ z = x ++ (y ++ z))%string.
Proof. induction x as [|c x IH]; simpl; [reflexivity|now rewrite IH]. Qed.

Lemma prefix_fence (s : string) :
  String.prefix "```" (String "`" (String "`" (String "`" s))) = true.
Proof.
  cbn [String.prefix].
  destruct (ascii_dec "`" "`") as [_|n]; [|now elim n]. now destruct s.
Qed.

Lemma rstrip_cons (c : ascii) (s : string) :
  is_whitespace c = false -> rstrip (String c s) = String c (rstrip s).
Proof.
  intros H. simpl. rewrite H. now destruct (rstrip s).
Qed.

Lemma rstrip_fence (x : string) : rstrip (x ++ "```") = (x ++ "```")%string.
Proof.
  induction x as [|c x IH]; [reflexivity|].
  cbn [append rstrip]. rewrite IH. now destruct x.
Qed.

Lemma no_newline_rstrip (s : string) :
  no_newline s = true -> no_newline (rstrip s) = true.
Proof.
  induction s as [|c s IH]; [reflexivity|]. simpl. intros H.
  apply andb_prop in H. destruct H as [Hc Hs]. specialize (IH Hs).
  destruct (rstrip s) as [|d t].
  - destruct (is_whitespace c); [reflexivity|]. simpl. now rewrite Hc.
  - simpl in *. now rewrite Hc, IH.
Qed.

Lemma removelast_snoc (A : Type) (l : list A) (x : A) :
  removelast (l ++ [x]) = l.
Proof. apply removelast_last. Qed.

Variable decode : string -> result Reasoning.Reasoned.

(** X17. A fenced answer is unwrapped exactly: for an answer made of an
    opening fence with any language tag, a body of any number of lines
    and a closing fence, the decoder receives the body, character for
    character.  A fenced answer written on a single line is emptied: the
    decoder receives the empty text. *)
Theorem fenced_answer_is_unwrapped (tag body : string) :
  no_newline tag = true ->
  payload (fenced tag body) = body
  /\ parse_reasoning_response decode (fenced tag body)
     = match decode body with Ok parsed => parsed | Raise _ => parse_error end
  /\ payload ("```" ++ tag) = "".
Proof.
  intros Htag.
  assert (Hp : payload (fenced tag body) = body).
  { unfold payload, strip, fenced. cbn [append lstrip].
    change (is_whitespace "`") with false. cbn iota.
    assert (Hr : rstrip (tag ++ String newline (body ++ String newline "```"))
                 = (tag ++ String newline (body ++ String newline "```"))%string).
    { replace (tag ++ String newline (body ++ String newline "```"))%string
        with ((tag ++ String newline (body ++ String newline "")) ++ "```")%string
        by (repeat (rewrite string_append_assoc; cbn [append]); reflexivity).
      apply rstrip_fence. }
    rewrite !rstrip_cons by reflexivity. rewrite Hr.
    rewrite (prefix_fence
               (tag ++ String newline (body ++ String newline "```"))).
    change (String "`" (String "`" (String "`"
              (tag ++ String newline (body ++ String newline "```")))))%string
      with (("```" ++ tag)
            ++ String newline (body ++ String newline "```"))%string.
    rewrite split_lines_app, split_lines_app.
    rewrite (split_lines_no_newline ("```" ++ tag)%string)
      by (cbn [append no_newline]; simpl; exact Htag).
    unfold inner. cbn [app tl].
    change (split_lines "```") with ["```"].
    rewrite removelast_snoc. apply join_split_lines. }
  split; [exact Hp|]. split.
  - unfold parse_reasoning_response. now rewrite Hp.
  - unfold payload, strip. cbn [append lstrip].
    change (is_whitespace "`") with false. cbn iota.
    rewrite !rstrip_cons by reflexivity.
    rewrite (prefix_fence (rstrip tag)).
    rewrite split_lines_no_newline.
    + reflexivity.
    + cbn [no_newline]. simpl. now apply no_newline_rstrip.
Qed.

Variable cfg : Reasoning.config.
Variable build_prompt : string -> Reasoning.Assets -> string.
Variable generate : nat -> string -> string -> string -> result string.

(** X18. An answer that cannot be decoded does not fail the job: the
    reasoning matcher stores the score 0.0 with the explanation of a
    parse error, reports the job as processed, and leaves the count of
    failures as it was. *)
Theorem undecodable_answer_scores_zero (assets : Reasoning.Assets) (k : nat)
    (db : Db.store) (results : list Reasoning.ReasonResult) (failed : nat)
    (job_id : string) (job : Db.JobApplication) (d raw : string) (e : exn) :
  Db.query_by_id db job_id = Some job ->
  Reasoning.below_gate (Db.cosine_match_score job) = false ->
  Db.job_description job = Some d -> d <> "" ->
  generate k (Reasoning.OLLAMA_BASE_URL cfg) (Reasoning.OLLAMA_MODEL cfg)
           (build_prompt d assets) = Ok raw ->
  decode (payload raw) = Raise e ->
  Reasoning.match_one cfg build_prompt generate
    (parse_reasoning_response decode) assets k job_id (db, results, failed)
  = (Db.commit_row db
       (Reasoning.reasoned 0%float
          (Reasoning.explanation_of parse_error) job),
     results ++ [{| Reasoning.job_id := job_id;
                    Reasoning.reasoning_match_score := 0%float;
                    Reasoning.reasoning_explanation :=
                      Reasoning.explanation_of parse_error |}],
     failed).
Proof.
  intros Hq Hg Hd Hne Hgen Hdec.
  unfold Reasoning.match_one. rewrite Hq, Hg, Hd.
  destruct d as [|ch d]; [congruence|]. cbn [Py.falsy Py.or_empty].
  rewrite Hgen. unfold parse_reasoning_response. rewrite Hdec.
  reflexivity.
Qed.

End AnswerParsing.

(** A JSON object in a [json] fence, over three lines. *)
Lemma fenced_answer_is_unwrapped_witness :
  OllamaClient.payload
    (Lines.fenced "json"
       (String "{" (String OllamaClient.newline "}")))
  = String "{" (String OllamaClient.newline "}").
Proof.
  exact (proj1 (fenced_answer_is_unwrapped (fun _ => Raise ValueError)
                  "json" (String "{" (String OllamaClient.newline "}"))
                  eq_refl)).
Defined.

(** The model answers in prose: the job is processed with score 0.0. *)
Lemma undecodable_answer_scores_zero_witness :
  let out :=
    Reasoning.match_one SampleStages.cfg (fun d _ => d)
      (fun _ _ _ _ => Ok "I think it is a good fit."%string)
      (OllamaClient.parse_reasoning_response (fun _ => Raise ValueError))
      (Reasoning.load_assets SampleStages.db) 0 "a" (SampleStages.db, [], 0) in
  map Reasoning.reasoning_match_score (snd (fst out)) = [0%float]
  /\ snd out = 0.
Proof.
  intros out. subst out.
  rewrite (undecodable_answer_scores_zero (fun _ => Raise ValueError)
             SampleStages.cfg (fun d _ => d)
             (fun _ _ _ _ => Ok "I think it is a good fit."%string)
             (Reasoning.load_assets SampleStages.db) 0 SampleStages.db [] 0
             "a"%string SampleStages.ja "Rust"%string
             "I think it is a good fit."%string ValueError
             eq_refl eq_refl eq_refl ltac:(discriminate) eq_refl eq_refl).
  split; reflexivity.
Defined.

(* ================================================================== *)
(** * The stage reports and the tasks on sample batches *)

(** Three jobs; every call made for the second one raises. *)
Lemma cosine_match_accounts_witness :
  exists results failed db',
    Cosine.match_jobs nat (fun _ => Ok 0) SampleStages.embed
      SampleStages.cosine_similarity SampleStages.db ["a"; "b"; "c"]%string
    = (Ok (results, failed), db')
    /\ List.length results + failed = 3.
Proof.
  eexists _, _, _. split; [reflexivity|].
  exact (proj1 (cosine_match_accounts nat (fun _ => Ok 0) SampleStages.embed
                  SampleStages.cosine_similarity SampleStages.db _
                  ["a"; "b"; "c"]%string _ _ eq_refl)).
Defined.

Lemma reasoning_match_accounts_witness :
  exists results failed db',
    Reasoning.match_jobs SampleStages.cfg (fun _ _ => Ok tt)
      (fun _ _ _ => true) (fun _ => Ok (None, None)) (fun d _ => d)
      SampleStages.ollama_generate SampleStages.parse_reasoning_response
      SampleStages.db ["a"; "b"; "c"]%string
    = (Ok (results, failed), db')
    /\ List.length results + failed
       + List.length (filter (View.gated SampleStages.db) ["a"; "b"; "c"]%string)
       = 3.
Proof.
  eexists _, _, _. split; [reflexivity|].
  exact (proj1 (reasoning_match_accounts SampleStages.cfg (fun _ _ => Ok tt)
                  (fun _ _ _ => true) (fun _ => Ok (None, None)) (fun d _ => d)
                  SampleStages.ollama_generate
                  SampleStages.parse_reasoning_response
                  SampleStages.db _ ["a"; "b"; "c"]%string _ _ eq_refl)).
Defined.

Lemma generate_applications_accounts_witness :
  let out := Generator.generate_applications (fun _ => "the candidate"%string)
               (fun j _ _ => Db.id j) (fun j _ _ => Db.id j)
               SampleStages.llm_generate SampleStages.db
               ["a"; "b"; "c"]%string in
  In "a"%string ["a"; "b"; "c"]%string
  /\ View.stored View.is_drafted (snd out) "a"%string.
Proof.
  intros out.
  destruct (proj2 (generate_applications_accounts
                     (fun _ => "the candidate"%string)
                     (fun j _ _ => Db.id j) (fun j _ _ => Db.id j)
                     SampleStages.llm_generate SampleStages.db
                     ["a"; "b"; "c"]%string)
                  {| Generator.job_id := "a"; Generator.status := "drafted" |}
                  (or_introl eq_refl)) as [Hin [_ Hs]].
  split; [exact Hin|exact Hs].
Defined.


(** The only submitted URL is already recorded: no stage service is
    called, although each of them would fail. *)
Lemma dag_run_nothing_ingested_witness :
  Pipeline.dag_run
    (Ingester.ingest SampleWeb.urlparse (fun _ => Ok "<html></html>"%string)
       (fun _ => Ok SampleWeb.posting) (fun _ => Ok SampleWeb.posting)
       (fun _ => Ok SampleWeb.posting) "id-1"%string 0%Z SampleWeb.isoformat)
    (fun db _ => (Raise (HTTPException 500), db))
    (fun db _ => (Raise (HTTPException 500), db))
    (fun db _ => (Raise (HTTPException 500), db))
    (fun db _ => (Raise (HTTPException 500), db))
    Pipeline.default_threshold SampleStages.db ["https://a"%string]
  = (Ok [], SampleStages.db).
Proof.
  exact (dag_run_nothing_ingested
           (Ingester.ingest SampleWeb.urlparse
              (fun _ => Ok "<html></html>"%string)
              (fun _ => Ok SampleWeb.posting) (fun _ => Ok SampleWeb.posting)
              (fun _ => Ok SampleWeb.posting) "id-1"%string 0%Z
              SampleWeb.isoformat)
           (fun db _ => (Raise (HTTPException 500), db))
           (fun db _ => (Raise (HTTPException 500), db))
           (fun db _ => (Raise (HTTPException 500), db))
           (fun db _ => (Raise (HTTPException 500), db))
           Pipeline.default_threshold SampleStages.db ["https://a"%string]
           eq_refl).
Defined.

Lemma ingest_task_filters_known_witness :
  Pipeline.ingest_task
    (Ingester.ingest SampleWeb.urlparse (fun _ => Ok "<html></html>"%string)
       (fun _ => Ok SampleWeb.posting) (fun _ => Ok SampleWeb.posting)
       (fun _ => Ok SampleWeb.posting) "id-1"%string 0%Z SampleWeb.isoformat)
    SampleStages.db ["https://a"; "https://b"]%string
  = ([], SampleStages.db).
Proof.
  apply (ingest_task_filters_known SampleWeb.urlparse
           (fun _ => Ok "<html></html>"%string)
           (fun _ => Ok SampleWeb.posting) (fun _ => Ok SampleWeb.posting)
           (fun _ => Ok SampleWeb.posting) "id-1"%string 0%Z
           SampleWeb.isoformat SampleStages.db
           ["https://a"; "https://b"]%string).
  intros url [<-|[<-|[]]]; right.
  - exists SampleStages.ja, 0%Z. split; reflexivity.
  - exists SampleStages.jb, 0%Z. split; reflexivity.
Defined.

(* ================================================================== *)
(** * Further properties: the choice of the generating model *)

Section LlmBackend.

Import LlmClient.
Local Open Scope string_scope.

(** X19. Without a usable API key Claude is never called: when the key
    is missing, empty or the placeholder, the answer is the one of an
    Ollama endpoint, whatever the Claude client would return and whatever
    the temperature.  It is the gaming PC for the backend
    [ollama_gaming], and the local endpoint for every other backend,
    [claude] included. *)
Theorem unusable_key_never_calls_claude (cfg : config)
    (claude_create : string -> Z -> float -> string -> result string)
    (ollama_post : string -> string -> string -> Z -> result string)
    (prompt : string) (max_tokens : Z) (temperature : float) :
  CLAUDE_API_KEY cfg = None \/ CLAUDE_API_KEY cfg = Some ""
  \/ CLAUDE_API_KEY cfg = Some "your-key-here" ->
  generate cfg claude_create ollama_post prompt max_tokens temperature
  = if String.eqb (GENERATOR_LLM cfg) "ollama_gaming"
    then ollama_post (OLLAMA_BASE_URL cfg) (OLLAMA_MODEL cfg) prompt max_tokens
    else ollama_post (LOCAL_OLLAMA_URL cfg) (LOCAL_OLLAMA_MODEL cfg)
                     prompt max_tokens.
Proof.
  intros Hkey.
  assert (Hset : _key_is_set cfg = false).
  { unfold _key_is_set. destruct Hkey as [->|[->| ->]]; reflexivity. }
  unfold generate, _generate_ollama. rewrite Hset. cbn [negb].
  destruct (String.eqb (GENERATOR_LLM cfg) "claude") eqn:E; [|reflexivity].
  apply String.eqb_eq in E. rewrite E. reflexivity.
Qed.

End LlmBackend.

(** The backend is [claude], the key is the placeholder of the example
    configuration. *)
Lemma unusable_key_never_calls_claude_witness :
  LlmClient.generate
    {| LlmClient.CLAUDE_API_KEY := Some "your-key-here"%string;
       LlmClient.CLAUDE_MODEL := "claude"%string;
       LlmClient.OLLAMA_BASE_URL := "http://gaming:11434"%string;
       LlmClient.OLLAMA_MODEL := "neural-chat"%string;
       LlmClient.LOCAL_OLLAMA_URL := "http://localhost:11434"%string;
       LlmClient.LOCAL_OLLAMA_MODEL := "llama3"%string;
       LlmClient.GENERATOR_LLM := "claude"%string |}
    (fun _ _ _ _ => Raise (OtherException "AuthenticationError"))
    (fun base_url _ _ _ => Ok base_url) "Write a letter."%string 800%Z 0.7%float
  = Ok "http://localhost:11434"%string.
Proof.
  exact (unusable_key_never_calls_claude
           {| LlmClient.CLAUDE_API_KEY := Some "your-key-here"%string;
              LlmClient.CLAUDE_MODEL := "claude"%string;
              LlmClient.OLLAMA_BASE_URL := "http://gaming:11434"%string;
              LlmClient.OLLAMA_MODEL := "neural-chat"%string;
              LlmClient.LOCAL_OLLAMA_URL := "http://localhost:11434"%string;
              LlmClient.LOCAL_OLLAMA_MODEL := "llama3"%string;
              LlmClient.GENERATOR_LLM := "claude"%string |}
           (fun _ _ _ _ => Raise (OtherException "AuthenticationError"))
           (fun base_url _ _ _ => Ok base_url) "Write a letter."%string
           800%Z 0.7%float (or_intror (or_intror eq_refl))).
Defined.

(* ================================================================== *)
(** * Further properties: a run without a narrative *)

Section NoNarrative.

Import Db.
Local Open Scope string_scope.
Local Open Scope list_scope.

(** X20. Without an active narrative the pipeline stops at the cosine
    task: a run that ingests at least one job fails with the HTTP error
    500 of the cosine service, whatever the later services would do, and
    the database is left as ingestion wrote it. *)
Theorem dag_run_without_narrative (Embedding : Type) embed_narrative embed
    cosine_similarity ingester reasoning generator curator
    (threshold : float) (db : store) (job_urls : list string) :
  fst (Pipeline.ingest_task ingester db job_urls) <> [] ->
  query_asset (snd (Pipeline.ingest_task ingester db job_urls)) "narrative"
  = None ->
  Pipeline.dag_run ingester
    (Cosine.match_ Embedding embed_narrative embed cosine_similarity)
    reasoning generator curator threshold db job_urls
  = (Raise (HTTPError 500), snd (Pipeline.ingest_task ingester db job_urls)).
Proof.
  intros Hne Hq. unfold Pipeline.dag_run.
  destruct (Pipeline.ingest_task ingester db job_urls) as [ids db1].
  cbn [fst snd] in *. destruct ids as [|i ids]; [congruence|].
  unfold Pipeline.cosine_match_task, Cosine.match_, Cosine.match_jobs.
  rewrite Hq. reflexivity.
Qed.

End NoNarrative.

(** One posting is ingested into a database without assets. *)
Lemma dag_run_without_narrative_witness :
  fst (Pipeline.dag_run
         (Ingester.ingest SampleWeb.urlparse
            (fun _ => Ok "<html></html>"%string)
            (fun _ => Ok SampleWeb.posting) (fun _ => Ok SampleWeb.posting)
            (fun _ => Ok SampleWeb.posting) "id-1"%string 0%Z
            SampleWeb.isoformat)
         (Cosine.match_ nat (fun _ => Ok 0) SampleStages.embed
            SampleStages.cosine_similarity)
         (fun db _ => (Raise (HTTPException 500), db))
         (fun db _ => (Raise (HTTPException 500), db))
         (fun db _ => (Raise (HTTPException 500), db))
         Pipeline.default_threshold SampleWeb.empty_db ["https://a"%string])
  = Raise (HTTPError 500).
Proof.
  rewrite (dag_run_without_narrative nat (fun _ => Ok 0) SampleStages.embed
             SampleStages.cosine_similarity
             (Ingester.ingest SampleWeb.urlparse
                (fun _ => Ok "<html></html>"%string)
                (fun _ => Ok SampleWeb.posting) (fun _ => Ok SampleWeb.posting)
                (fun _ => Ok SampleWeb.posting) "id-1"%string 0%Z
                SampleWeb.isoformat)
             (fun db _ => (Raise (HTTPException 500), db))
             (fun db _ => (Raise (HTTPException 500), db))
             (fun db _ => (Raise (HTTPException 500), db))
             Pipeline.default_threshold SampleWeb.empty_db
             ["https://a"%string] ltac:(discriminate) eq_refl).
  reflexivity.
Defined.

(* ================================================================== *)
(** * Further properties: loading the assets *)

Section AssetLoading.

Import LoadAssets AssetView.
Local Open Scope string_scope.
Local Open Scope list_scope.

Lemma find_hd_filter (A : Type) (p : A -> bool) (l : list A) :
  find p l = hd_error (filter p l).
Proof.
  induction l as [|a l IH]; [reflexivity|]. simpl.
  destruct (p a); [reflexivity|exact IH].
Qed.

Lemma is_active_of_type (t : string) (a : Asset) :
  is_active_of t a = true -> asset_type a = t /\ is_active a = true.
Proof.
  unfold is_active_of. intros H. apply andb_prop in H.
  destruct H as [H1 H2]. apply String.eqb_eq in H1. auto.
Qed.

Lemma active_deactivate_same (t : string) (session : list Asset) :
  active t (deactivate session t) = tl (active t session).
Proof.
  unfold active. induction session as [|a rest IH]; [reflexivity|].
  cbn [deactivate filter]. destruct (is_active_of t a) eqn:E.
  - cbn [filter tl]. unfold is_active_of at 1. cbn [is_active set_is_active].
    now rewrite andb_false_r.
  - cbn [filter]. rewrite E. exact IH.
Qed.

Lemma active_deactivate_other (t t' : string) (session : list Asset) :
  t' <> t -> active t' (deactivate session t) = active t' session.
Proof.
  intros Hne. unfold active.
  induction session as [|a rest IH]; [reflexivity|].
  cbn [deactivate filter]. destruct (is_active_of t a) eqn:E.
  - apply is_active_of_type in E. destruct E as [Ht _].
    cbn [filter]. unfold is_active_of.
    cbn [asset_type is_active set_is_active]. rewrite Ht.
    replace (String.eqb t t') with false
      by (symmetry; apply String.eqb_neq; congruence).
    reflexivity.
  - cbn [filter]. now rewrite IH.
Qed.

Lemma history_deactivate (t : string) (session : list Asset) :
  history (deactivate session t) = history session.
Proof.
  unfold history. induction session as [|a rest IH]; [reflexivity|].
  cbn [deactivate]. destruct (is_active_of t a); cbn [map].
  - reflexivity.
  - now rewrite IH.
Qed.

Lemma active_snoc_same (t text : string) (v : option Z) (session : list Asset) :
  active t (session ++ [ {| asset_type := t; content := text;
                            version := v; is_active := true |} ])
  = active t session ++ [ {| asset_type := t; content := text;
                             version := v; is_active := true |} ].
Proof.
  unfold active. rewrite filter_app. cbn [filter].
  unfold is_active_of at 2. cbn [asset_type is_active].
  now rewrite String.eqb_refl.
Qed.

Lemma active_snoc_other (t t' text : string) (v : option Z)
    (session : list Asset) :
  t' <> t ->
  active t' (session ++ [ {| asset_type := t; content := text;
                             version := v; is_active := true |} ])
  = active t' session.
Proof.
  intros Hne. unfold active. rewrite filter_app. cbn [filter].
  unfold is_active_of at 2. cbn [asset_type is_active].
  replace (String.eqb t t') with false
    by (symmetry; apply String.eqb_neq; congruence).
  cbn [andb]. apply app_nil_r.
Qed.

Variable file_exists : string -> bool.
Variable read_text : string -> result string.

Local Abbreviation load_one := (LoadAssets.load_one file_exists read_text).
Local Abbreviation load_loop := (LoadAssets.load_loop file_exists read_text).
Local Abbreviation load_assets :=
  (LoadAssets.load_assets file_exists read_text).

(** One step of the loop. *)
Lemma load_one_step (filename t : string) (session session' : list Asset) :
  load_one (filename, t) session = Ok session' ->
  (forall t', t' <> t -> active t' session' = active t' session)
  /\ (exists more, history session' = history session ++ more)
  /\ (file_exists filename = false -> session' = session)
  /\ (file_exists filename = true ->
      exists text,
        read_text filename = Ok text
        /\ (List.length (active t session) <= 1 ->
            exists a, active t session' = [a] /\ content a = text)).
Proof.
  unfold LoadAssets.load_one.
  destruct (file_exists filename) eqn:Hex; cbn [negb].
  2:{ intros H. injection H as <-. repeat split; try discriminate.
      exists []. now rewrite app_nil_r. }
  destruct (read_text filename) as [text|]; [|discriminate].
  unfold query_active. rewrite find_hd_filter.
  fold (active t session).
  destruct (active t session) as [|existing others] eqn:Hact; cbn [hd_error].
  - intros H. injection H as <-. split; [|split; [|split]].
    + intros t' Hne. now apply active_snoc_other.
    + eexists. unfold history. now rewrite map_app.
    + discriminate.
    + intros _. exists text. split; [reflexivity|]. intros _.
      eexists. rewrite active_snoc_same, Hact. split; reflexivity.
  - destruct (String.eqb (content existing) text) eqn:Hc.
    + intros H. injection H as <-. split; [|split; [|split]].
      * reflexivity.
      * exists []. now rewrite app_nil_r.
      * discriminate.
      * intros _. exists text. split; [reflexivity|]. intros Hlen.
        destruct others; [|simpl in Hlen; lia].
        exists existing. rewrite Hact. split; [reflexivity|].
        now apply String.eqb_eq.
    + destruct (version existing) as [v|]; [|discriminate].
      intros H. injection H as <-. split; [|split; [|split]].
      * intros t' Hne.
        rewrite active_snoc_other by assumption.
        now apply active_deactivate_other.
      * eexists. unfold history at 1. rewrite map_app.
        fold (history (deactivate session t)).
        now rewrite history_deactivate.
      * discriminate.
      * intros _. exists text. split; [reflexivity|]. intros Hlen.
        destruct others; [|simpl in Hlen; lia].
        eexists. rewrite active_snoc_same, active_deactivate_same, Hact.
        split; reflexivity.
Qed.

Lemma load_one_keeps_one_active (entry : string * string)
    (session session' : list Asset) :
  one_active_per_type session ->
  load_one entry session = Ok session' ->
  one_active_per_type session'.
Proof.
  intros Hinv H. destruct entry as [filename t].
  destruct (load_one_step _ _ _ _ H) as [Hother [_ [Hno Hyes]]].
  intros t'. destruct (String.eqb t' t) eqn:E.
  - apply String.eqb_eq in E. subst t'.
    destruct (file_exists filename) eqn:Hex.
    + destruct (Hyes eq_refl) as [text [_ Ha]].
      destruct (Ha (Hinv t)) as [a [-> _]]. simpl. lia.
    + rewrite (Hno eq_refl). apply Hinv.
  - apply String.eqb_neq in E. rewrite (Hother t' E). apply Hinv.
Qed.

Lemma load_loop_keeps_one_active (files : list (string * string)) :
  forall session session',
    one_active_per_type session ->
    load_loop files session = Ok session' ->
    one_active_per_type session'.
Proof.
  induction files as [|entry rest IH]; intros session session' Hinv H.
  - injection H as <-. exact Hinv.
  - cbn [LoadAssets.load_loop] in H.
    destruct (load_one entry session) as [s1|] eqn:H1; [|discriminate].
    apply (IH s1); [|exact H].
    now apply (load_one_keeps_one_active entry session).
Qed.

Lemma load_loop_other (t : string) (files : list (string * string)) :
  forall session session',
    ~ In t (map snd files) ->
    load_loop files session = Ok session' ->
    active t session' = active t session.
Proof.
  induction files as [|[f t0] rest IH]; intros session session' Hnin H.
  - now injection H as <-.
  - cbn [LoadAssets.load_loop] in H.
    destruct (load_one (f, t0) session) as [s1|] eqn:H1; [|discriminate].
    destruct (load_one_step _ _ _ _ H1) as [Hother _].
    rewrite (IH s1 session'); [|intros Hin; apply Hnin; now right|exact H].
    apply Hother. intros ->. apply Hnin. now left.
Qed.

Lemma load_loop_history (files : list (string * string)) :
  forall session session',
    load_loop files session = Ok session' ->
    exists more, history session' = history session ++ more.
Proof.
  induction files as [|[f t0] rest IH]; intros session session' H.
  - injection H as <-. exists []. now rewrite app_nil_r.
  - cbn [LoadAssets.load_loop] in H.
    destruct (load_one (f, t0) session) as [s1|] eqn:H1; [|discriminate].
    destruct (load_one_step _ _ _ _ H1) as [_ [[m1 Hm1] _]].
    destruct (IH s1 session' H) as [m2 Hm2].
    exists (m1 ++ m2). now rewrite Hm2, Hm1, app_assoc.
Qed.

(** What the loop leaves for every entry of its list. *)
Lemma load_loop_loaded (files : list (string * string)) :
  NoDup (map snd files) ->
  forall session session',
    one_active_per_type session ->
    load_loop files session = Ok session' ->
    forall filename t, In (filename, t) files ->
      (file_exists filename = false -> active t session' = active t session)
      /\ (file_exists filename = true ->
          exists text a,
            read_text filename = Ok text
            /\ active t session' = [a] /\ content a = text).
Proof.
  induction files as [|[f t0] rest IH]; intros Hnd session session' Hinv H
    filename t Hin; [destruct Hin|].
  cbn [map snd] in Hnd. inversion Hnd as [|? ? Hnin Hnd']; subst.
  cbn [LoadAssets.load_loop] in H.
  destruct (load_one (f, t0) session) as [s1|] eqn:H1; [|discriminate].
  pose proof (load_one_keeps_one_active _ _ _ Hinv H1) as Hinv1.
  destruct (load_one_step _ _ _ _ H1) as [Hother [_ [Hno Hyes]]].
  destruct Hin as [Heq|Hin].
  - injection Heq as -> ->.
    rewrite (load_loop_other t rest s1 session' Hnin H). split.
    + intros Hex. now rewrite (Hno Hex).
    + intros Hex. destruct (Hyes Hex) as [text [Hr Ha]].
      destruct (Ha (Hinv t)) as [a [Hact Hc]]. now exists text, a.
  - destruct (IH Hnd' s1 session' Hinv1 H filename t Hin) as [Hn Hy].
    split; [|exact Hy].
    intros Hex. rewrite (Hn Hex). apply Hother.
    intros ->. apply Hnin. apply in_map_iff. now exists (filename, t0).
Qed.

Lemma ASSET_FILES_NoDup : NoDup (map snd ASSET_FILES).
Proof.
  repeat constructor; simpl; intuition discriminate.
Qed.

Lemma query_asset_as_store (jobs : list Db.JobApplication)
    (table : list Asset) (t : string) :
  Db.query_asset (as_store jobs table) t
  = option_map row (hd_error (active t table)).
Proof.
  unfold Db.query_asset, as_store, active. cbn [Db.professional_assets].
  induction table as [|a rest IH]; [reflexivity|].
  cbn [map find filter].
  change (String.eqb (Db.asset_type (row a)) t && Db.is_active (row a))%bool
    with (is_active_of t a).
  destruct (is_active_of t a); [reflexivity|exact IH].
Qed.

(** X21. The loader keeps at most one active asset per type: when the
    table has at most one active row of every type, it still has after
    the script, whether the script commits or fails. *)
Theorem load_assets_keeps_one_active (table : list Asset) :
  one_active_per_type table ->
  one_active_per_type (snd (load_assets table)).
Proof.
  intros Hinv. unfold LoadAssets.load_assets.
  destruct (load_loop ASSET_FILES table) as [session|] eqn:H; cbn [snd].
  - now apply (load_loop_keeps_one_active ASSET_FILES table).
  - exact Hinv.
Qed.

(** X22. After the loader the stages read the files: when the script
    succeeds on a table with at most one active row per type, then for
    every asset file that exists the active asset of its type, as the
    matchers and the generator query it, holds the text of the file; for
    a file that does not exist the active rows of its type are left as
    they were. *)
Theorem load_assets_publishes_files (jobs : list Db.JobApplication)
    (table table' : list Asset) (filename t : string) :
  one_active_per_type table ->
  load_assets table = (Ok tt, table') ->
  In (filename, t) ASSET_FILES ->
  (file_exists filename = true ->
   exists text,
     read_text filename = Ok text
     /\ option_map Db.content (Db.query_asset (as_store jobs table') t)
        = Some text
     /\ Reasoning._get_asset (as_store jobs table') t = text
     /\ Generator._get_asset (as_store jobs table') t = text)
  /\ (file_exists filename = false -> active t table' = active t table).
Proof.
  intros Hinv H Hin. unfold LoadAssets.load_assets in H.
  destruct (load_loop ASSET_FILES table) as [session|] eqn:Hl;
    [|discriminate].
  injection H as <-.
  destruct (load_loop_loaded ASSET_FILES ASSET_FILES_NoDup table session
              Hinv Hl filename t Hin) as [Hn Hy].
  split; [|exact Hn].
  intros Hex. destruct (Hy Hex) as [text [a [Hr [Ha Hc]]]].
  exists text. split; [exact Hr|].
  unfold Reasoning._get_asset, Generator._get_asset.
  rewrite query_asset_as_store, Ha. cbn [hd_error option_map row Db.content].
  rewrite Hc. auto.
Qed.

(** X23. Running the loader again changes nothing: when the script
    succeeds on a table with at most one active row per type and the
    files stay as they are, a second run succeeds and leaves the table
    as the first run left it. *)
Theorem load_assets_idempotent (table table' : list Asset) :
  one_active_per_type table ->
  load_assets table = (Ok tt, table') ->
  load_assets table' = (Ok tt, table').
Proof.
  intros Hinv H. unfold LoadAssets.load_assets in H.
  destruct (load_loop ASSET_FILES table) as [session|] eqn:Hl;
    [|discriminate].
  injection H as <-.
  pose proof (load_loop_loaded ASSET_FILES ASSET_FILES_NoDup table session
                Hinv Hl) as Hloaded.
  assert (Hfix : forall files,
             incl files ASSET_FILES -> load_loop files session = Ok session).
  { induction files as [|[f t] rest IH]; intros Hincl; [reflexivity|].
    cbn [LoadAssets.load_loop].
    assert (H1 : load_one (f, t) session = Ok session).
    { destruct (Hloaded f t (Hincl _ (or_introl eq_refl))) as [_ Hy].
      unfold LoadAssets.load_one.
      destruct (file_exists f); [|reflexivity]. cbn [negb].
      destruct (Hy eq_refl) as [text [a [Hr [Ha Hc]]]].
      rewrite Hr. unfold query_active. rewrite find_hd_filter.
      fold (active t session). rewrite Ha. cbn [hd_error].
      rewrite Hc, String.eqb_refl. reflexivity. }
    rewrite H1. apply IH. intros x Hx. apply Hincl. now right. }
  unfold LoadAssets.load_assets. now rewrite (Hfix ASSET_FILES (incl_refl _)).
Qed.

(** X24. The loader keeps the history: it never deletes a row and never
    changes the type, the content or the version of a stored row; after
    the script the table holds the old rows in their order, followed by
    the rows it added. *)
Theorem load_assets_keeps_history (table : list Asset) :
  exists added,
    history (snd (load_assets table)) = history table ++ added
    /\ List.length (snd (load_assets table))
       = List.length table + List.length added.
Proof.
  unfold LoadAssets.load_assets.
  destruct (load_loop ASSET_FILES table) as [session|] eqn:H; cbn [snd].
  - destruct (load_loop_history ASSET_FILES table session H) as [more Hm].
    exists more. split; [exact Hm|].
    apply (f_equal (@List.length _)) in Hm.
    unfold history in Hm. rewrite length_app, !length_map in Hm. exact Hm.
  - exists []. rewrite app_nil_r. split; [reflexivity|simpl; lia].
Qed.

End AssetLoading.

Lemma sample_table_one_active : AssetView.one_active_per_type AssetView.sample_table.
Proof.
  intros t. unfold AssetView.active, AssetView.sample_table.
  cbn [filter]. unfold LoadAssets.is_active_of.
  cbn [LoadAssets.asset_type LoadAssets.is_active].
  destruct (String.eqb "narrative" t) eqn:E1;
    destruct (String.eqb "career_goals" t) eqn:E2;
    cbn [andb List.length]; try lia.
  apply String.eqb_eq in E1, E2. congruence.
Qed.

(** The narrative changed on disk, the tech stack is new, the career
    goals have no file. *)
Lemma load_assets_keeps_one_active_witness :
  AssetView.one_active_per_type
    (snd (LoadAssets.load_assets AssetView.sample_exists AssetView.sample_read
            AssetView.sample_table)).
Proof.
  exact (load_assets_keeps_one_active AssetView.sample_exists
           AssetView.sample_read AssetView.sample_table
           sample_table_one_active).
Defined.

Lemma load_assets_publishes_files_witness :
  Reasoning._get_asset
    (AssetView.as_store []
       (snd (LoadAssets.load_assets AssetView.sample_exists
               AssetView.sample_read AssetView.sample_table)))
    "tech_stack"
  = "rust: 5"%string.
Proof.
  destruct (proj1 (load_assets_publishes_files AssetView.sample_exists
                     AssetView.sample_read [] AssetView.sample_table
                     (snd (LoadAssets.load_assets AssetView.sample_exists
                             AssetView.sample_read AssetView.sample_table))
                     "tech_stack.yaml"%string "tech_stack"%string
                     sample_table_one_active eq_refl
                     ltac:(simpl; tauto)) eq_refl)
    as [text [Hr [_ [Hg _]]]].
  rewrite Hg. injection Hr as <-. reflexivity.
Defined.

Lemma load_assets_idempotent_witness :
  let once := snd (LoadAssets.load_assets AssetView.sample_exists
                     AssetView.sample_read AssetView.sample_table) in
  LoadAssets.load_assets AssetView.sample_exists AssetView.sample_read once
  = (Ok tt, once).
Proof.
  intros once.
  exact (load_assets_idempotent AssetView.sample_exists AssetView.sample_read
           AssetView.sample_table once sample_table_one_active eq_refl).
Defined.

(* ================================================================== *)
(** * Further properties: what a run reports *)

Section RunReport.

Import Db View.
Local Open Scope string_scope.
Local Open Scope list_scope.

Lemma cosine_task_ids cosine (db db' : store) (job_ids ids : list string) :
  Pipeline.cosine_match_task cosine db job_ids = (Ok ids, db') ->
  ids = job_ids.
Proof.
  unfold Pipeline.cosine_match_task. destruct job_ids as [|i rest].
  - intros H. now injection H as <- _.
  - destruct (Pipeline._post _) as [[r|e] d]; intros H; [|discriminate].
    now injection H as <- _.
Qed.

Lemma reasoning_task_ids reasoning (db db' : store)
    (job_ids ids : list string) :
  Pipeline.reasoning_match_task reasoning db job_ids = (Ok ids, db') ->
  ids = job_ids.
Proof.
  unfold Pipeline.reasoning_match_task. destruct job_ids as [|i rest].
  - intros H. now injection H as <- _.
  - destruct (Pipeline._post _) as [[r|e] d]; intros H.
    + now injection H as <- _.
    + destruct e; try discriminate.
      destruct status_code as [|p|p]; try discriminate.
      repeat (destruct p as [p|p|]; try discriminate).
      now injection H as <- _.
Qed.

Lemma combine_task_ids (db : store) (job_ids : list string) :
  incl (fst (Pipeline.combine_scores_task db job_ids)) job_ids.
Proof.
  unfold Pipeline.combine_scores_task.
  destruct job_ids as [|i0 rest]; [intros x []|].
  unfold Combine.combine_scores.
  destruct (combine_loop_results db (i0 :: rest) db 0 0 [] (fun _ => eq_refl))
    as [d' [s' [Heq _]]].
  rewrite Heq. cbn [fst Combine.results app].
  intros x Hx. apply in_map_iff in Hx. destruct Hx as [r [<- Hr]].
  apply in_flat_map in Hr. destruct Hr as [y [Hy Hr]].
  unfold combine_result_of in Hr.
  destruct (scores_of db y) as [[[c|] rs]|]; try destruct Hr as [<-|[]];
    try destruct Hr.
  exact Hy.
Qed.

Variable _parse_contact_name : string -> string.
Variable build_cover_letter_prompt :
  JobApplication -> Generator.Assets -> string -> string.
Variable build_cv_variant_prompt :
  JobApplication -> Generator.Assets -> string -> string.
Variable llm_generate : nat -> string -> Z -> result string.

Local Abbreviation generator :=
  (Generator.generate_route _parse_contact_name build_cover_letter_prompt
     build_cv_variant_prompt llm_generate).

(** X25. What a run reports is drafted and above the threshold.  Whatever
    the ingester, the cosine and the reasoning services do, when a pass of
    the DAG succeeds, every identifier it reports was ingested in this
    pass and, with a curator that does not write to the database, is read
    back as a job with status [drafted] whose combined score is at least
    the threshold.  The curator cannot fail the pass: what the pass
    returns does not depend on the curator's answer. *)
Theorem dag_run_reports_drafted ingester cosine reasoning curator
    (threshold : float) (db db' : store) (job_urls drafted : list string) :
  (forall d ids, snd (curator d ids) = d) ->
  Pipeline.dag_run ingester cosine reasoning generator curator
                   threshold db job_urls = (Ok drafted, db') ->
  (forall i, In i drafted ->
     In i (fst (Pipeline.ingest_task ingester db job_urls))
     /\ exists job score,
         query_by_id db' i = Some job
         /\ status job = "drafted"
         /\ combined_match_score job = Some score
         /\ PrimFloat.leb threshold score = true)
  /\ (forall curator',
        fst (Pipeline.dag_run ingester cosine reasoning generator curator'
                              threshold db job_urls) = Ok drafted).
Proof.
  intros Hcur H. unfold Pipeline.dag_run in *.
  destruct (Pipeline.ingest_task ingester db job_urls) as [ingested db1].
  destruct (Pipeline.cosine_match_task cosine db1 ingested)
    as [[matched|e] db2] eqn:Hc; [|discriminate].
  apply cosine_task_ids in Hc. subst matched.
  destruct (Pipeline.reasoning_match_task reasoning db2 ingested)
    as [[reasoned|e] db3] eqn:Hr; [|discriminate].
  apply reasoning_task_ids in Hr. subst reasoned.
  pose proof (combine_task_ids db3 ingested) as Hincl.
  destruct (Pipeline.combine_scores_task db3 ingested) as [scored db4].
  cbn [fst] in *.
  pose proof (generate_task_report _parse_contact_name
                build_cover_letter_prompt build_cv_variant_prompt llm_generate
                threshold db4 scored) as Hg.
  cbv zeta in Hg.
  destruct (Pipeline.generate_task generator threshold db4 scored)
    as [[drafted0|e] db5]; [|discriminate].
  cbn [fst snd] in Hg. destruct Hg as [d [Hd Hall]].
  injection Hd as <-. injection H as <- <-.
  assert (Hdb : Pipeline.curator_notify_task curator db5 drafted0 = db5).
  { unfold Pipeline.curator_notify_task. destruct drafted0; [reflexivity|].
    destruct (curator db5 (s :: drafted0)) as [[u|e] d] eqn:E;
      pose proof (Hcur db5 (s :: drafted0)) as Hs; rewrite E in Hs;
      cbn [snd] in Hs; subst d; [reflexivity|].
    destruct e; reflexivity. }
  split; [|reflexivity].
  intros i Hi. rewrite Hdb. destruct (Hall i Hi) as [Hin Hjob].
  split; [now apply Hincl|exact Hjob].
Qed.

End RunReport.

(** One posting is ingested, scored 0.75 by the cosine service, left
    alone by an unavailable reasoning service, and drafted. *)
Lemma dag_run_reports_drafted_witness :
  let db := Sample.db_of [] in
  let run :=
    Pipeline.dag_run
      (Ingester.ingest SampleWeb.urlparse (fun _ => Ok "<html></html>"%string)
         (fun _ => Ok SampleWeb.posting) (fun _ => Ok SampleWeb.posting)
         (fun _ => Ok SampleWeb.posting) "id-1"%string 0%Z SampleWeb.isoformat)
      (Cosine.match_ nat (fun _ => Ok 0) (fun k _ => Ok k)
         SampleStages.cosine_similarity)
      (fun d _ => (Raise (HTTPException 503), d))
      (Generator.generate_route (fun _ => "the candidate"%string)
         (fun j _ _ => Db.id j) (fun j _ _ => Db.id j)
         (fun _ _ _ => Ok SampleStages.letter))
      (fun d _ => (Raise (HTTPException 500), d))
      Pipeline.default_threshold db ["https://a"%string] in
  fst run = Ok ["id-1"%string]
  /\ exists job, Db.query_by_id (snd run) "id-1" = Some job
                 /\ Db.status job = "drafted"%string.
Proof.
  intros db run.
  assert (Hrun : run = (fst run, snd run)) by apply surjective_pairing.
  assert (Hfst : fst run = Ok ["id-1"%string]) by reflexivity.
  rewrite Hfst in Hrun. split; [exact Hfst|].
  destruct (proj1 (dag_run_reports_drafted (fun _ => "the candidate"%string)
                     (fun j _ _ => Db.id j) (fun j _ _ => Db.id j)
                     (fun _ _ _ => Ok SampleStages.letter)
                     _ _ _ (fun d _ => (Raise (HTTPException 500), d))
                     Pipeline.default_threshold db (snd run)
                     ["https://a"%string] ["id-1"%string]
                     (fun _ _ => eq_refl) Hrun)
                  "id-1"%string (or_introl eq_refl))
    as [_ [job [score [Hq [Hs _]]]]].
  exists job. split; assumption.
Defined.
